(** * A distance-vector routing simulator (1001628688.py), embedded in Rocq

    The simulator keeps its state in Python objects that are shared by
    reference: every [Router] owns a dict (its distance vector), every
    [DVPacket] carries a reference to the sender's dict, and the [Queue]
    objects are shared between the router that drains them and the
    neighbours that fill them.  The embedding therefore threads an explicit
    object store through every method: a heap of dict objects, the contents
    of the queues, and the lines printed so far. *)

From Stdlib Require Import List String ZArith Lia Bool Arith PeanoNat Relations.
Import ListNotations.

Set Implicit Arguments.

(* ================================================================= *)
(** ** Python dicts: insertion-ordered association lists *)

(** Keys are compared with a boolean equality that reflects [=]. *)
Class EqKey (K : Type) := {
  keqb : K -> K -> bool;
  keqb_spec : forall a b : K, reflect (a = b) (keqb a b)
}.

#[export] Instance EqKey_string : EqKey string :=
  {| keqb := String.eqb; keqb_spec := String.eqb_spec |}.

#[export] Instance EqKey_nat : EqKey nat :=
  {| keqb := Nat.eqb; keqb_spec := Nat.eqb_spec |}.

#[export] Instance EqKey_prod (A B : Type) `{EqKey A} `{EqKey B} : EqKey (A * B).
Proof.
  refine {| keqb := fun p q => keqb (fst p) (fst q) && keqb (snd p) (snd q) |}.
  intros [a b] [a' b']; simpl.
  destruct (keqb_spec a a'), (keqb_spec b b'); simpl; constructor; congruence.
Defined.

Section Dict.
Context {K V : Type} `{EqKey K}.

Definition dict := list (K * V).

(** [d[k]], [None] standing for a missing key *)
Fixpoint dict_get (k : K) (d : dict) : option V :=
  match d with
  | [] => None
  | (k', v) :: d' => if keqb k k' then Some v else dict_get k d'
  end.

(** [k in d] *)
Definition dict_mem (k : K) (d : dict) : bool :=
  match dict_get k d with Some _ => true | None => false end.

(** [d[k] = v]: an existing key keeps its position, a new key goes last *)
Fixpoint dict_set (k : K) (v : V) (d : dict) : dict :=
  match d with
  | [] => [(k, v)]
  | (k', v') :: d' =>
      if keqb k k' then (k', v) :: d' else (k', v') :: dict_set k v d'
  end.

Definition dict_keys (d : dict) : list K := map fst d.

(** [{k: v for (k, v) in kvs}] *)
Definition dict_of_list (kvs : list (K * V)) : dict :=
  fold_left (fun d kv => dict_set (fst kv) (snd kv) d) kvs [].
End Dict.

Arguments dict : clear implicits.

(* ================================================================= *)
(** ** Outcomes of fallible code *)

(** [KeyError] is Python's exception for a missing dict key; nothing in the
    program catches it, so the state at the raise is not kept.  [OutOfFuel]
    is not a Python outcome: it says that a [while] loop was still running
    when the iteration budget of the model ran out. *)
Inductive result (A : Type) : Type :=
| Ok (a : A)
| KeyError
| OutOfFuel.

Arguments Ok {A} a.
Arguments KeyError {A}.
Arguments OutOfFuel {A}.

Definition bind {A B : Type} (m : result A) (f : A -> result B) : result B :=
  match m with
  | Ok a => f a
  | KeyError => KeyError
  | OutOfFuel => OutOfFuel
  end.

Notation "x <- m ;; f" := (bind m (fun x => f))
  (at level 61, m at next level, right associativity).
Notation "' p <- m ;; f" := (bind m (fun x => let p := x in f))
  (at level 61, p pattern, m at next level, right associativity).

(** [for x in xs: s = body(x, s)], stopping at the first exception *)
Fixpoint for_each {A S : Type} (body : A -> S -> result S) (xs : list A) (s : S)
  : result S :=
  match xs with
  | [] => Ok s
  | x :: xs' => s' <- body x s ;; for_each body xs' s'
  end.

(* ================================================================= *)
(** ** Data model *)

Open Scope Z_scope.

Definition address := string.

(** [inf = 16] *)
Definition inf : Z := 16.

(** A distance-vector entry [(next_hop, cost)] and the dict [{dst: entry}] *)
Abbreviation entry := (address * Z)%type.
Abbreviation DV := (dict address (address * Z)).

Definition next_hop_of (e : entry) : address := fst e.
Definition cost_of (e : entry) : Z := snd e.

(** References to dict objects *)
Definition loc := nat.

(** The packet classes.  A [DVPacket] holds [dv=self.dv]: the reference to
    the sender's dict object, not a copy of it. *)
Inductive Packet : Type :=
| DVPacket (src dst : address) (dv : loc)
| HTTPPacket (src dst : address) (msg : string).

Definition pkt_src (p : Packet) : address :=
  match p with DVPacket s _ _ => s | HTTPPacket s _ _ => s end.

Definition pkt_dst (p : Packet) : address :=
  match p with DVPacket _ d _ => d | HTTPPacket _ d _ => d end.

(** The lines printed by [route] and [read_packet] *)
Inductive Event : Type :=
| Dropped (at_ src dst : address)
| Forwarding (at_ next_hop : address)
| ReceivedDV (at_ src : address)
| ReceivedMessage (at_ src : address) (msg : string).

(** The shared objects.  [Network.__init__] creates one [Queue] per address,
    so a queue object is named by the address it was created for. *)
Record Store : Type := mkStore {
  heap : dict loc DV;
  queues : dict address (list Packet);
  log : list Event
}.

Record Router : Type := mkRouter {
  addr : address;
  costs : dict address Z;
  in_queue : address;
  out_queues : dict address address;
  dv : loc;
  converged : Z
}.

(** *** Store primitives *)

Definition deref (h : dict loc DV) (l : loc) : DV :=
  match dict_get l h with Some d => d | None => [] end.

Definition heap_store (l : loc) (d : DV) (h : dict loc DV) : dict loc DV :=
  dict_set l d h.

(** A location no object lives at *)
Definition heap_fresh (h : dict loc DV) : loc :=
  fold_right (fun lv m => Nat.max (S (fst lv)) m) 0%nat h.

Definition queue_contents (qs : dict address (list Packet)) (q : address)
  : list Packet :=
  match dict_get q qs with Some ps => ps | None => [] end.

(** [q.put(p)] *)
Definition queue_put (q : address) (p : Packet) (st : Store) : Store :=
  mkStore (heap st) (dict_set q (queue_contents (queues st) q ++ [p]) (queues st))
          (log st).

Definition set_queue (q : address) (ps : list Packet) (st : Store) : Store :=
  mkStore (heap st) (dict_set q ps (queues st)) (log st).

Definition set_heap (h : dict loc DV) (st : Store) : Store :=
  mkStore h (queues st) (log st).

(** [print(...)] *)
Definition emit (e : Event) (st : Store) : Store :=
  mkStore (heap st) (queues st) (log st ++ [e]).

Definition set_converged (c : Z) (r : Router) : Router :=
  mkRouter (addr r) (costs r) (in_queue r) (out_queues r) (dv r) c.

Definition set_dv (l : loc) (r : Router) : Router :=
  mkRouter (addr r) (costs r) (in_queue r) (out_queues r) l (converged r).

Definition set_costs (cs : dict address Z) (r : Router) : Router :=
  mkRouter (addr r) cs (in_queue r) (out_queues r) (dv r) (converged r).

(* ================================================================= *)
(** ** Router *)

(** [Router.reset]: a new dict object built from the link costs, the counter
    back at 2, and the inbound queue emptied (the [while] loop only calls
    [get] until the queue is empty). *)
Definition Router_reset (self : Router) (st : Store) : Router * Store :=
  let l := heap_fresh (heap st) in
  let d : DV := dict_of_list (map (fun dc => (fst dc, (fst dc, snd dc))) (costs self)) in
  (set_converged 2 (set_dv l self),
   set_queue (in_queue self) [] (set_heap (heap_store l d (heap st)) st)).

(** *** [Router.update_dv]

    The three loop bodies act on the router's own dict and counter.  A loop
    over [dv_table.items()] reads the items of the advertised dict as they
    are when the loop starts: the only writes of a body go to the router's
    own dict, at a key that is new (first loop) or is the one being visited
    (third loop), so even when [dv_table] is the router's own dict the items
    still to come are the ones present at the start. *)

(** [if dst not in self.dv: self.dv[dst] = (next_hop, self.dv[src][1] + cost);
     self.converged = 2] *)
Definition learn_body (src : address) (item : address * entry) (s : DV * Z)
  : result (DV * Z) :=
  let '(dst, (next_hop, cost)) := item in
  let '(d, conv) := s in
  if dict_mem dst d then Ok (d, conv)
  else match dict_get src d with
       | Some e => Ok (dict_set dst (next_hop, cost_of e + cost) d, 2)
       | None => KeyError
       end.

(** [if cost > inf: self.dv[dst] = (next_hop, inf)]
    [if dst == self.addr: self.dv[dst] = (dst, 0)] *)
Definition bound_body (self_addr : address) (d : DV) (item : address * entry) : DV :=
  let '(dst, (next_hop, cost)) := item in
  let d1 := if cost >? inf then dict_set dst (next_hop, inf) d else d in
  if String.eqb dst self_addr then dict_set dst (dst, 0) d1 else d1.

(** [for dst, (next_hop, cost) in self.dv.items(): ...] *)
Definition upper_bound (self_addr : address) (d : DV) : DV :=
  fold_left (bound_body self_addr) d d.

(** [if dst == self.addr: continue]
    [if self.dv[src][1] + cost < self.dv[dst][1]:
       self.dv[dst] = (src, self.dv[src][1] + cost); self.converged = 2] *)
Definition relax_body (self_addr src : address) (item : address * entry)
  (s : DV * Z) : result (DV * Z) :=
  let '(dst, (_, cost)) := item in
  let '(d, conv) := s in
  if String.eqb dst self_addr then Ok (d, conv)
  else match dict_get src d, dict_get dst d with
       | Some es, Some ed =>
           if cost_of es + cost <? cost_of ed
           then Ok (dict_set dst (src, cost_of es + cost) d, 2)
           else Ok (d, conv)
       | _, _ => KeyError
       end.

Definition update_dv (self : Router) (src : address) (dv_table : loc)
  (h : dict loc DV) : result (Router * dict loc DV) :=
  let l := dv self in
  (* if src not in self.dv: self.dv[src] = (src, inf) *)
  let h1 := if dict_mem src (deref h l) then h
            else heap_store l (dict_set src (src, inf) (deref h l)) h in
  (* add new entries *)
  '(d2, c2) <- for_each (learn_body src) (deref h1 dv_table)
                        (deref h1 l, converged self) ;;
  (* upper-bound entries *)
  let h3 := heap_store l (upper_bound (addr self) d2) h1 in
  (* Bellman-Ford *)
  '(d4, c4) <- for_each (relax_body (addr self) src) (deref h3 dv_table)
                        (deref h3 l, c2) ;;
  (* upper-bound entries again *)
  let h5 := heap_store l (upper_bound (addr self) d4) h3 in
  Ok (set_converged c4 self, h5).

(** *** [Router.read_packet]

    [Packet] itself is never instantiated, so the [ValueError] branch for an
    unknown packet class has no counterpart. *)
Definition read_packet (self : Router) (packet : Packet) (st : Store)
  : result (Router * Store) :=
  match packet with
  | DVPacket src _ table =>
      let st1 := emit (ReceivedDV (addr self) src) st in
      '(self', h') <- update_dv self src table (heap st1) ;;
      Ok (self', set_heap h' st1)
  | HTTPPacket src _ msg =>
      Ok (self, emit (ReceivedMessage (addr self) src msg) st)
  end.

(** *** [Router.route]

    The body of the [while] loop for the packet just taken from the queue.
    A forwarded packet is put on its queue before the line is printed, so a
    missing [out_queues] key raises before any output. *)
Definition route_packet (self : Router) (packet : Packet) (st : Store)
  : result (Router * Store) :=
  if String.eqb (pkt_dst packet) (addr self) then
    (* packet is for this router *)
    read_packet self packet st
  else
    match dict_get (pkt_dst packet) (deref (heap st) (dv self)) with
    | None =>
        (* drop packet *)
        Ok (self, emit (Dropped (addr self) (pkt_src packet) (pkt_dst packet)) st)
    | Some e =>
        (* forward packet *)
        match dict_get (next_hop_of e) (out_queues self) with
        | None => KeyError
        | Some q =>
            Ok (self, emit (Forwarding (addr self) (next_hop_of e))
                           (queue_put q packet st))
        end
    end.

(** [while not self.in_queue.empty(): packet = self.in_queue.get(); ...]:
    one unit of fuel per packet taken from the queue. *)
Fixpoint Router_route (fuel : nat) (self : Router) (st : Store)
  : result (Router * Store) :=
  match queue_contents (queues st) (in_queue self) with
  | [] => Ok (self, st)
  | packet :: rest =>
      match fuel with
      | O => OutOfFuel
      | S fuel' =>
          '(self', st') <- route_packet self packet (set_queue (in_queue self) rest st) ;;
          Router_route fuel' self' st'
      end
  end.

(** *** [Router.send_dv] *)
Definition Router_send_dv (self : Router) (st : Store) : Router * Store :=
  if converged self =? 0 then (self, st)
  else
    (set_converged (converged self - 1) self,
     fold_left
       (fun st' dq => queue_put (snd dq) (DVPacket (addr self) (fst dq) (dv self)) st')
       (out_queues self) st).

(* ================================================================= *)
(** ** Network *)

(** [routers] is the dict [{addr: Router}]; the methods visit its values in
    dict order.  The queue objects live in the store. *)
Record Network : Type := mkNetwork {
  routers : dict address Router;
  store : Store
}.

(** [for router in self.routers.values(): router.m()] for a method that
    cannot raise, and for one that can *)
Fixpoint each_router (m : Router -> Store -> Router * Store)
  (rs : dict address Router) (st : Store) : dict address Router * Store :=
  match rs with
  | [] => ([], st)
  | (a, r) :: rs' =>
      let '(r', st1) := m r st in
      let '(rs'', st2) := each_router m rs' st1 in
      ((a, r') :: rs'', st2)
  end.

Fixpoint each_router_r (m : Router -> Store -> result (Router * Store))
  (rs : dict address Router) (st : Store) : result (dict address Router * Store) :=
  match rs with
  | [] => Ok ([], st)
  | (a, r) :: rs' =>
      '(r', st1) <- m r st ;;
      '(rs'', st2) <- each_router_r m rs' st1 ;;
      Ok ((a, r') :: rs'', st2)
  end.

(** The parsed topology file: one [(src, dst, cost)] per line *)
Definition topology := list (address * address * Z).

(** [costs[(src, dst)] = int(cost)] for every line *)
Definition link_costs (edges : topology) : dict (address * address) Z :=
  fold_left (fun d e => dict_set (fst (fst e), snd (fst e)) (snd e) d) edges [].

(** [{dst: X for (src, dst) in costs.keys() if src == addr}], with [X] a
    function of [dst] and of [costs[(src, dst)]], the value stored under the
    key being visited *)
Definition links_from {X : Type} (a : address) (f : address -> Z -> X)
  (cs : dict (address * address) Z) : dict address X :=
  dict_of_list
    (map (fun kc => (snd (fst kc), f (snd (fst kc)) (snd kc)))
         (filter (fun kc => String.eqb (fst (fst kc)) a) cs)).

(** [Router(addr, costs, in_queue, out_queues)]; [__init__] ends in [reset] *)
Definition Router_init (a : address) (cs : dict address Z) (inq : address)
  (outqs : dict address address) (st : Store) : Router * Store :=
  Router_reset (mkRouter a cs inq outqs 0%nat 0) st.

Fixpoint make_routers (cs : dict (address * address) Z) (addrs : list address)
  (rs : dict address Router) (st : Store) : dict address Router * Store :=
  match addrs with
  | [] => (rs, st)
  | a :: addrs' =>
      let '(r, st1) :=
        Router_init a (links_from a (fun _ c => c) cs) a
                    (links_from a (fun dst _ => dst) cs) st in
      make_routers cs addrs' (dict_set a r rs) st1
  end.

(** [Network.__init__].  [addrs] is a Python set; the order in which the two
    dict comprehensions visit it is not fixed by the language, so it is a
    parameter: [addrs] lists the set in iteration order. *)
Definition Network_init (addrs : list address) (edges : topology) : Network :=
  let cs := link_costs edges in
  let qs := dict_of_list (map (fun a => (a, @nil Packet)) addrs) in
  let '(rs, st) := make_routers cs addrs [] (mkStore [] qs []) in
  mkNetwork rs st.

(** The elements of the set [addrs] built by [addrs = addrs | {src, dst}] *)
Definition endpoint (a : address) (edges : topology) : Prop :=
  exists e, In e edges /\ (a = fst (fst e) \/ a = snd (fst e)).

Definition Network_reset (net : Network) : Network :=
  let '(rs, st) := each_router Router_reset (routers net) (store net) in
  mkNetwork rs st.

Definition Network_send_dv (net : Network) : Network :=
  let '(rs, st) := each_router Router_send_dv (routers net) (store net) in
  mkNetwork rs st.

Definition Network_route (fuel : nat) (net : Network) : result Network :=
  '(rs, st) <- each_router_r (Router_route fuel) (routers net) (store net) ;;
  Ok (mkNetwork rs st).

Definition is_stable (net : Network) : bool :=
  forallb (fun ar => converged (snd ar) =? 0) (routers net).

Definition step (fuel : nat) (net : Network) : result Network :=
  Network_route fuel (Network_send_dv net).

(** [while not self.is_stable(): self.step(); steps += 1]: [n] bounds the
    number of rounds, [fuel] the packets one [route] call may take. *)
Fixpoint run_loop (n fuel : nat) (net : Network) (steps : nat)
  : result (nat * Network) :=
  if is_stable net then Ok (steps, net)
  else match n with
       | O => OutOfFuel
       | S n' => net' <- step fuel net ;; run_loop n' fuel net' (S steps)
       end.

Definition run_until_converged (fuel : nat) (net : Network) : result (nat * Network) :=
  run_loop fuel fuel net 0%nat.

(** ** The driver's direct mutations ([main], choices 3 and 4) *)

(** [network.queues[src].put(HTTPPacket(src=src, dst=dst, msg=msg))] *)
Definition send_message (src dst : address) (msg : string) (net : Network)
  : result Network :=
  if dict_mem src (queues (store net))
  then Ok (mkNetwork (routers net) (queue_put src (HTTPPacket src dst msg) (store net)))
  else KeyError.

(** The body of choice 4 on the router object [network.routers[src]] *)
Definition Router_change_cost (self : Router) (dst : address) (cost : Z)
  (h : dict loc DV) : result (Router * dict loc DV) :=
  let l := dv self in
  (* network.routers[src].costs[dst] = int(cost) *)
  let r1 := set_costs (dict_set dst cost (costs self)) self in
  (* if dst not in network.routers[src].dv: ...dv[dst] = (dst, inf) *)
  let h1 := if dict_mem dst (deref h l) then h
            else heap_store l (dict_set dst (dst, inf) (deref h l)) h in
  (* old_cost = network.routers[src].dv[dst][1] *)
  match dict_get dst (deref h1 l) with
  | None => KeyError
  | Some e =>
      let old_cost := cost_of e in
      if cost <? old_cost
      then Ok (set_converged 2 r1,
               heap_store l (dict_set dst (dst, cost) (deref h1 l)) h1)
      else Ok (r1, h1)
  end.

Definition change_link_cost (src dst : address) (cost : Z) (net : Network)
  : result Network :=
  match dict_get src (routers net) with
  | None => KeyError
  | Some r =>
      '(r', h') <- Router_change_cost r dst cost (heap (store net)) ;;
      Ok (mkNetwork (dict_set src r' (routers net)) (set_heap h' (store net)))
  end.

(** ** The menu of [main]

    [main] builds the network and then handles one menu choice per turn of
    its [while True] loop, until choice 9.  The choices typed so far are a
    parameter, in the order they are typed, the number typed for a cost
    already parsed by [int]; [main_loop] gives the network the session has
    reached when they have been handled.  Choices 7 and 8 and an unknown
    choice only print, and the lines the menu prints are not recorded.
    Nothing catches an exception, so the first one ends the session. *)
Inductive choice : Type :=
| RunUntilConverged                               (* 0 *)
| OneStep                                         (* 1 *)
| Reset                                           (* 2 *)
| SendMessage (src dst : address) (msg : string)  (* 3 *)
| ChangeCost (src dst : address) (cost : Z)       (* 4 *)
| RouteOnly                                       (* 5 *)
| SendOnly                                        (* 6 *)
| ViewTables                                      (* 7 *)
| ViewStatus                                      (* 8 *)
| Exit                                            (* 9 *)
| Invalid.

(** The branch of the [if]/[elif] chain taken for one choice; [fuel] bounds
    the [while] loops of [route] and [run_until_converged] *)
Definition choose (fuel : nat) (c : choice) (net : Network) : result Network :=
  match c with
  | RunUntilConverged => sn <- run_until_converged fuel net ;; Ok (snd sn)
  | OneStep => step fuel net
  | Reset => Ok (Network_reset net)
  | SendMessage src dst msg => send_message src dst msg net
  | ChangeCost src dst cost => change_link_cost src dst cost net
  | RouteOnly => Network_route fuel net
  | SendOnly => Ok (Network_send_dv net)
  | ViewTables | ViewStatus | Exit | Invalid => Ok net
  end.

(** [while True: ...]: the choices in turn, until choice 9 *)
Fixpoint main_loop (fuel : nat) (choices : list choice) (net : Network)
  : result Network :=
  match choices with
  | [] => Ok net
  | Exit :: _ => Ok net
  | c :: rest => net' <- choose fuel c net ;; main_loop fuel rest net'
  end.

(** [main], for the topology file [edges] and the typed choices *)
Definition main (fuel : nat) (addrs : list address) (edges : topology)
  (choices : list choice) : result Network :=
  main_loop fuel choices (Network_init addrs edges).

(* ================================================================= *)
(** * Vocabulary of the properties *)

(** ** Reading the state *)

(** The distance vector of a router, read through its reference *)
Definition dv_of (r : Router) (h : dict loc DV) : DV := deref h (dv r).

(** The distance vector of the router registered under [a] *)
Definition vector_at (a : address) (net : Network) : DV :=
  match dict_get a (routers net) with
  | Some r => dv_of r (heap (store net))
  | None => []
  end.

(** The heap after [if src not in self.dv: self.dv[src] = (src, inf)] *)
Definition with_src (l : loc) (src : address) (h : dict loc DV) : dict loc DV :=
  if dict_mem src (deref h l) then h
  else heap_store l (dict_set src (src, inf) (deref h l)) h.

Definition is_http (p : Packet) : bool :=
  match p with HTTPPacket _ _ _ => true | DVPacket _ _ _ => false end.

(** The references held by the routers of a network, in dict order *)
Definition locs (rs : dict address Router) : list loc :=
  map (fun ar => dv (snd ar)) rs.

(** The queues the routers of a network drain, in dict order *)
Definition inqs (rs : dict address Router) : list address :=
  map (fun ar => in_queue (snd ar)) rs.

(** ** Properties of a distance vector *)

(** The router's own address, when it has an entry, maps to [(self, 0)] *)
Definition self_route_ok (a : address) (d : DV) : Prop :=
  forall e, dict_get a d = Some e -> e = (a, 0).


(** No entry costs more than [inf] *)
Definition bounded (d : DV) : Prop :=
  forall k e, dict_get k d = Some e -> cost_of e <= inf.

(** All costs are non-negative *)
Definition nonneg (d : DV) : Prop :=
  forall k e, dict_get k d = Some e -> 0 <= cost_of e.

(** No cost is above [C] *)
Definition capped (C : Z) (d : DV) : Prop :=
  forall k e, dict_get k d = Some e -> cost_of e <= C.

(** What the clamp pass does to the entry stored under [k] *)
Definition clamp_entry (a k : address) (e : entry) : entry :=
  if String.eqb k a then (k, 0)
  else if cost_of e >? inf then (next_hop_of e, inf) else e.

(** Every neighbour (key of the link costs) has an entry in the vector *)
Definition knows_neighbours (r : Router) (h : dict loc DV) : Prop :=
  forall k, dict_mem k (costs r) = true -> dict_mem k (dv_of r h) = true.

(** Keys are pairwise distinct, as a boolean *)
Fixpoint distinct (l : list address) : bool :=
  match l with
  | [] => true
  | x :: l' => negb (existsb (String.eqb x) l') && distinct l'
  end.

(** ** The order on distance vectors *)

(** [d'] has every key of [d]; away from the router's own address [a] no
    cost is higher than in [d], and the cost under [a] is the old one or 0 *)
Definition refines (a : address) (d d' : DV) : Prop :=
  (forall k, dict_mem k d = true -> dict_mem k d' = true)
  /\ (forall k e e', dict_get k d = Some e -> dict_get k d' = Some e' ->
        (k <> a -> cost_of e' <= cost_of e)
        /\ (k = a -> cost_of e' = cost_of e \/ cost_of e' = 0)).

(** [d'] has a key that [d] lacks, or a strictly lower cost away from [a] *)
Definition improves (a : address) (d d' : DV) : Prop :=
  exists k,
    (dict_mem k d = false /\ dict_mem k d' = true)
    \/ (k <> a /\ exists e e', dict_get k d = Some e /\ dict_get k d' = Some e'
                             /\ cost_of e' < cost_of e).

(** The test of the relaxation step for one advertised item, against the
    router's vector [d] and its entry [es] for the advertising neighbour *)
Definition relaxes (a : address) (es : entry) (d : DV) (item : address * entry) : bool :=
  negb (String.eqb (fst item) a)
  && match dict_get (fst item) d with
     | Some ed => cost_of es + cost_of (snd item) <? cost_of ed
     | None => false
     end.

(** ** Properties of a network *)


(** The driver's operations that neither rebuild a vector ([reset]) nor write
    into one from outside ([main], choice 4) *)
Inductive operation : Network -> Network -> Prop :=
| op_send_dv net : operation net (Network_send_dv net)
| op_route fuel net net' :
    Network_route fuel net = Ok net' -> operation net net'
| op_step fuel net net' :
    step fuel net = Ok net' -> operation net net'
| op_run fuel net steps net' :
    run_until_converged fuel net = Ok (steps, net') -> operation net net'
| op_message src dst msg net net' :
    send_message src dst msg net = Ok net' -> operation net net'.

(** No distance-vector packet is waiting in any queue *)
Definition no_dv_pending (st : Store) : Prop :=
  forall q, forallb is_http (queue_contents (queues st) q) = true.

(** Every router drains the queue named by its address, and the queues it
    fills are named by the key it files them under and drained by a router *)
Definition linked (rs : dict address Router) : Prop :=
  forall a r, In (a, r) rs ->
    in_queue r = addr r
    /\ forall k q, In (k, q) (out_queues r) -> k = q /\ In q (inqs rs).

(** Every pending distance-vector packet waits in the queue of the router it
    is addressed to, one of the queues [Q] *)
Definition addressed (Q : list address) (st : Store) : Prop :=
  forall q p, In p (queue_contents (queues st) q) -> is_http p = false ->
    pkt_dst p = q /\ In q Q.

Definition ready (net : Network) : Prop :=
  linked (routers net) /\ addressed (inqs (routers net)) (store net).

(** The second list holds the routers of the first, counters apart *)
Definition same_wiring (rs rs' : dict address Router) : Prop :=
  Forall2 (fun ar ar' : address * Router =>
             fst ar' = fst ar /\ exists c, snd ar' = set_converged c (snd ar)) rs rs'.

(** ** The convergence argument *)

(** A well-formed vector over the address universe [U], costs within [0, C] *)
Definition sound (U : list address) (C : Z) (d : DV) : Prop :=
  NoDup (dict_keys d) /\ nonneg d /\ capped C d
  /\ forall k, dict_mem k d = true -> In k U.

Definition heap_ok (U : list address) (C : Z) (h : dict loc DV) : Prop :=
  forall l, sound U C (deref h l).

(** The weight of address [u] in vector [d]: a missing entry weighs more
    than any entry of cost at most [C] *)
Definition weight (C : Z) (d : DV) (u : address) : nat :=
  match dict_get u d with
  | None => Z.to_nat C + 2
  | Some e => Z.to_nat (cost_of e) + 1
  end.

Definition potential (U : list address) (C : Z) (d : DV) : nat :=
  list_sum (map (weight C d) U).

(** The measure of a router: it goes down when the counter is decremented,
    and does not go up when the counter is set back to 2 by a change of the
    vector, because the potential then goes down by at least 1 *)
Definition router_measure (U : list address) (C : Z) (h : dict loc DV) (r : Router)
  : nat :=
  3 * potential U C (dv_of r h) + Z.to_nat (converged r).

Definition net_measure (U : list address) (C : Z) (rs : dict address Router)
  (h : dict loc DV) : nat :=
  list_sum (map (fun ar => router_measure U C h (snd ar)) rs).

(** The measure of a whole network *)
Definition measure (U : list address) (C : Z) (net : Network) : nat :=
  net_measure U C (routers net) (heap (store net)).

(** Every pending packet is a distance vector addressed to the owner of the
    queue it waits in, sent from a known address *)
Definition dv_only (U : list address) (st : Store) : Prop :=
  forall q p, In p (queue_contents (queues st) q) ->
    exists s t, p = DVPacket s q t /\ In s U.

(** The wiring [Network.__init__] gives a router *)
Definition wired (U : list address) (r : Router) : Prop :=
  in_queue r = addr r /\ In (addr r) U
  /\ forall k q, In (k, q) (out_queues r) -> k = q /\ In q U.

Definition net_ok (U : list address) (C : Z) (rs : dict address Router) (st : Store)
  : Prop :=
  NoDup (map (fun ar : address * Router => dv (snd ar)) rs)
  /\ (forall a r, In (a, r) rs -> wired U r /\ 0 <= converged r)
  /\ heap_ok U C (heap st)
  /\ dv_only U st.

Definition network_ok (U : list address) (C : Z) (net : Network) : Prop :=
  net_ok U C (routers net) (store net).

(** The largest link cost of a topology, and at least [inf] *)
Definition cost_cap (edges : topology) : Z :=
  fold_right (fun e m => Z.max (snd e) m) inf edges.

(** The number of packets waiting in all queues *)
Definition pending (qs : dict address (list Packet)) : nat :=
  list_sum (map (fun qp => List.length (snd qp)) qs).

(** What [send_dv] does to the router object *)
Definition after_send (r : Router) : Router :=
  if converged r =? 0 then r else set_converged (converged r - 1) r.

(** The routers once every one of them has run [send_dv] *)
Definition all_sent (rs : dict address Router) : dict address Router :=
  map (fun ar => (fst ar, after_send (snd ar))) rs.

(** What holds of the routers built so far while [Network.__init__] runs:
    their references are distinct and allocated, they are wired, the heap is
    well-formed and every queue is empty *)
Definition built (U : list address) (C : Z) (rs : dict address Router) (st : Store)
  : Prop :=
  NoDup (locs rs)
  /\ (forall l, In l (locs rs) -> dict_mem l (heap st) = true)
  /\ (forall a r, In (a, r) rs -> wired U r /\ 0 <= converged r)
  /\ heap_ok U C (heap st)
  /\ (forall q, queue_contents (queues st) q = []).

(** ** What the methods build *)

(** The packets [send_dv] puts on the queue [q]: one for each entry of
    [out_queues] filed for [q], in dict order *)
Definition sent_to (self : Router) (q : address) : list Packet :=
  map (fun dq : address * address => DVPacket (addr self) (fst dq) (dv self))
      (filter (fun dq : address * address => String.eqb (snd dq) q) (out_queues self)).

(** The vector [reset] builds from the link costs:
    [{dst: (dst, cost) for dst, cost in self.costs.items()}] *)
Definition link_vector (cs : dict address Z) : DV :=
  dict_of_list (map (fun dc : address * Z => (fst dc, (fst dc, snd dc))) cs).

(** The cost the topology file gives the link from [s] to [d]: the one on the
    last line that names the pair *)
Definition listed_cost (edges : topology) (s d : address) : option Z :=
  fold_left (fun acc (e : address * address * Z) =>
               if String.eqb (fst (fst e)) s && String.eqb (snd (fst e)) d
               then Some (snd e) else acc)
            edges None.

(** What [Network.__init__] has built so far: the routers are filed under
    their own address, wired to the queues of that name and of their
    neighbours, and hold the vector [reset] gives them *)
Definition as_built (cs : dict (address * address) Z) (rs : dict address Router)
  (st : Store) : Prop :=
  forall a r, In (a, r) rs ->
    r = mkRouter a (links_from a (fun _ c => c) cs) a
                 (links_from a (fun dst _ => dst) cs) (dv r) 2
    /\ dict_mem (dv r) (heap st) = true
    /\ deref (heap st) (dv r) = link_vector (costs r).

(** ** Rounds and counters *)

(** [n] calls of [step] in a row *)
Fixpoint step_n (fuel n : nat) (net : Network) : result Network :=
  match n with
  | O => Ok net
  | S n' => net' <- step fuel net ;; step_n fuel n' net'
  end.

(** Every counter is 0, 1 or 2 *)
Definition counters_ok (net : Network) : Prop :=
  forall a r, In (a, r) (routers net) -> 0 <= converged r <= 2.

(** A router of the second list is the router of the first at the same
    place, with the counter it had, or the counter [send_dv] leaves, or 2 *)
Definition counters_follow (rs rs' : dict address Router) : Prop :=
  Forall2 (fun ar ar' : address * Router =>
             fst ar' = fst ar
             /\ exists c, snd ar' = set_converged c (snd ar)
                  /\ (c = converged (after_send (snd ar)) \/ c = 2)) rs rs'.

(** A bound on the number of rounds [run_until_converged] takes on the
    network built from [edges] over the addresses [addrs] *)
Definition round_bound (addrs : list address) (edges : topology) : nat :=
  (List.length addrs
   * (3 * (List.length addrs * (Z.to_nat (cost_cap edges) + 2)) + 2))%nat.

(** ** Packets *)

(** The lines that end a packet's life: it was read or dropped *)
Definition is_final (e : Event) : bool :=
  match e with
  | Dropped _ _ _ | ReceivedDV _ _ | ReceivedMessage _ _ _ => true
  | Forwarding _ _ => false
  end.

(** The number of packets read or dropped so far *)
Definition consumed (st : Store) : nat := List.length (filter is_final (log st)).

(** The number of packets waiting in the queues, read or dropped *)
Definition accounted (st : Store) : nat := (pending (queues st) + consumed st)%nat.

(** The number of packets one call of [Network.send_dv] puts on the queues:
    one for every channel of every router whose counter is not 0 *)
Definition advertisements (rs : dict address Router) : nat :=
  list_sum (map (fun ar : address * Router =>
                   if converged (snd ar) =? 0 then 0%nat
                   else List.length (out_queues (snd ar))) rs).

(** ** Shortest paths *)

(** A walk along the links [cs], with the sum of its link costs *)
Inductive walk (cs : dict (address * address) Z) : address -> address -> Z -> Prop :=
| walk_nil a : walk cs a a 0
| walk_cons a b d c k :
    dict_get (a, b) cs = Some c -> walk cs b d k -> walk cs a d (c + k).

(** The link costs are non-negative, and a link has a link back *)
Definition links_ok (cs : dict (address * address) Z) : Prop :=
  (forall k c, dict_get k cs = Some c -> 0 <= c)
  /\ (forall a d, dict_mem (a, d) cs = true -> dict_mem (d, a) cs = true).

(** The routers are filed under their address, hold distinct dicts, drain the
    queue of their name, and have the link costs and channels [cs] gives *)
Definition wiring (cs : dict (address * address) Z) (rs : dict address Router) : Prop :=
  NoDup (dict_keys rs) /\ NoDup (locs rs)
  /\ forall a r, In (a, r) rs ->
       addr r = a /\ in_queue r = a
       /\ (forall d, dict_get d (costs r) = dict_get (a, d) cs)
       /\ (forall d, dict_mem d (out_queues r) = dict_mem (a, d) cs)
       /\ (forall k q, In (k, q) (out_queues r) -> k = q).

(** Every vector has distinct keys and non-negative costs *)
Definition vectors_ok (rs : dict address Router) (h : dict loc DV) : Prop :=
  forall a r, In (a, r) rs -> NoDup (dict_keys (dv_of r h)) /\ nonneg (dv_of r h).

(** A pending distance-vector packet waits in the queue of the router it is
    addressed to, a neighbour of its sender, and holds the sender's dict *)
Definition packets_ok (rs : dict address Router) (st : Store) : Prop :=
  forall q p, In p (queue_contents (queues st) q) -> is_http p = false ->
    exists s r, p = DVPacket s q (dv r) /\ In (s, r) rs
                /\ dict_mem q (out_queues r) = true.

(** The cost to a neighbour is at most the cost of the link *)
Definition within_links (rs : dict address Router) (h : dict loc DV) : Prop :=
  forall a r, In (a, r) rs -> forall y c, dict_get y (costs r) = Some c ->
    exists e, dict_get y (dv_of r h) = Some e /\ cost_of e <= c.

(** A cost below [inf] is the cost of a walk *)
Definition walks_ok (cs : dict (address * address) Z) (rs : dict address Router)
  (h : dict loc DV) : Prop :=
  forall a r, In (a, r) rs -> forall y e, dict_get y (dv_of r h) = Some e ->
    cost_of e < inf -> walk cs a y (cost_of e).

(** The vector of [rx] has been through an update and is relaxed against the
    vector of its neighbour [rv]: for every destination [rv] knows, the cost
    of [rx] is at most the link cost plus the (clamped) cost of [rv] *)
Definition relaxed_against (rv rx : Router) (h : dict loc DV) : Prop :=
  bounded (dv_of rx h) /\ self_route_ok (addr rx) (dv_of rx h)
  /\ forall c, dict_get (addr rv) (costs rx) = Some c ->
       forall y e, dict_get y (dv_of rv h) = Some e ->
         exists e', dict_get y (dv_of rx h) = Some e'
                    /\ cost_of e' <= c + cost_of (clamp_entry (addr rv) y e).

(** A router whose counter is not 2 has its vector on the way to every
    neighbour, or the neighbour is relaxed against it *)
Definition advertised (rs : dict address Router) (st : Store) : Prop :=
  forall v rv x rx, In (v, rv) rs -> In (x, rx) rs ->
    dict_mem x (out_queues rv) = true -> converged rv <> 2 ->
    In (DVPacket v x (dv rv)) (queue_contents (queues st) x)
    \/ relaxed_against rv rx (heap st).

(** What every state of a network built from the link costs [cs] satisfies *)
Definition invariant (cs : dict (address * address) Z) (net : Network) : Prop :=
  wiring cs (routers net)
  /\ vectors_ok (routers net) (heap (store net))
  /\ packets_ok (routers net) (store net)
  /\ within_links (routers net) (heap (store net))
  /\ walks_ok cs (routers net) (heap (store net))
  /\ advertised (routers net) (store net).

(** The atomic moves of a network: one router sends, one router takes one
    packet from its queue, or the driver injects a message *)
Inductive move : Network -> Network -> Prop :=
| move_send pre a r post st :
    move (mkNetwork (pre ++ (a, r) :: post) st)
         (mkNetwork (pre ++ (a, fst (Router_send_dv r st)) :: post)
                    (snd (Router_send_dv r st)))
| move_packet pre a r post st p rest r' st' :
    queue_contents (queues st) (in_queue r) = p :: rest ->
    route_packet r p (set_queue (in_queue r) rest st) = Ok (r', st') ->
    move (mkNetwork (pre ++ (a, r) :: post) st) (mkNetwork (pre ++ (a, r') :: post) st')
| move_message src dst msg net net' :
    send_message src dst msg net = Ok net' -> move net net'.

(** The costs of the vector [d] of the router at [a] are non-negative, and
    those below [inf] are costs of walks from [a] *)
Definition reaches (cs : dict (address * address) Z) (a : address) (d : DV) : Prop :=
  nonneg d
  /\ forall y e, dict_get y d = Some e -> cost_of e < inf -> walk cs a y (cost_of e).

(** Every destination a router knows in [net] it knows in [net'], at a cost
    that is not higher *)
Definition no_worse (net net' : Network) : Prop :=
  forall x y e, dict_get y (vector_at x net) = Some e ->
    exists e', dict_get y (vector_at x net') = Some e' /\ cost_of e' <= cost_of e.

(** ** Sessions *)

(** The choices that inject no message and change no link cost *)
Definition is_quiet (c : choice) : bool :=
  match c with
  | SendMessage _ _ _ | ChangeCost _ _ _ => false
  | _ => true
  end.

(** The link costs of every router have distinct keys among the addresses
    [U] and lie within [0, C] *)
Definition costs_ok (U : list address) (C : Z) (rs : dict address Router) : Prop :=
  forall a r, In (a, r) rs ->
    NoDup (dict_keys (costs r))
    /\ forall k c, dict_get k (costs r) = Some c -> 0 <= c <= C /\ In k U.

(** What a session without messages and cost changes keeps *)
Definition session_ok (U : list address) (C : Z) (net : Network) : Prop :=
  network_ok U C net /\ costs_ok U C (routers net).

(** The routers and the queues of [net] are those of the addresses [U], and
    every router drains and fills queues of [U] only *)
Definition addresses_kept (U : list address) (net : Network) : Prop :=
  (forall a r, In (a, r) (routers net) ->
     In (in_queue r) U /\ forall k q, In (k, q) (out_queues r) -> In q U)
  /\ (forall a, dict_mem a (routers net) = existsb (String.eqb a) U)
  /\ (forall q, dict_mem q (queues (store net)) = existsb (String.eqb q) U).

(* ================================================================= *)
(** * Worked examples *)

(** ** The line A - B - C with costs 1 and 5 *)

Module Line.
Open Scope string_scope.

Definition edges : topology :=
  [("A", "B", 1); ("B", "A", 1); ("B", "C", 5); ("C", "B", 5)].

Definition net0 : Network := Network_init ["A"; "B"; "C"] edges.

(** Router A as constructed, and the store with B's vector at location 1 *)
Definition routerA : Router := mkRouter "A" [("B", 1)] "A" [("B", "B")] 0%nat 2.

Definition heap0 : dict loc DV :=
  [(0%nat, [("B", ("B", 1))]);
   (1%nat, [("A", ("A", 1)); ("C", ("C", 5))]);
   (2%nat, [("B", ("B", 5))])].

(** The heap once A has taken B's first advertisement *)
Definition heap1 : dict loc DV :=
  [(0%nat, [("B", ("B", 1)); ("A", ("A", 0)); ("C", ("C", 6))]);
   (1%nat, [("A", ("A", 1)); ("C", ("C", 5))]);
   (2%nat, [("B", ("B", 5))])].

(** A heap in which A knows C at cost 9, and the heap once A has taken B's
    advertisement from it *)
Definition heap2 : dict loc DV :=
  [(0%nat, [("B", ("B", 1)); ("C", ("C", 9))]);
   (1%nat, [("A", ("A", 1)); ("C", ("C", 5))])].

Definition heap3 : dict loc DV :=
  [(0%nat, [("B", ("B", 1)); ("C", ("B", 6)); ("A", ("A", 0))]);
   (1%nat, [("A", ("A", 1)); ("C", ("C", 5))])].

(** The network once [run_until_converged] has returned *)
Definition settled : Network :=
  match run_until_converged 3 net0 with
  | Ok (_, net) => net
  | _ => net0
  end.

(** The settled network with a message for an unknown address in A's queue,
    and the same one [step] later *)
Definition settled_msg : Network :=
  mkNetwork (routers settled) (queue_put "A" (HTTPPacket "A" "Z" "hi") (store settled)).

Definition settled_next : Network :=
  match step 1 settled_msg with
  | Ok net => net
  | _ => settled_msg
  end.

(** A store in which A's queue holds a message for an unknown address *)
Definition store_msg : Store :=
  mkStore heap0 [("A", [HTTPPacket "A" "Z" "hi"]); ("B", []); ("C", [])] [].
End Line.

(** ** The chain A - B - C - D with unit costs *)

Module Chain.
Open Scope string_scope.

Definition edges : topology :=
  [("A", "B", 1); ("B", "A", 1); ("B", "C", 1);
   ("C", "B", 1); ("C", "D", 1); ("D", "C", 1)].

Definition net0 : Network := Network_init ["B"; "A"; "C"; "D"] edges.
End Chain.

(** ** One link of cost 20 *)

Module Far.
Open Scope string_scope.

Definition edges : topology := [("A", "B", 20); ("B", "A", 20)].
Definition net0 : Network := Network_init ["A"; "B"] edges.
End Far.

(** ** The line A - B - C after one round, and a message A cannot forward *)

Module Round.
Open Scope string_scope.

(** The line after the first [step] *)
Definition first : Network :=
  match step 4 Line.net0 with
  | Ok net => net
  | _ => Line.net0
  end.

End Round.

(* ================================================================= *)
(** * Properties *)

Unset Implicit Arguments.

(* ================================================================= *)
(** ** Dict lemmas *)

Section DictFacts.
Context {K V : Type} `{EqKey K}.
Implicit Types (k : K) (v : V) (d : dict K V).

Lemma keqb_refl k : keqb k k = true.
Proof. destruct (keqb_spec k k); congruence. Qed.

Lemma keqb_neq k k' : k <> k' -> keqb k k' = false.
Proof. destruct (keqb_spec k k'); congruence. Qed.

Lemma dict_get_set_eq k v d : dict_get k (dict_set k v d) = Some v.
Proof.
  induction d as [|[k' v'] d IH]; simpl.
  - now rewrite keqb_refl.
  - destruct (keqb_spec k k') as [->|Hne]; simpl.
    + now rewrite keqb_refl.
    + now rewrite (keqb_neq _ _ Hne).
Qed.

Lemma dict_get_set_neq k k' v d :
  k <> k' -> dict_get k' (dict_set k v d) = dict_get k' d.
Proof.
  intros Hne. induction d as [|[k0 v0] d IH]; simpl.
  - rewrite keqb_neq; congruence.
  - destruct (keqb_spec k k0) as [->|Hk]; simpl.
    + rewrite keqb_neq; congruence.
    + now rewrite IH.
Qed.

Lemma dict_get_set k k' v d :
  dict_get k' (dict_set k v d) = if keqb k' k then Some v else dict_get k' d.
Proof.
  destruct (keqb_spec k' k) as [->|Hne].
  - apply dict_get_set_eq.
  - apply dict_get_set_neq; congruence.
Qed.

Lemma dict_mem_set k k' v d :
  dict_mem k' (dict_set k v d) = keqb k' k || dict_mem k' d.
Proof.
  unfold dict_mem. rewrite dict_get_set. now destruct (keqb k' k).
Qed.

Lemma dict_mem_cons k k' v d :
  dict_mem k ((k', v) :: d) = keqb k k' || dict_mem k d.
Proof. unfold dict_mem. simpl. now destruct (keqb k k'). Qed.

Lemma dict_mem_true k d : dict_mem k d = true <-> exists v, dict_get k d = Some v.
Proof.
  unfold dict_mem. destruct (dict_get k d); split; try eauto; try discriminate.
  intros [v Hv]; discriminate.
Qed.

Lemma dict_mem_false k d : dict_mem k d = false <-> dict_get k d = None.
Proof. unfold dict_mem. destruct (dict_get k d); split; congruence. Qed.

Lemma dict_get_In k v d : dict_get k d = Some v -> In (k, v) d.
Proof.
  induction d as [|[k' v'] d IH]; simpl; [discriminate|].
  destruct (keqb_spec k k') as [->|Hne].
  - intros [= ->]. now left.
  - intros Hg. right. auto.
Qed.

Lemma In_dict_mem k v d : In (k, v) d -> dict_mem k d = true.
Proof.
  unfold dict_mem.
  induction d as [|[k' v'] d IH]; simpl; [tauto|].
  intros [[= -> ->]|Hin].
  - now rewrite keqb_refl.
  - destruct (keqb k k'); auto.
Qed.

Lemma dict_get_not_In k d : ~ In k (dict_keys d) -> dict_get k d = None.
Proof.
  induction d as [|[k' v'] d IH]; simpl; [reflexivity|].
  intros Hn. rewrite keqb_neq by (intros ->; tauto). apply IH. tauto.
Qed.

Lemma dict_mem_keys k d : dict_mem k d = true <-> In k (dict_keys d).
Proof.
  split.
  - intros Hm. apply dict_mem_true in Hm as [v Hv].
    apply dict_get_In in Hv. unfold dict_keys.
    change k with (fst (k, v)). now apply in_map.
  - unfold dict_keys. intros Hin. apply in_map_iff in Hin as [[k' v] [<- Hin]].
    now apply In_dict_mem with v.
Qed.

Lemma NoDup_dict_get k v d :
  NoDup (dict_keys d) -> In (k, v) d -> dict_get k d = Some v.
Proof.
  induction d as [|[k' v'] d IH]; simpl; [tauto|].
  intros Hnd [[= -> ->]|Hin].
  - now rewrite keqb_refl.
  - inversion Hnd as [|? ? Hk' Hnd']; subst.
    rewrite keqb_neq; [auto|].
    intros ->. apply Hk'. unfold dict_keys.
    change k' with (fst (k', v)). now apply in_map.
Qed.

Lemma dict_keys_set k v d :
  dict_keys (dict_set k v d)
  = if dict_mem k d then dict_keys d else dict_keys d ++ [k].
Proof.
  unfold dict_mem.
  induction d as [|[k' v'] d IH]; simpl; [reflexivity|].
  destruct (keqb_spec k k') as [->|Hne]; simpl; [reflexivity|].
  rewrite IH. now destruct (dict_get k d).
Qed.

Lemma NoDup_dict_set k v d :
  NoDup (dict_keys d) -> NoDup (dict_keys (dict_set k v d)).
Proof.
  intros Hnd. rewrite dict_keys_set.
  destruct (dict_mem k d) eqn:Hm; [assumption|].
  apply NoDup_app; [assumption|repeat constructor; simpl; tauto|].
  intros x Hx [<-|[]].
  apply dict_mem_keys in Hx. congruence.
Qed.

Lemma NoDup_dict_of_list (kvs : list (K * V)) : NoDup (dict_keys (dict_of_list kvs)).
Proof.
  unfold dict_of_list.
  assert (Hgen : forall d0 : dict K V, NoDup (dict_keys d0) ->
    NoDup (dict_keys (fold_left (fun d kv => dict_set (fst kv) (snd kv) d) kvs d0))).
  { induction kvs as [|kv kvs IH]; simpl; intros d0 Hd0; [assumption|].
    apply IH. now apply NoDup_dict_set. }
  apply Hgen. constructor.
Qed.
End DictFacts.

Section DictEntries.
Context {K V : Type} `{EqKey K}.

Lemma In_dict_set (k k' : K) (v v' : V) (d : dict K V) :
  In (k', v') (dict_set k v d) -> (k', v') = (k, v) \/ In (k', v') d.
Proof.
  induction d as [|[k0 v0] d IH]; simpl.
  - intros [Heq|[]]. now left.
  - destruct (keqb_spec k k0) as [->|Hne]; simpl.
    + intros [Heq|Hin]; [now left|now right; right].
    + intros [Heq|Hin]; [now right; left|].
      destruct (IH Hin); [now left|now right; right].
Qed.

Lemma In_fold_dict_set (kvs : list (K * V)) : forall (d : dict K V) k v,
  In (k, v) (fold_left (fun d kv => dict_set (fst kv) (snd kv) d) kvs d) ->
  In (k, v) kvs \/ In (k, v) d.
Proof.
  induction kvs as [|[k0 v0] kvs IH]; cbn [fold_left fst snd]; intros d k v Hin;
    [now right|].
  destruct (IH _ _ _ Hin) as [Hk|Hd]; [now left; right|].
  destruct (In_dict_set _ _ _ _ _ Hd) as [Heq|Hd']; [left; left; congruence|now right].
Qed.

Lemma In_dict_of_list (kvs : list (K * V)) k v :
  In (k, v) (dict_of_list kvs) -> In (k, v) kvs.
Proof.
  intros Hin. destruct (In_fold_dict_set kvs [] k v Hin) as [?|[]]. assumption.
Qed.
End DictEntries.

Section DictOfList.
Context {K V : Type} `{EqKey K}.

Lemma dict_mem_fold_set (kvs : list (K * V)) : forall (d : dict K V) k,
  dict_mem k (fold_left (fun d kv => dict_set (fst kv) (snd kv) d) kvs d)
  = dict_mem k kvs || dict_mem k d.
Proof.
  induction kvs as [|[k0 v0] kvs IH]; cbn [fold_left fst snd]; intros d k;
    [reflexivity|].
  rewrite IH, dict_mem_set, dict_mem_cons.
  destruct (keqb k k0), (dict_mem k kvs); reflexivity.
Qed.

Lemma dict_mem_of_list (kvs : list (K * V)) k :
  dict_mem k (dict_of_list kvs) = dict_mem k kvs.
Proof.
  unfold dict_of_list. rewrite dict_mem_fold_set. apply orb_false_r.
Qed.

Lemma dict_set_new k (v : V) (d : dict K V) :
  dict_mem k d = false -> dict_set k v d = d ++ [(k, v)].
Proof.
  induction d as [|[k0 v0] d IH]; [reflexivity|].
  rewrite dict_mem_cons. intros Hm. apply orb_false_elim in Hm as [Hk Hd].
  cbn [dict_set app]. rewrite Hk. now rewrite IH.
Qed.

Lemma fold_set_NoDup (kvs : list (K * V)) : forall d : dict K V,
  NoDup (dict_keys (d ++ kvs)) ->
  fold_left (fun d kv => dict_set (fst kv) (snd kv) d) kvs d = d ++ kvs.
Proof.
  induction kvs as [|[k0 v0] kvs IH]; cbn [fold_left fst snd]; intros d Hnd.
  - now rewrite app_nil_r.
  - assert (Hk0 : dict_mem k0 d = false).
    { destruct (dict_mem k0 d) eqn:Hm; [|reflexivity].
      apply dict_mem_keys in Hm. unfold dict_keys in *. rewrite map_app in Hnd.
      apply NoDup_app_remove_r in Hnd as Hd.
      cbn [map fst] in Hnd. apply NoDup_remove_2 in Hnd.
      exfalso. apply Hnd. apply in_or_app. now left. }
    rewrite dict_set_new by assumption.
    rewrite IH; rewrite <- app_assoc; [reflexivity|exact Hnd].
Qed.

Lemma dict_of_list_NoDup (kvs : list (K * V)) :
  NoDup (dict_keys kvs) -> dict_of_list kvs = kvs.
Proof. intros Hnd. unfold dict_of_list. now rewrite fold_set_NoDup. Qed.
End DictOfList.

(* ================================================================= *)
(** ** The object store, loops and sums *)

Lemma deref_store_eq l d h : deref (heap_store l d h) l = d.
Proof. unfold deref, heap_store. now rewrite dict_get_set_eq. Qed.

Lemma deref_store_neq l l' d h : l <> l' -> deref (heap_store l d h) l' = deref h l'.
Proof. intros Hne. unfold deref, heap_store. now rewrite dict_get_set_neq. Qed.

Lemma deref_store l l' d h :
  deref (heap_store l d h) l' = if Nat.eqb l' l then d else deref h l'.
Proof.
  destruct (Nat.eqb_spec l' l) as [->|Hne].
  - apply deref_store_eq.
  - apply deref_store_neq. congruence.
Qed.

Lemma heap_fresh_gt (h : dict loc DV) l : dict_mem l h = true -> (l < heap_fresh h)%nat.
Proof.
  intros Hm. apply dict_mem_keys in Hm. unfold dict_keys in Hm.
  apply in_map_iff in Hm as [[l' d] [<- Hin]]. cbn [fst].
  unfold heap_fresh. induction h as [|[l0 d0] h IH]; [contradiction|].
  cbn [fold_right fst]. destruct Hin as [[= <- <-]|Hin]; [lia|].
  specialize (IH Hin). lia.
Qed.

Lemma heap_fresh_new (h : dict loc DV) : dict_mem (heap_fresh h) h = false.
Proof.
  destruct (dict_mem (heap_fresh h) h) eqn:Hm; [|reflexivity].
  apply heap_fresh_gt in Hm. lia.
Qed.

Lemma queue_contents_set q q' ps qs :
  queue_contents (dict_set q ps qs) q'
  = if String.eqb q' q then ps else queue_contents qs q'.
Proof. unfold queue_contents. rewrite dict_get_set. simpl. now destruct (String.eqb q' q). Qed.

Lemma queue_contents_put q q' p st :
  queue_contents (queues (queue_put q p st)) q'
  = if String.eqb q' q then queue_contents (queues st) q ++ [p]
    else queue_contents (queues st) q'.
Proof. unfold queue_put. cbn [queues]. apply queue_contents_set. Qed.

Lemma set_converged_twice c c' r : set_converged c (set_converged c' r) = set_converged c r.
Proof. reflexivity. Qed.

Lemma set_converged_same r : set_converged (converged r) r = r.
Proof. now destruct r. Qed.

Lemma for_each_app {A S : Type} (body : A -> S -> result S) xs ys s :
  for_each body (xs ++ ys) s = (s' <- for_each body xs s ;; for_each body ys s').
Proof.
  revert s. induction xs as [|x xs IH]; simpl; intros s; [reflexivity|].
  destruct (body x s); simpl; auto.
Qed.

Lemma list_sum_cons (x : nat) (l : list nat) : list_sum (x :: l) = (x + list_sum l)%nat.
Proof. reflexivity. Qed.

Lemma list_sum_le {A : Type} (f g : A -> nat) (l : list A) :
  (forall x, In x l -> f x <= g x)%nat ->
  (list_sum (map f l) <= list_sum (map g l))%nat.
Proof.
  induction l as [|x l IH]; simpl; intros Hle; [lia|].
  pose proof (Hle x (or_introl eq_refl)). specialize (IH (fun y Hy => Hle y (or_intror Hy))).
  lia.
Qed.

Lemma list_sum_lt {A : Type} (f g : A -> nat) (l : list A) (x : A) :
  (forall y, In y l -> f y <= g y)%nat -> In x l -> (f x < g x)%nat ->
  (list_sum (map f l) < list_sum (map g l))%nat.
Proof.
  induction l as [|y l IH]; simpl; intros Hle Hin Hlt; [contradiction|].
  pose proof (Hle y (or_introl eq_refl)) as Hy.
  pose proof (list_sum_le f g l (fun z Hz => Hle z (or_intror Hz))) as Hl.
  destruct Hin as [->|Hin]; [lia|].
  specialize (IH (fun z Hz => Hle z (or_intror Hz)) Hin Hlt). lia.
Qed.

Lemma with_src_mem l src h : dict_mem src (deref (with_src l src h) l) = true.
Proof.
  unfold with_src. destruct (dict_mem src (deref h l)) eqn:Hm; [assumption|].
  rewrite deref_store_eq, dict_mem_set. simpl. now rewrite String.eqb_refl.
Qed.

Lemma with_src_other l l' src h : l <> l' -> deref (with_src l src h) l' = deref h l'.
Proof.
  intros Hne. unfold with_src. destruct (dict_mem src (deref h l)); [reflexivity|].
  now apply deref_store_neq.
Qed.

Lemma with_src_own l src h :
  deref (with_src l src h) l
  = if dict_mem src (deref h l) then deref h l
    else dict_set src (src, inf) (deref h l).
Proof.
  unfold with_src. destruct (dict_mem src (deref h l)); [reflexivity|].
  apply deref_store_eq.
Qed.

(* ================================================================= *)
(** ** [update_dv] never misses a key *)

Lemma learn_loop_ok src (tbl d : DV) (c : Z) :
  dict_mem src d = true ->
  exists d' c',
    for_each (learn_body src) tbl (d, c) = Ok (d', c')
    /\ (forall k, dict_mem k d = true -> dict_mem k d' = true)
    /\ (forall item, In item tbl -> dict_mem (fst item) d' = true).
Proof.
  revert d c. induction tbl as [|[dst [nh cost]] tbl IH]; intros d c Hsrc.
  - exists d, c. simpl. repeat split; auto; intros ? [].
  - simpl. destruct (dict_mem dst d) eqn:Hdst; simpl.
    + destruct (IH d c Hsrc) as (d' & c' & Hrun & Hmono & Hall).
      exists d', c'. repeat split; auto.
      intros item [<-|Hin]; simpl; auto.
    + apply dict_mem_true in Hsrc as Hsrc'. destruct Hsrc' as [es Hes].
      rewrite Hes. simpl.
      destruct (IH (dict_set dst (nh, cost_of es + cost) d) 2) as (d' & c' & Hrun & Hmono & Hall).
      { rewrite dict_mem_set, Hsrc. apply orb_true_r. }
      exists d', c'. repeat split; auto.
      * intros k Hk. apply Hmono. rewrite dict_mem_set, Hk. apply orb_true_r.
      * intros item [<-|Hin]; simpl; auto.
        apply Hmono. rewrite dict_mem_set. simpl. now rewrite String.eqb_refl.
Qed.

Lemma bound_body_mem a (d : DV) item k :
  dict_mem k d = true -> dict_mem k (bound_body a d item) = true.
Proof.
  destruct item as [dst [nh cost]]. unfold bound_body. intros Hk.
  destruct (cost >? inf), (String.eqb dst a);
    repeat rewrite dict_mem_set; rewrite ?Hk, ?orb_true_r; auto.
Qed.

Lemma bound_fold_mem a items (d : DV) k :
  dict_mem k d = true -> dict_mem k (fold_left (bound_body a) items d) = true.
Proof.
  revert d. induction items as [|item items IH]; simpl; intros d Hk; auto.
  apply IH. now apply bound_body_mem.
Qed.

Lemma upper_bound_mem a (d : DV) k :
  dict_mem k d = true -> dict_mem k (upper_bound a d) = true.
Proof. apply bound_fold_mem. Qed.

Lemma relax_loop_ok a src (tbl d : DV) (c : Z) :
  dict_mem src d = true ->
  (forall item, In item tbl -> dict_mem (fst item) d = true) ->
  exists d' c', for_each (relax_body a src) tbl (d, c) = Ok (d', c').
Proof.
  revert d c. induction tbl as [|[dst [nh cost]] tbl IH]; intros d c Hsrc Hall.
  - exists d, c. reflexivity.
  - simpl. destruct (String.eqb dst a).
    + simpl. apply IH; auto. intros item Hin. apply Hall. now right.
    + apply dict_mem_true in Hsrc as Hsrc'. destruct Hsrc' as [es Hes].
      assert (Hdst : dict_mem dst d = true) by (apply (Hall (dst, (nh, cost))); now left).
      apply dict_mem_true in Hdst as [ed Hed].
      rewrite Hes, Hed.
      destruct (cost_of es + cost <? cost_of ed); simpl.
      * apply IH.
        -- rewrite dict_mem_set, Hsrc. apply orb_true_r.
        -- intros item Hin. rewrite dict_mem_set, (Hall item); [apply orb_true_r|now right].
      * apply IH; auto. intros item Hin. apply Hall. now right.
Qed.

Lemma update_dv_unfold self src tbl h :
  update_dv self src tbl h =
  (let l := dv self in
   let h1 := with_src l src h in
   '(d2, c2) <- for_each (learn_body src) (deref h1 tbl) (deref h1 l, converged self) ;;
   let h3 := heap_store l (upper_bound (addr self) d2) h1 in
   '(d4, c4) <- for_each (relax_body (addr self) src) (deref h3 tbl) (deref h3 l, c2) ;;
   Ok (set_converged c4 self, heap_store l (upper_bound (addr self) d4) h3)).
Proof. reflexivity. Qed.

Lemma update_dv_returns (self : Router) (src : address) (dv_table : loc)
  (h : dict loc DV) :
  exists self' h', update_dv self src dv_table h = Ok (self', h').
Proof.
  rewrite update_dv_unfold. cbv zeta.
  set (l := dv self). set (h1 := with_src l src h).
  destruct (learn_loop_ok src (deref h1 dv_table) (deref h1 l) (converged self)
              (with_src_mem l src h)) as (d2 & c2 & Hlearn & Hmono & Hall).
  rewrite Hlearn. simpl.
  set (h3 := heap_store l (upper_bound (addr self) d2) h1).
  assert (Hd3 : deref h3 l = upper_bound (addr self) d2) by apply deref_store_eq.
  destruct (relax_loop_ok (addr self) src (deref h3 dv_table) (deref h3 l) c2)
    as (d4 & c4 & Hrelax).
  - rewrite Hd3. apply upper_bound_mem, Hmono, with_src_mem.
  - intros item Hin. destruct (Nat.eq_dec l dv_table) as [<-|Hne].
    + destruct item as [k v]. now apply In_dict_mem with v.
    + rewrite Hd3. apply upper_bound_mem. apply Hall.
      unfold h3 in Hin. now rewrite deref_store_neq in Hin.
  - rewrite Hrelax. simpl. eauto.
Qed.

Lemma update_dv_inv self src tbl h self' h' :
  update_dv self src tbl h = Ok (self', h') ->
  exists d2 c2 d4 c4,
    let l := dv self in
    let h1 := with_src l src h in
    let h3 := heap_store l (upper_bound (addr self) d2) h1 in
    for_each (learn_body src) (deref h1 tbl) (deref h1 l, converged self) = Ok (d2, c2)
    /\ for_each (relax_body (addr self) src) (deref h3 tbl)
         (upper_bound (addr self) d2, c2) = Ok (d4, c4)
    /\ self' = set_converged c4 self
    /\ h' = heap_store l (upper_bound (addr self) d4) h3.
Proof.
  rewrite update_dv_unfold. cbv zeta. intros Hrun.
  destruct (for_each (learn_body src) _ _) as [[d2 c2]| |] eqn:Hlearn;
    simpl in Hrun; try discriminate.
  rewrite deref_store_eq in Hrun.
  destruct (for_each (relax_body (addr self) src) _ _) as [[d4 c4]| |] eqn:Hrelax;
    simpl in Hrun; try discriminate.
  injection Hrun as <- <-. exists d2, c2, d4, c4. auto.
Qed.

Lemma update_dv_frame self src tbl h self' h' :
  update_dv self src tbl h = Ok (self', h') ->
  exists c, self' = set_converged c self
            /\ forall l', l' <> dv self -> deref h' l' = deref h l'.
Proof.
  intros Hrun. apply update_dv_inv in Hrun as (d2 & c2 & d4 & c4 & Hl & Hr & -> & ->).
  exists c4. split; [reflexivity|]. intros l' Hne. simpl.
  rewrite !deref_store_neq by congruence. apply with_src_other. congruence.
Qed.

(** C10: for every neighbour address and every advertised table,
    [update_dv] returns normally.  [src] has an entry before the first lookup
    of [self.dv[src]], the learning loop returns, every destination the
    relaxation loop reads has an entry by then, and the relaxation loop
    returns: no lookup raises [KeyError]. *)
Theorem update_dv_total (self : Router) (src : address) (dv_table : loc)
  (h : dict loc DV) :
  let l := dv self in
  let h1 := with_src l src h in
  exists d2 c2 d4 c4,
    dict_mem src (deref h1 l) = true
    /\ for_each (learn_body src) (deref h1 dv_table) (deref h1 l, converged self)
       = Ok (d2, c2)
    /\ (let h3 := heap_store l (upper_bound (addr self) d2) h1 in
        dict_mem src (deref h3 l) = true
        /\ (forall dst, dict_mem dst (deref h3 dv_table) = true ->
                        dict_mem dst (deref h3 l) = true)
        /\ for_each (relax_body (addr self) src) (deref h3 dv_table) (deref h3 l, c2)
           = Ok (d4, c4)
        /\ update_dv self src dv_table h
           = Ok (set_converged c4 self, heap_store l (upper_bound (addr self) d4) h3)).
Proof.
  cbv zeta. set (l := dv self). set (h1 := with_src l src h).
  destruct (learn_loop_ok src (deref h1 dv_table) (deref h1 l) (converged self)
              (with_src_mem l src h)) as (d2 & c2 & Hlearn & Hmono & Hall).
  set (h3 := heap_store l (upper_bound (addr self) d2) h1).
  assert (Hd3 : deref h3 l = upper_bound (addr self) d2) by apply deref_store_eq.
  assert (Hsrc3 : dict_mem src (deref h3 l) = true).
  { rewrite Hd3. apply upper_bound_mem, Hmono, with_src_mem. }
  assert (Hdst3 : forall dst, dict_mem dst (deref h3 dv_table) = true ->
                              dict_mem dst (deref h3 l) = true).
  { intros dst Hdst. destruct (Nat.eq_dec l dv_table) as [<-|Hne]; [assumption|].
    rewrite Hd3. apply upper_bound_mem.
    unfold h3 in Hdst. rewrite deref_store_neq in Hdst by assumption.
    apply dict_mem_true in Hdst as [e He].
    apply (Hall (dst, e)). now apply dict_get_In. }
  destruct (relax_loop_ok (addr self) src (deref h3 dv_table) (deref h3 l) c2 Hsrc3)
    as (d4 & c4 & Hrelax).
  { intros [k e] Hin. apply Hdst3. now apply In_dict_mem with e. }
  exists d2, c2, d4, c4. split; [apply with_src_mem|]. split; [exact Hlearn|].
  split; [exact Hsrc3|]. split; [exact Hdst3|]. split; [exact Hrelax|].
  rewrite update_dv_unfold. cbv zeta. fold l h1. rewrite Hlearn. cbn [bind].
  fold h3. rewrite Hrelax. reflexivity.
Qed.

(* ================================================================= *)
(** ** The clamp pass *)

Lemma bound_body_get a (d : DV) dst nh cost k :
  dict_get k (bound_body a d (dst, (nh, cost)))
  = if String.eqb k dst
    then if String.eqb dst a then Some (dst, 0)
         else if cost >? inf then Some (nh, inf) else dict_get k d
    else dict_get k d.
Proof.
  unfold bound_body.
  destruct (String.eqb dst a), (cost >? inf);
    repeat rewrite dict_get_set; simpl; destruct (String.eqb k dst); reflexivity.
Qed.

(** After the pass every entry that can be looked up is the clamped one:
    an entry above [inf] must still be among the items to visit. *)
Lemma bound_fold_le a items (d : DV) :
  (forall k e, dict_get k d = Some e -> cost_of e <= inf \/ In (k, e) items) ->
  forall k e, dict_get k (fold_left (bound_body a) items d) = Some e ->
              cost_of e <= inf.
Proof.
  revert d. induction items as [|[dst [nh cost]] items IH]; cbn [fold_left]; intros d Hinv.
  - intros k e Hk. destruct (Hinv k e Hk) as [?|[]]; assumption.
  - apply IH. intros k e. rewrite bound_body_get.
    destruct (String.eqb_spec k dst) as [->|Hkd].
    + destruct (String.eqb dst a).
      { intros [= <-]. left. unfold cost_of, inf. simpl. lia. }
      destruct (Z.gtb_spec cost inf) as [Hgt|Hle].
      { intros [= <-]. left. unfold cost_of. simpl. lia. }
      intros Hk. destruct (Hinv _ _ Hk) as [Hc|[Heq|Hin]]; auto.
      injection Heq as <-. left. unfold cost_of. simpl. lia.
    + intros Hk. destruct (Hinv _ _ Hk) as [Hc|[Heq|Hin]]; auto.
      congruence.
Qed.

Lemma upper_bound_le a (d : DV) k e :
  dict_get k (upper_bound a d) = Some e -> cost_of e <= inf.
Proof.
  apply bound_fold_le. intros k' e' Hk. right. now apply dict_get_In.
Qed.

Lemma bound_fold_self a items (d : DV) :
  (forall e, dict_get a d = Some e -> e = (a, 0) \/ exists e', In (a, e') items) ->
  forall e, dict_get a (fold_left (bound_body a) items d) = Some e -> e = (a, 0).
Proof.
  revert d. induction items as [|[dst [nh cost]] items IH]; cbn [fold_left]; intros d Hinv.
  - intros e He. destruct (Hinv e He) as [?|[? []]]; assumption.
  - apply IH. intros e. rewrite bound_body_get.
    destruct (String.eqb_spec a dst) as [<-|Had].
    + rewrite String.eqb_refl. intros [= <-]. now left.
    + intros He. destruct (Hinv e He) as [?|[e' [Heq|Hin]]]; eauto.
      congruence.
Qed.

Lemma upper_bound_self a (d : DV) e :
  dict_get a (upper_bound a d) = Some e -> e = (a, 0).
Proof.
  apply bound_fold_self. intros e' He'. right. exists e'. now apply dict_get_In.
Qed.

Lemma bound_fold_mem_eq a items (d : DV) k :
  (forall item, In item items -> dict_mem (fst item) d = true) ->
  dict_mem k (fold_left (bound_body a) items d) = dict_mem k d.
Proof.
  revert d. induction items as [|[dst [nh cost]] items IH]; cbn [fold_left];
    intros d Hall; [reflexivity|].
  assert (Hstep : forall k', dict_mem k' (bound_body a d (dst, (nh, cost)))
                             = dict_mem k' d).
  { intros k'. unfold dict_mem at 1. rewrite bound_body_get.
    destruct (String.eqb_spec k' dst) as [->|Hne]; [|reflexivity].
    pose proof (Hall (dst, (nh, cost)) (or_introl eq_refl)) as Hdst.
    cbn [fst] in Hdst. rewrite Hdst.
    destruct (String.eqb dst a); [reflexivity|].
    destruct (cost >? inf); [reflexivity|].
    exact Hdst. }
  rewrite IH, Hstep; [reflexivity|].
  intros item Hin. rewrite Hstep. apply Hall. now right.
Qed.

Lemma upper_bound_mem_eq a (d : DV) k :
  dict_mem k (upper_bound a d) = dict_mem k d.
Proof.
  apply bound_fold_mem_eq. intros [k' v] Hin. now apply In_dict_mem with v.
Qed.

Lemma bound_fold_keys a items (d : DV) :
  (forall item, In item items -> dict_mem (fst item) d = true) ->
  dict_keys (fold_left (bound_body a) items d) = dict_keys d.
Proof.
  revert d. induction items as [|[dst [nh cost]] items IH]; cbn [fold_left];
    intros d Hall; [reflexivity|].
  pose proof (Hall (dst, (nh, cost)) (or_introl eq_refl)) as Hdst. cbn [fst] in Hdst.
  assert (Hstep : dict_keys (bound_body a d (dst, (nh, cost))) = dict_keys d).
  { unfold bound_body.
    destruct (cost >? inf), (String.eqb dst a);
      repeat (rewrite dict_keys_set, ?dict_mem_set, ?Hdst, ?orb_true_r); reflexivity. }
  rewrite IH, Hstep; [reflexivity|].
  intros item Hin. apply dict_mem_keys. rewrite Hstep. apply dict_mem_keys.
  apply Hall. now right.
Qed.

Lemma upper_bound_keys a (d : DV) : dict_keys (upper_bound a d) = dict_keys d.
Proof.
  apply bound_fold_keys. intros [k v] Hin. now apply In_dict_mem with v.
Qed.

Lemma upper_bound_NoDup a (d : DV) :
  NoDup (dict_keys d) -> NoDup (dict_keys (upper_bound a d)).
Proof. now rewrite upper_bound_keys. Qed.

Lemma bound_fold_get a (items d : DV) :
  NoDup (dict_keys items) ->
  (forall k e, In (k, e) items -> dict_get k d = Some e) ->
  forall k, dict_get k (fold_left (bound_body a) items d)
            = if dict_mem k items then option_map (clamp_entry a k) (dict_get k d)
              else dict_get k d.
Proof.
  revert d. induction items as [|[dst [nh cost]] items IH]; cbn [fold_left];
    intros d Hnd Hsnap k; [reflexivity|].
  inversion Hnd as [|? ? Hdst Hnd']; subst.
  assert (Hd : dict_get dst d = Some (nh, cost)) by (apply Hsnap; now left).
  assert (Hfresh : dict_mem dst items = false).
  { destruct (dict_mem dst items) eqn:Hm; [|reflexivity].
    apply dict_mem_keys in Hm. contradiction. }
  rewrite IH; [| assumption |].
  - rewrite dict_mem_cons. cbn [keqb EqKey_string]. rewrite bound_body_get.
    destruct (String.eqb_spec k dst) as [->|Hne]; [|reflexivity].
    rewrite Hfresh, Hd. simpl. unfold clamp_entry, cost_of, next_hop_of. simpl.
    destruct (String.eqb dst a); [reflexivity|].
    now destruct (cost >? inf).
  - intros k' e' Hin. rewrite bound_body_get.
    destruct (String.eqb_spec k' dst) as [->|Hne]; [|apply Hsnap; now right].
    exfalso. apply Hdst. unfold dict_keys.
    change dst with (fst (dst, e')). now apply in_map.
Qed.

Lemma upper_bound_get a (d : DV) k :
  NoDup (dict_keys d) ->
  dict_get k (upper_bound a d) = option_map (clamp_entry a k) (dict_get k d).
Proof.
  intros Hnd. unfold upper_bound. rewrite bound_fold_get; auto.
  - unfold dict_mem. now destruct (dict_get k d).
  - intros k' e'. now apply NoDup_dict_get.
Qed.

Lemma bound_fold_nonneg a items (d : DV) :
  nonneg d -> nonneg (fold_left (bound_body a) items d).
Proof.
  revert d. induction items as [|[dst [nh cost]] items IH]; cbn [fold_left];
    intros d Hd; [assumption|].
  apply IH. intros k e. rewrite bound_body_get.
  destruct (String.eqb k dst); [|apply Hd].
  destruct (String.eqb dst a); [intros [= <-]; unfold cost_of; simpl; lia|].
  destruct (cost >? inf); [intros [= <-]; unfold cost_of, inf; simpl; lia|].
  apply Hd.
Qed.

Lemma upper_bound_nonneg a (d : DV) : nonneg d -> nonneg (upper_bound a d).
Proof. apply bound_fold_nonneg. Qed.

(* ================================================================= *)
(** ** Which keys [update_dv] adds, and what it leaves under them *)

Lemma learn_loop_mem src (tbl d : DV) (c : Z) d' c' :
  for_each (learn_body src) tbl (d, c) = Ok (d', c') ->
  forall k, dict_mem k d' = dict_mem k d || dict_mem k tbl.
Proof.
  revert d c. induction tbl as [|[dst [nh cost]] tbl IH]; intros d c Hrun k.
  - injection Hrun as <- <-. unfold dict_mem at 3. simpl. now rewrite orb_false_r.
  - simpl in Hrun.
    rewrite dict_mem_cons. cbn [keqb EqKey_string].
    destruct (dict_mem dst d) eqn:Hdst; simpl in Hrun.
    + rewrite (IH _ _ Hrun).
      destruct (String.eqb_spec k dst) as [->|Hne]; [|reflexivity].
      now rewrite Hdst.
    + destruct (dict_get src d) as [es|]; simpl in Hrun; [|discriminate].
      rewrite (IH _ _ Hrun), dict_mem_set. simpl.
      destruct (String.eqb k dst), (dict_mem k d); reflexivity.
Qed.

Lemma relax_loop_mem a src (tbl d : DV) (c : Z) d' c' :
  for_each (relax_body a src) tbl (d, c) = Ok (d', c') ->
  forall k, dict_mem k d' = dict_mem k d.
Proof.
  revert d c. induction tbl as [|[dst [nh cost]] tbl IH]; intros d c Hrun k.
  - now injection Hrun as <- <-.
  - simpl in Hrun. destruct (String.eqb dst a); simpl in Hrun; [eauto|].
    destruct (dict_get src d) as [es|]; [|discriminate].
    destruct (dict_get dst d) as [ed|] eqn:Hed; [|discriminate].
    destruct (cost_of es + cost <? cost_of ed); simpl in Hrun; [|eauto].
    rewrite (IH _ _ Hrun), dict_mem_set. simpl.
    destruct (String.eqb_spec k dst) as [->|Hne]; [|reflexivity].
    unfold dict_mem. now rewrite Hed.
Qed.

Lemma update_dv_mem self src tbl h self' h' :
  update_dv self src tbl h = Ok (self', h') ->
  forall k, dict_mem k (dv_of self' h')
            = dict_mem k (dv_of self h) || dict_mem k (deref h tbl) || String.eqb k src.
Proof.
  intros Hrun k. apply update_dv_inv in Hrun as (d2 & c2 & d4 & c4 & Hl & Hr & -> & ->).
  unfold dv_of. simpl. rewrite deref_store_eq, upper_bound_mem_eq.
  rewrite (relax_loop_mem _ _ _ _ _ _ _ Hr), upper_bound_mem_eq.
  rewrite (learn_loop_mem _ _ _ _ _ _ Hl).
  assert (Hsrc : forall l', dict_mem k (deref (with_src (dv self) src h) l')
                 = dict_mem k (deref h l') || (Nat.eqb l' (dv self) && String.eqb k src)).
  { intros l'. unfold with_src.
    destruct (dict_mem src (deref h (dv self))) eqn:Hm.
    - destruct (Nat.eqb_spec l' (dv self)) as [->|Hne]; simpl;
        [|now rewrite orb_false_r].
      destruct (String.eqb_spec k src) as [->|Hks]; [|now rewrite orb_false_r].
      now rewrite Hm.
    - destruct (Nat.eqb_spec l' (dv self)) as [->|Hne]; simpl.
      + rewrite deref_store_eq, dict_mem_set. simpl. apply orb_comm.
      + rewrite deref_store_neq by congruence. now rewrite orb_false_r. }
  rewrite !Hsrc, Nat.eqb_refl. simpl.
  destruct (dict_mem k (deref h (dv self))), (dict_mem k (deref h tbl)),
    (String.eqb k src), (Nat.eqb tbl (dv self)); reflexivity.
Qed.

Lemma update_dv_own_entry (self : Router) (src : address) (dv_table : loc)
  (h : dict loc DV) (self' : Router) (h' : dict loc DV) :
  update_dv self src dv_table h = Ok (self', h') ->
  addr self' = addr self
  /\ self_route_ok (addr self') (dv_of self' h')
  /\ dict_mem (addr self') (dv_of self' h')
     = dict_mem (addr self) (dv_of self h)
       || dict_mem (addr self) (deref h dv_table)
       || String.eqb (addr self) src.
Proof.
  intros Hrun. pose proof (update_dv_mem _ _ _ _ _ _ Hrun (addr self)) as Hmem.
  apply update_dv_inv in Hrun as (d2 & c2 & d4 & c4 & Hl & Hr & -> & ->).
  split; [reflexivity|]. split; [|exact Hmem].
  unfold dv_of. simpl. rewrite deref_store_eq. intros e. apply upper_bound_self.
Qed.

Lemma update_dv_capped (self : Router) (src : address) (dv_table : loc)
  (h : dict loc DV) (self' : Router) (h' : dict loc DV) :
  update_dv self src dv_table h = Ok (self', h') ->
  bounded (dv_of self' h').
Proof.
  intros Hrun.
  apply update_dv_inv in Hrun as (d2 & c2 & d4 & c4 & Hl & Hr & -> & ->).
  unfold dv_of. simpl. rewrite deref_store_eq. intros k e. apply upper_bound_le.
Qed.

(* ================================================================= *)
(** ** The order on distance vectors *)

Lemma refines_refl a d : refines a d d.
Proof.
  split; [auto|]. intros k e e' He He'. rewrite He in He'. injection He' as <-.
  split; intros; [lia|now left].
Qed.

Lemma refines_trans a d1 d2 d3 : refines a d1 d2 -> refines a d2 d3 -> refines a d1 d3.
Proof.
  intros [Hk12 Hc12] [Hk23 Hc23]. split; [auto|].
  intros k e1 e3 H1 H3.
  assert (Hm : dict_mem k d2 = true).
  { apply Hk12. apply dict_mem_true. eauto. }
  apply dict_mem_true in Hm as [e2 H2].
  destruct (Hc12 _ _ _ H1 H2) as [Hn12 Hs12], (Hc23 _ _ _ H2 H3) as [Hn23 Hs23].
  split.
  - intros Hne. specialize (Hn12 Hne). specialize (Hn23 Hne). lia.
  - intros Heq. specialize (Hs12 Heq). specialize (Hs23 Heq). lia.
Qed.

Lemma improves_irrefl a d : ~ improves a d d.
Proof.
  intros [k [[Hf Ht]|[Hne (e & e' & He & He' & Hlt)]]]; [congruence|].
  rewrite He in He'. injection He' as <-. lia.
Qed.

Lemma improves_widen a d1 d2 d3 d4 :
  refines a d1 d2 -> improves a d2 d3 -> refines a d3 d4 -> refines a d2 d3 ->
  improves a d1 d4.
Proof.
  intros [Hk12 Hc12] [k Himp] [Hk34 Hc34] [Hk23 Hc23].
  exists k. destruct Himp as [[Hf Ht]|[Hne (e2 & e3 & H2 & H3 & Hlt)]].
  - left. split; [|auto].
    destruct (dict_mem k d1) eqn:H1; [|reflexivity].
    apply Hk12 in H1. congruence.
  - assert (Hm4 : dict_mem k d4 = true).
    { apply Hk34. apply dict_mem_true. eauto. }
    destruct (dict_get k d1) as [e1|] eqn:H1.
    + right. split; [assumption|].
      apply dict_mem_true in Hm4 as [e4 H4].
      exists e1, e4. repeat split; auto.
      destruct (Hc12 _ _ _ H1 H2) as [Hn12 _], (Hc34 _ _ _ H3 H4) as [Hn34 _].
      specialize (Hn12 Hne). specialize (Hn34 Hne). lia.
    + left. split; [|assumption]. now apply dict_mem_false.
Qed.

Lemma refines_set_new a (d : DV) k e :
  dict_mem k d = false -> refines a d (dict_set k e d) /\ improves a d (dict_set k e d).
Proof.
  intros Hk. split; [split|].
  - intros k' Hk'. rewrite dict_mem_set, Hk'. apply orb_true_r.
  - intros k' e1 e2 H1. rewrite dict_get_set. cbn [keqb EqKey_string].
    destruct (String.eqb_spec k' k) as [->|Hne].
    + apply dict_mem_false in Hk. congruence.
    + intros H2. rewrite H1 in H2. injection H2 as <-. split; intros; [lia|now left].
  - exists k. left. split; [assumption|].
    rewrite dict_mem_set. cbn [keqb EqKey_string]. now rewrite String.eqb_refl.
Qed.

Lemma refines_set_lower a (d : DV) k e e0 :
  k <> a -> dict_get k d = Some e0 -> cost_of e < cost_of e0 ->
  refines a d (dict_set k e d) /\ improves a d (dict_set k e d).
Proof.
  intros Hka H0 Hlt. split; [split|].
  - intros k' Hk'. rewrite dict_mem_set, Hk'. apply orb_true_r.
  - intros k' e1 e2 H1. rewrite dict_get_set. cbn [keqb EqKey_string].
    destruct (String.eqb_spec k' k) as [->|Hne].
    + intros [= <-]. rewrite H0 in H1. injection H1 as <-.
      split; intros; [lia|contradiction].
    + intros H2. rewrite H1 in H2. injection H2 as <-. split; intros; [lia|now left].
  - exists k. right. split; [assumption|]. exists e0, e.
    now rewrite dict_get_set_eq.
Qed.

(** *** The passes of [update_dv] against the order *)

Lemma learn_loop_refines a src (tbl d : DV) (c : Z) d' c' :
  for_each (learn_body src) tbl (d, c) = Ok (d', c') ->
  refines a d d' /\ (c' = c \/ (c' = 2 /\ improves a d d')).
Proof.
  revert d c. induction tbl as [|[dst [nh cost]] tbl IH]; intros d c Hrun.
  - injection Hrun as <- <-. split; [apply refines_refl|now left].
  - simpl in Hrun. destruct (dict_mem dst d) eqn:Hdst; simpl in Hrun; [eauto|].
    destruct (dict_get src d) as [es|]; simpl in Hrun; [|discriminate].
    destruct (IH _ _ Hrun) as [Href Hc].
    destruct (refines_set_new a d dst (nh, cost_of es + cost) Hdst) as [Href1 Himp1].
    split; [eapply refines_trans; eauto|]. right. split; [lia|].
    exact (improves_widen a d d _ d' (refines_refl a d) Himp1 Href Href1).
Qed.

Lemma relax_loop_refines a src (tbl d : DV) (c : Z) d' c' :
  for_each (relax_body a src) tbl (d, c) = Ok (d', c') ->
  refines a d d' /\ (c' = c \/ (c' = 2 /\ improves a d d')).
Proof.
  revert d c. induction tbl as [|[dst [nh cost]] tbl IH]; intros d c Hrun.
  - injection Hrun as <- <-. split; [apply refines_refl|now left].
  - simpl in Hrun. destruct (String.eqb_spec dst a) as [->|Hne]; simpl in Hrun; [eauto|].
    destruct (dict_get src d) as [es|]; [|discriminate].
    destruct (dict_get dst d) as [ed|] eqn:Hed; [|discriminate].
    destruct (Z.ltb_spec (cost_of es + cost) (cost_of ed)) as [Hlt|Hge];
      simpl in Hrun; [|eauto].
    destruct (IH _ _ Hrun) as [Href Hc].
    destruct (refines_set_lower a d dst (src, cost_of es + cost) ed Hne Hed Hlt)
      as [Href1 Himp1].
    split; [eapply refines_trans; eauto|]. right. split; [lia|].
    exact (improves_widen a d d _ d' (refines_refl a d) Himp1 Href Href1).
Qed.

Lemma upper_bound_refines a (d : DV) :
  NoDup (dict_keys d) -> refines a d (upper_bound a d).
Proof.
  intros Hnd. split.
  - intros k. now rewrite upper_bound_mem_eq.
  - intros k e e' He. rewrite upper_bound_get, He by assumption. intros [= <-].
    unfold clamp_entry. destruct (String.eqb_spec k a) as [->|Hne].
    + split; [congruence|]. intros _. now right.
    + split; [|congruence]. intros _.
      destruct (Z.gtb_spec (cost_of e) inf); unfold cost_of in *; simpl; lia.
Qed.

Lemma with_src_refines a l src h : refines a (deref h l) (deref (with_src l src h) l).
Proof.
  rewrite with_src_own. destruct (dict_mem src (deref h l)) eqn:Hm.
  - apply refines_refl.
  - now apply refines_set_new.
Qed.

Lemma learn_loop_NoDup src (tbl d : DV) (c : Z) d' c' :
  for_each (learn_body src) tbl (d, c) = Ok (d', c') ->
  NoDup (dict_keys d) -> NoDup (dict_keys d').
Proof.
  revert d c. induction tbl as [|[dst [nh cost]] tbl IH]; intros d c Hrun Hnd.
  - now injection Hrun as <- <-.
  - simpl in Hrun. destruct (dict_mem dst d); simpl in Hrun; [eauto|].
    destruct (dict_get src d) as [es|]; simpl in Hrun; [|discriminate].
    eapply IH; eauto. now apply NoDup_dict_set.
Qed.

Lemma relax_loop_NoDup a src (tbl d : DV) (c : Z) d' c' :
  for_each (relax_body a src) tbl (d, c) = Ok (d', c') ->
  NoDup (dict_keys d) -> NoDup (dict_keys d').
Proof.
  revert d c. induction tbl as [|[dst [nh cost]] tbl IH]; intros d c Hrun Hnd.
  - now injection Hrun as <- <-.
  - simpl in Hrun. destruct (String.eqb dst a); simpl in Hrun; [eauto|].
    destruct (dict_get src d) as [es|]; [|discriminate].
    destruct (dict_get dst d) as [ed|]; [|discriminate].
    destruct (cost_of es + cost <? cost_of ed); simpl in Hrun; [|eauto].
    eapply IH; eauto. now apply NoDup_dict_set.
Qed.

Lemma with_src_NoDup l src h :
  NoDup (dict_keys (deref h l)) -> NoDup (dict_keys (deref (with_src l src h) l)).
Proof.
  rewrite with_src_own. destruct (dict_mem src (deref h l)); [auto|].
  apply NoDup_dict_set.
Qed.

Lemma update_dv_NoDup self src tbl h self' h' :
  update_dv self src tbl h = Ok (self', h') ->
  NoDup (dict_keys (dv_of self h)) -> NoDup (dict_keys (dv_of self' h')).
Proof.
  intros Hrun Hnd.
  apply update_dv_inv in Hrun as (d2 & c2 & d4 & c4 & Hl & Hr & -> & ->).
  unfold dv_of. simpl. rewrite deref_store_eq.
  apply upper_bound_NoDup. eapply relax_loop_NoDup; [exact Hr|].
  apply upper_bound_NoDup. eapply learn_loop_NoDup; [exact Hl|].
  now apply with_src_NoDup.
Qed.

Lemma nonneg_set (d : DV) k e : nonneg d -> 0 <= cost_of e -> nonneg (dict_set k e d).
Proof.
  intros Hd He k' e'. rewrite dict_get_set. destruct (keqb k' k).
  - now intros [= <-].
  - apply Hd.
Qed.

Lemma nonneg_In (d : DV) : nonneg d -> NoDup (dict_keys d) ->
  forall k e, In (k, e) d -> 0 <= cost_of e.
Proof. intros Hd Hnd k e Hin. apply (Hd k). now apply NoDup_dict_get. Qed.

Lemma nonneg_forallb (d : DV) :
  forallb (fun kv => 0 <=? cost_of (snd kv)) d = true -> nonneg d.
Proof.
  intros Hall k e Hk. apply dict_get_In in Hk.
  rewrite forallb_forall in Hall. specialize (Hall _ Hk). simpl in Hall. lia.
Qed.

Lemma NoDup_distinct (l : list address) : distinct l = true -> NoDup l.
Proof.
  induction l as [|x l IH]; cbn [distinct]; intros Hl; constructor.
  - apply andb_true_iff in Hl as [Hx _]. intros Hin.
    apply negb_true_iff in Hx.
    assert (Hex : existsb (String.eqb x) l = true).
    { apply existsb_exists. exists x. split; [assumption|apply String.eqb_refl]. }
    congruence.
  - apply IH. now apply andb_true_iff in Hl as [_ Hl].
Qed.

Lemma learn_loop_nonneg src (tbl d : DV) (c : Z) d' c' :
  for_each (learn_body src) tbl (d, c) = Ok (d', c') ->
  (forall k e, In (k, e) tbl -> 0 <= cost_of e) -> nonneg d -> nonneg d'.
Proof.
  revert d c. induction tbl as [|[dst [nh cost]] tbl IH]; intros d c Hrun Htbl Hd.
  - now injection Hrun as <- <-.
  - assert (Htbl' : forall k e, In (k, e) tbl -> 0 <= cost_of e)
      by (intros; eapply Htbl; right; eauto).
    simpl in Hrun. destruct (dict_mem dst d); simpl in Hrun; [eauto|].
    destruct (dict_get src d) as [es|] eqn:Hes; simpl in Hrun; [|discriminate].
    eapply IH; eauto. apply nonneg_set; [assumption|].
    specialize (Hd _ _ Hes). specialize (Htbl dst (nh, cost) (or_introl eq_refl)).
    unfold cost_of in *. simpl in *. lia.
Qed.

Lemma relax_loop_nonneg a src (tbl d : DV) (c : Z) d' c' :
  for_each (relax_body a src) tbl (d, c) = Ok (d', c') ->
  (forall k e, In (k, e) tbl -> 0 <= cost_of e) -> nonneg d -> nonneg d'.
Proof.
  revert d c. induction tbl as [|[dst [nh cost]] tbl IH]; intros d c Hrun Htbl Hd.
  - now injection Hrun as <- <-.
  - assert (Htbl' : forall k e, In (k, e) tbl -> 0 <= cost_of e)
      by (intros; eapply Htbl; right; eauto).
    simpl in Hrun. destruct (String.eqb dst a); simpl in Hrun; [eauto|].
    destruct (dict_get src d) as [es|] eqn:Hes; [|discriminate].
    destruct (dict_get dst d) as [ed|]; [|discriminate].
    destruct (cost_of es + cost <? cost_of ed); simpl in Hrun; [|eauto].
    eapply IH; eauto. apply nonneg_set; [assumption|].
    specialize (Hd _ _ Hes). specialize (Htbl dst (nh, cost) (or_introl eq_refl)).
    unfold cost_of in *. simpl in *. lia.
Qed.

Lemma with_src_nonneg l src h :
  nonneg (deref h l) -> nonneg (deref (with_src l src h) l).
Proof.
  rewrite with_src_own. destruct (dict_mem src (deref h l)); [auto|].
  intros Hd. apply nonneg_set; [assumption|]. unfold cost_of, inf. simpl. lia.
Qed.

Lemma update_dv_refines self src tbl h self' h' :
  update_dv self src tbl h = Ok (self', h') ->
  NoDup (dict_keys (dv_of self h)) ->
  refines (addr self) (dv_of self h) (dv_of self' h')
  /\ (converged self' = converged self
      \/ (converged self' = 2 /\ improves (addr self) (dv_of self h) (dv_of self' h'))).
Proof.
  intros Hrun Hnd.
  apply update_dv_inv in Hrun as (d2 & c2 & d4 & c4 & Hl & Hr & -> & ->).
  unfold dv_of. cbn [dv converged set_converged]. rewrite deref_store_eq.
  set (a := addr self) in *. set (l := dv self) in *.
  set (d0 := deref h l) in *. set (d1 := deref (with_src l src h) l) in *.
  set (d3 := upper_bound a d2) in *. set (d5 := upper_bound a d4).
  assert (H01 : refines a d0 d1) by apply with_src_refines.
  assert (Hnd1 : NoDup (dict_keys d1)) by now apply with_src_NoDup.
  destruct (learn_loop_refines a _ _ _ _ _ _ Hl) as [H12 Hc2].
  assert (Hnd2 : NoDup (dict_keys d2)) by (eapply learn_loop_NoDup; eauto).
  assert (H23 : refines a d2 d3) by now apply upper_bound_refines.
  destruct (relax_loop_refines _ _ _ _ _ _ _ Hr) as [H34 Hc4].
  assert (Hnd4 : NoDup (dict_keys d4)).
  { eapply relax_loop_NoDup; [exact Hr|]. now apply upper_bound_NoDup. }
  assert (H45 : refines a d4 d5) by now apply upper_bound_refines.
  assert (H03 : refines a d0 d3) by eauto using refines_trans.
  assert (H25 : refines a d2 d5) by eauto using refines_trans.
  split; [eauto using refines_trans|].
  destruct Hc4 as [->|[-> Himp]].
  - destruct Hc2 as [->|[-> Himp]]; [now left|].
    right. split; [reflexivity|].
    exact (improves_widen a d0 d1 d2 d5 H01 Himp H25 H12).
  - right. split; [reflexivity|].
    exact (improves_widen a d0 d3 d4 d5 H03 Himp H45 H34).
Qed.

Lemma update_dv_nonneg self src tbl h self' h' :
  update_dv self src tbl h = Ok (self', h') ->
  NoDup (dict_keys (dv_of self h)) -> NoDup (dict_keys (deref h tbl)) ->
  nonneg (dv_of self h) -> nonneg (deref h tbl) ->
  nonneg (dv_of self' h').
Proof.
  intros Hrun Hnd Hndt Hd Ht.
  apply update_dv_inv in Hrun as (d2 & c2 & d4 & c4 & Hl & Hr & -> & ->).
  unfold dv_of in *. cbn [dv set_converged]. rewrite deref_store_eq.
  set (a := addr self) in *. set (l := dv self) in *.
  set (h1 := with_src l src h) in *.
  assert (Hnd1 : NoDup (dict_keys (deref h1 l))) by now apply with_src_NoDup.
  assert (Hd1 : nonneg (deref h1 l)) by now apply with_src_nonneg.
  assert (Ht1 : forall k e, In (k, e) (deref h1 tbl) -> 0 <= cost_of e).
  { destruct (Nat.eq_dec l tbl) as [<-|Hne].
    - now apply nonneg_In.
    - unfold h1. rewrite with_src_other by assumption. now apply nonneg_In. }
  assert (Hd2 : nonneg d2) by (eapply learn_loop_nonneg; eauto).
  assert (Hnd2 : NoDup (dict_keys d2)) by (eapply learn_loop_NoDup; eauto).
  apply upper_bound_nonneg. eapply relax_loop_nonneg; [exact Hr| |].
  - destruct (Nat.eq_dec l tbl) as [<-|Hne].
    + rewrite deref_store_eq. apply nonneg_In.
      * now apply upper_bound_nonneg.
      * now apply upper_bound_NoDup.
    + rewrite deref_store_neq by assumption.
      unfold h1. rewrite with_src_other by assumption. now apply nonneg_In.
  - now apply upper_bound_nonneg.
Qed.

(* ================================================================= *)
(** ** The relaxation step *)

Lemma relax_loop_spec a src (tbl d : DV) (c : Z) d' c' es :
  for_each (relax_body a src) tbl (d, c) = Ok (d', c') ->
  NoDup (dict_keys tbl) ->
  dict_get src d = Some es ->
  (src = a \/ forall e, In (src, e) tbl -> 0 <= cost_of e) ->
  dict_get src d' = Some es
  /\ (forall dst, dict_mem dst tbl = false -> dict_get dst d' = dict_get dst d)
  /\ (forall dst et, In (dst, et) tbl -> dst <> a ->
        exists ed, dict_get dst d = Some ed
          /\ dict_get dst d'
             = Some (if cost_of es + cost_of et <? cost_of ed
                     then (src, cost_of es + cost_of et) else ed))
  /\ c' = (if existsb (relaxes a es d) tbl then 2 else c).
Proof.
  revert d c. induction tbl as [|[k0 [nh0 c0]] tbl IH]; intros d c Hrun Hnd Hsrc Hpos.
  - injection Hrun as <- <-. repeat split; auto. intros ? ? [].
  - inversion Hnd as [|? ? Hk0 Hnd']; subst.
    assert (Hfresh : dict_mem k0 tbl = false).
    { destruct (dict_mem k0 tbl) eqn:Hm; [|reflexivity].
      apply dict_mem_keys in Hm. contradiction. }
    assert (Hpos' : src = a \/ forall e, In (src, e) tbl -> 0 <= cost_of e).
    { destruct Hpos as [?|Hpos]; [now left|right]. intros e He. apply Hpos. now right. }
    assert (Hother : forall dst et, In (dst, et) tbl -> dst <> k0).
    { intros dst et Hin ->. apply Hk0. unfold dict_keys.
      change k0 with (fst (k0, et)). now apply in_map. }
    cbn [for_each] in Hrun. unfold relax_body at 1 in Hrun.
    cbn [existsb]. unfold relaxes at 1. cbn [fst snd].
    change (cost_of (nh0, c0)) with c0.
    destruct (String.eqb_spec k0 a) as [->|Hne]; cbn [bind negb andb] in Hrun |- *.
    + destruct (IH _ _ Hrun Hnd' Hsrc Hpos') as (Hs & Hout & Hin & Hc).
      repeat split; auto.
      * intros dst Hm. rewrite dict_mem_cons in Hm. apply orb_false_elim in Hm as [_ Hm].
        auto.
      * intros dst et [[= <- <-]|Hi] Hda; [contradiction|]. eauto.
    + rewrite Hsrc in Hrun.
      destruct (dict_get k0 d) as [ed|] eqn:Hed; [|discriminate].
      destruct (Z.ltb_spec (cost_of es + c0) (cost_of ed)) as [Hlt|Hge];
        cbn [bind] in Hrun.
      * assert (Hks : k0 <> src).
        { intros ->. rewrite Hsrc in Hed. injection Hed as <-.
          destruct Hpos as [?|Hpos]; [congruence|].
          specialize (Hpos (nh0, c0) (or_introl eq_refl)).
          unfold cost_of in *. simpl in *. lia. }
        assert (Hsrc1 : dict_get src (dict_set k0 (src, cost_of es + c0) d) = Some es)
          by (rewrite dict_get_set_neq; auto).
        destruct (IH _ _ Hrun Hnd' Hsrc1 Hpos') as (Hs & Hout & Hin & Hc).
        repeat split; auto.
        -- intros dst Hm. rewrite dict_mem_cons in Hm.
           apply orb_false_elim in Hm as [Hk Hm]. cbn [keqb EqKey_string] in Hk.
           rewrite (Hout _ Hm). apply dict_get_set_neq.
           intros ->. now rewrite String.eqb_refl in Hk.
        -- intros dst et [[= <- <-]|Hi] Hda.
           ++ exists ed. split; [assumption|].
              rewrite (Hout _ Hfresh), dict_get_set_eq. change (cost_of (nh0, c0)) with c0.
              destruct (Z.ltb_spec (cost_of es + c0) (cost_of ed)); [reflexivity|lia].
           ++ destruct (Hin _ _ Hi Hda) as (ed' & Hed' & Hres).
              rewrite dict_get_set_neq in Hed' by (symmetry; eauto). eauto.
        -- rewrite Hc. now destruct (existsb _ tbl).
      * destruct (IH _ _ Hrun Hnd' Hsrc Hpos') as (Hs & Hout & Hin & Hc).
        repeat split; auto.
        -- intros dst Hm. rewrite dict_mem_cons in Hm.
           apply orb_false_elim in Hm as [_ Hm]. auto.
        -- intros dst et [[= <- <-]|Hi] Hda; [|eauto].
           exists ed. split; [assumption|].
           rewrite (Hout _ Hfresh), Hed. change (cost_of (nh0, c0)) with c0.
           destruct (Z.ltb_spec (cost_of es + c0) (cost_of ed)); [lia|reflexivity].
Qed.

(** C4: the relaxation step of [update_dv].  [d3] is the router's vector
    when the relaxation loop starts (after the learning and the first clamp
    pass), [es] its entry for the advertising neighbour, [T] the advertised
    table.  For every destination of [T] other than the router's own
    address, the entry ends as [(src, candidate)] when the candidate cost is
    strictly below the current cost and is left as it is otherwise; the
    counter ends at 2 when some destination was relaxed and keeps the value
    it had after the learning pass otherwise; and a call that leaves the
    vector as it was leaves the counter as it was. *)
Theorem relaxation_step (self : Router) (src : address) (dv_table : loc)
  (h : dict loc DV) (self' : Router) (h' : dict loc DV) :
  update_dv self src dv_table h = Ok (self', h') ->
  NoDup (dict_keys (dv_of self h)) ->
  NoDup (dict_keys (deref h dv_table)) ->
  nonneg (dv_of self h) ->
  nonneg (deref h dv_table) ->
  exists d2 c2 es,
    let l := dv self in
    let h1 := with_src l src h in
    let d3 := upper_bound (addr self) d2 in
    let T := deref (heap_store l d3 h1) dv_table in
    for_each (learn_body src) (deref h1 dv_table) (deref h1 l, converged self)
      = Ok (d2, c2)
    /\ dict_get src d3 = Some es
    /\ (forall dst et, dict_get dst T = Some et -> dst <> addr self ->
          exists ed, dict_get dst d3 = Some ed
            /\ dict_get dst (dv_of self' h')
               = Some (if cost_of es + cost_of et <? cost_of ed
                       then (src, cost_of es + cost_of et) else ed))
    /\ converged self' = (if existsb (relaxes (addr self) es d3) T then 2 else c2)
    /\ (dv_of self' h' = dv_of self h -> converged self' = converged self).
Proof.
  intros Hrun Hnd Hndt Hd Ht.
  destruct (update_dv_refines _ _ _ _ _ _ Hrun Hnd) as [_ Hconv].
  apply update_dv_inv in Hrun as (d2 & c2 & d4 & c4 & Hl & Hr & -> & ->).
  unfold dv_of in *. cbn [dv converged set_converged] in *.
  rewrite deref_store_eq in *.
  set (a := addr self) in *. set (l := dv self) in *.
  set (h1 := with_src l src h) in *. set (d3 := upper_bound a d2) in *.
  set (T := deref (heap_store l d3 h1) dv_table) in *.
  assert (Hnd1 : NoDup (dict_keys (deref h1 l))) by now apply with_src_NoDup.
  assert (Hd1 : nonneg (deref h1 l)) by now apply with_src_nonneg.
  assert (Hnd2 : NoDup (dict_keys d2)) by (eapply learn_loop_NoDup; eauto).
  assert (Hd2 : nonneg d2).
  { eapply learn_loop_nonneg; [exact Hl| |assumption].
    destruct (Nat.eq_dec l dv_table) as [<-|Hne].
    - now apply nonneg_In.
    - unfold h1. rewrite with_src_other by assumption. now apply nonneg_In. }
  assert (Hnd3 : NoDup (dict_keys d3)) by now apply upper_bound_NoDup.
  assert (Hd3 : nonneg d3) by now apply upper_bound_nonneg.
  assert (HT : NoDup (dict_keys T) /\ nonneg T).
  { unfold T. destruct (Nat.eq_dec l dv_table) as [<-|Hne].
    - now rewrite deref_store_eq.
    - rewrite deref_store_neq by assumption.
      unfold h1. now rewrite with_src_other by assumption. }
  destruct HT as [HndT HdT].
  assert (Hsrc3 : dict_mem src d3 = true).
  { unfold d3. rewrite upper_bound_mem_eq, (learn_loop_mem _ _ _ _ _ _ Hl).
    unfold h1. now rewrite with_src_mem. }
  apply dict_mem_true in Hsrc3 as [es Hes].
  destruct (relax_loop_spec a src T d3 c2 d4 c4 es Hr HndT Hes) as (Hs & Hout & Hin & Hc).
  { right. intros e He. apply (HdT src). now apply NoDup_dict_get. }
  assert (Hnd4 : NoDup (dict_keys d4)) by (eapply relax_loop_NoDup; eauto).
  exists d2, c2, es. cbv zeta. fold h1 d3 T.
  split; [exact Hl|]. split; [exact Hes|]. split; [|split; [exact Hc|]].
  - intros dst et Het Hda. apply dict_get_In in Het.
    destruct (Hin _ _ Het Hda) as (ed & Hed & Hres).
    exists ed. split; [assumption|].
    rewrite upper_bound_get, Hres by assumption. cbn [option_map]. f_equal.
    unfold clamp_entry. rewrite (proj2 (String.eqb_neq dst a) Hda).
    pose proof (upper_bound_le a d2 dst ed Hed) as Hle.
    destruct (Z.ltb_spec (cost_of es + cost_of et) (cost_of ed)) as [Hlt|Hge].
    + unfold cost_of at 1. cbn [snd].
      destruct (Z.gtb_spec (cost_of es + cost_of et) inf); [lia|reflexivity].
    + destruct (Z.gtb_spec (cost_of ed) inf); [lia|reflexivity].
  - intros Hsame. destruct Hconv as [?|[_ Himp]]; [assumption|].
    rewrite Hsame in Himp. now apply improves_irrefl in Himp.
Qed.

Lemma relaxation_step_witness :
  update_dv Line.routerA "B"%string 1%nat Line.heap2 = Ok (Line.routerA, Line.heap3)
  /\ exists d2 c2 es,
      for_each (learn_body "B"%string)
        (deref (with_src 0%nat "B"%string Line.heap2) 1%nat)
        (deref (with_src 0%nat "B"%string Line.heap2) 0%nat, 2) = Ok (d2, c2)
      /\ dict_get "B"%string (upper_bound "A"%string d2) = Some es.
Proof.
  split; [vm_compute; reflexivity|].
  destruct (relaxation_step Line.routerA "B"%string 1%nat Line.heap2
              Line.routerA Line.heap3) as (d2 & c2 & es & Hl & Hs & _).
  - vm_compute. reflexivity.
  - apply NoDup_distinct. vm_compute. reflexivity.
  - apply NoDup_distinct. vm_compute. reflexivity.
  - apply nonneg_forallb. vm_compute. reflexivity.
  - apply nonneg_forallb. vm_compute. reflexivity.
  - exists d2, c2, es. split; [exact Hl|exact Hs].
Defined.

(* ================================================================= *)
(** ** Learning a destination *)

(** C5, at the failing input: router A of the line A - B - C takes B's
    first advertisement [{A: (A, 1), C: (C, 5)}].  C is learned at cost
    1 + 5 and the counter goes to 2, but the next hop stored is the one B
    advertised, C, and not the advertising neighbour B.  A has no queue for
    C, so forwarding a message for C from A then raises [KeyError]. *)
Theorem learned_next_hop_is_advertised :
  dict_get "A"%string (routers Line.net0) = Some Line.routerA
  /\ heap (store Line.net0) = Line.heap0
  /\ update_dv Line.routerA "B"%string 1%nat Line.heap0 = Ok (Line.routerA, Line.heap1)
  /\ dict_get "C"%string (dv_of Line.routerA Line.heap1) = Some ("C"%string, 6)
  /\ dict_get "C"%string (dv_of Line.routerA Line.heap1) <> Some ("B"%string, 6)
  /\ dict_get "C"%string (out_queues Line.routerA) = None
  /\ Router_route 1 Line.routerA
       (mkStore Line.heap1
          [("A"%string, [HTTPPacket "A"%string "C"%string "hi"%string])] [])
     = KeyError.
Proof.
  split; [reflexivity|]. split; [reflexivity|].
  split; [vm_compute; reflexivity|]. split; [reflexivity|].
  split; [vm_compute; discriminate|]. split; [reflexivity|].
  vm_compute. reflexivity.
Qed.

(* ================================================================= *)
(** ** Construction and [reset] *)

Lemma dict_get_reset_entries (cs : dict address Z) k :
  dict_get k (map (fun dc : address * Z => (fst dc, (fst dc, snd dc))) cs)
  = option_map (fun c => (k, c)) (dict_get k cs).
Proof.
  induction cs as [|[k0 c0] cs IH]; [reflexivity|]. cbn [map fst snd dict_get].
  destruct (keqb_spec k k0) as [->|Hne]; [reflexivity|exact IH].
Qed.

Lemma dict_mem_reset_entries (cs : dict address Z) k :
  dict_mem k (map (fun dc : address * Z => (fst dc, (fst dc, snd dc))) cs)
  = dict_mem k cs.
Proof.
  unfold dict_mem. rewrite dict_get_reset_entries. now destruct (dict_get k cs).
Qed.

Lemma Router_reset_vector self st :
  dv_of (fst (Router_reset self st)) (heap (snd (Router_reset self st)))
  = dict_of_list (map (fun dc : address * Z => (fst dc, (fst dc, snd dc))) (costs self)).
Proof.
  unfold Router_reset, dv_of. cbn [fst snd dv set_converged set_dv heap set_queue set_heap].
  apply deref_store_eq.
Qed.

Lemma reset_knows_neighbours self st :
  knows_neighbours (fst (Router_reset self st)) (heap (snd (Router_reset self st))).
Proof.
  intros k. rewrite Router_reset_vector, dict_mem_of_list, dict_mem_reset_entries.
  unfold Router_reset. cbn [fst costs set_converged set_dv]. auto.
Qed.

Lemma update_dv_knows_neighbours self src tbl h self' h' :
  update_dv self src tbl h = Ok (self', h') ->
  knows_neighbours self h -> knows_neighbours self' h'.
Proof.
  intros Hrun Hk k. rewrite (update_dv_mem _ _ _ _ _ _ Hrun).
  destruct (update_dv_frame _ _ _ _ _ _ Hrun) as (c & -> & _).
  cbn [costs set_converged]. intros Hc. now rewrite (Hk k Hc).
Qed.

Lemma In_link_costs edges s d c :
  In ((s, d), c) (link_costs edges) -> In (s, d, c) edges.
Proof.
  unfold link_costs.
  assert (Hgen : forall cs0 : dict (address * address) Z,
    In ((s, d), c)
       (fold_left (fun d0 e => dict_set (fst (fst e), snd (fst e)) (snd e) d0) edges cs0) ->
    In (s, d, c) edges \/ In ((s, d), c) cs0).
  { induction edges as [|[[s0 d0] c0] edges IH]; cbn [fold_left fst snd];
      intros cs0 Hin; [now right|].
    destruct (IH _ Hin) as [Hk|Hd]; [now left; right|].
    destruct (In_dict_set _ _ _ _ _ Hd) as [Heq|Hd']; [left; left; congruence|now right]. }
  intros Hin. destruct (Hgen [] Hin) as [?|[]]. assumption.
Qed.

Lemma In_links_from {X : Type} a (f : address -> Z -> X) cs k x :
  In (k, x) (links_from a f cs) ->
  exists c, In ((a, k), c) cs /\ x = f k c.
Proof.
  unfold links_from. intros Hin. apply In_dict_of_list in Hin.
  apply in_map_iff in Hin as [[[s d] c] [Heq Hin]]. cbn [fst snd] in Heq.
  apply filter_In in Hin as [Hin Hsrc]. cbn [fst] in Hsrc.
  apply String.eqb_eq in Hsrc. injection Heq as <- <-. subst s. eauto.
Qed.

(* ================================================================= *)
(** ** Changing a link cost *)

(** C8: the driver's link-cost change for a neighbour [dst] of a router
    whose vector has an entry for every neighbour, as it has from [reset] on.
    The link-cost table gets the new cost.  When the new cost is strictly
    below the cost of the neighbour's entry [e], the entry becomes
    [(dst, cost)], the counter becomes 2 and no other entry moves; otherwise
    the heap of vectors and the counter are as before, and only the
    link-cost table of the router has changed.  Every neighbour still has an
    entry afterwards. *)
Theorem change_cost_spec (self : Router) (dst : address) (cost : Z)
  (h : dict loc DV) :
  knows_neighbours self h ->
  dict_mem dst (costs self) = true ->
  exists e self' h',
    dict_get dst (dv_of self h) = Some e
    /\ Router_change_cost self dst cost h = Ok (self', h')
    /\ knows_neighbours self' h'
    /\ if cost <? cost_of e
       then self' = set_converged 2 (set_costs (dict_set dst cost (costs self)) self)
            /\ dict_get dst (dv_of self' h') = Some (dst, cost)
            /\ (forall k, k <> dst ->
                  dict_get k (dv_of self' h') = dict_get k (dv_of self h))
       else self' = set_costs (dict_set dst cost (costs self)) self /\ h' = h.
Proof.
  intros Hk Hdst. pose proof (Hk dst Hdst) as Hm.
  apply dict_mem_true in Hm as Hm'. destruct Hm' as [e He]. exists e.
  unfold dv_of, Router_change_cost in *. rewrite Hm, He.
  assert (Hkeys : forall k (c : Z), dict_mem k (dict_set dst c (costs self)) = true ->
                    dict_mem k (deref h (dv self)) = true).
  { intros k c. rewrite dict_mem_set. cbn [keqb EqKey_string].
    destruct (String.eqb_spec k dst) as [->|Hne]; [auto|apply Hk]. }
  destruct (cost <? cost_of e).
  - eexists. eexists. split; [reflexivity|]. split; [reflexivity|].
    cbn [dv costs set_converged set_costs]. rewrite deref_store_eq. split; [|split; [|split]].
    + intros k Hc. unfold dv_of. cbn [dv costs set_converged set_costs] in *.
      rewrite deref_store_eq, dict_mem_set, (Hkeys k cost Hc). apply orb_true_r.
    + reflexivity.
    + apply dict_get_set_eq.
    + intros k Hne. apply dict_get_set_neq. congruence.
  - eexists. eexists. split; [reflexivity|]. split; [reflexivity|].
    split; [|split; reflexivity].
    intros k Hc. unfold dv_of. cbn [dv costs set_costs] in *. apply (Hkeys k cost Hc).
Qed.

Lemma change_cost_spec_witness :
  dict_mem "B"%string (costs Line.routerA) = true
  /\ exists e self' h',
       dict_get "B"%string (dv_of Line.routerA Line.heap0) = Some e
       /\ Router_change_cost Line.routerA "B"%string 0 Line.heap0 = Ok (self', h').
Proof.
  split; [reflexivity|].
  destruct (change_cost_spec Line.routerA "B"%string 0 Line.heap0)
    as (e & self' & h' & He & Hrun & _).
  - intros k. unfold dv_of. cbn [Line.routerA Line.heap0 costs dv].
    unfold dict_mem, deref. cbn. destruct (String.eqb k "B"); auto.
  - reflexivity.
  - exists e, self', h'. split; [exact He|exact Hrun].
Defined.

(* ================================================================= *)
(** ** Routing one packet *)

Lemma read_packet_static self p st self' st' :
  read_packet self p st = Ok (self', st') -> exists c, self' = set_converged c self.
Proof.
  destruct p as [src dst t|src dst msg]; simpl.
  - destruct (update_dv self src t _) as [[r1 h1]| |] eqn:Hup; simpl; try discriminate.
    intros [= <- <-]. apply update_dv_frame in Hup as (c & -> & _). eauto.
  - intros [= <- <-]. exists (converged self). now rewrite set_converged_same.
Qed.

Lemma route_packet_static self p st self' st' :
  route_packet self p st = Ok (self', st') -> exists c, self' = set_converged c self.
Proof.
  unfold route_packet. destruct (String.eqb (pkt_dst p) (addr self)).
  - apply read_packet_static.
  - destruct (dict_get (pkt_dst p) _) as [e|].
    + destruct (dict_get (next_hop_of e) _); [|discriminate].
      intros [= <- <-]. exists (converged self). now rewrite set_converged_same.
    + intros [= <- <-]. exists (converged self). now rewrite set_converged_same.
Qed.

Lemma Router_route_static fuel : forall self st self' st',
  Router_route fuel self st = Ok (self', st') -> exists c, self' = set_converged c self.
Proof.
  induction fuel as [|fuel IH]; intros self st self' st'; cbn [Router_route];
    destruct (queue_contents (queues st) (in_queue self)) as [|p rest].
  - intros [= <- <-]. exists (converged self). now rewrite set_converged_same.
  - discriminate.
  - intros [= <- <-]. exists (converged self). now rewrite set_converged_same.
  - destruct (route_packet self p _) as [[r1 st1]| |] eqn:Hp; simpl; try discriminate.
    intros Hrun. apply route_packet_static in Hp as [c1 ->].
    apply IH in Hrun as [c ->]. exists c. apply set_converged_twice.
Qed.

(** C9, counterexample: a message A sends to itself on the line A - B - C.
    A's vector has no entry for A, yet the packet is delivered: the one line
    printed is the message, and nothing is dropped. *)
Lemma self_addressed_packet_is_delivered :
  exists net1 st',
    send_message "A"%string "A"%string "hi"%string Line.net0 = Ok net1
    /\ dict_get "A"%string (routers net1) = Some Line.routerA
    /\ queue_contents (queues (store net1)) "A"%string
       = [HTTPPacket "A"%string "A"%string "hi"%string]
    /\ dict_get "A"%string (dv_of Line.routerA (heap (store net1))) = None
    /\ Router_route 1 Line.routerA (store net1) = Ok (Line.routerA, st')
    /\ log st' = [ReceivedMessage "A"%string "A"%string "hi"%string].
Proof.
  eexists. eexists. split; [reflexivity|]. split; [reflexivity|].
  split; [reflexivity|]. split; [reflexivity|].
  split; [vm_compute; reflexivity|reflexivity].
Qed.

(** C9 (amended): a dequeued packet that is not addressed to the router
    itself and whose destination has no entry in the router's vector is
    dropped.  The loop goes on with the rest of the queue from a store in
    which the one new line is the drop, the heap is as it was, and every
    queue other than the router's own holds what it held. *)
Theorem drop_unknown_destination (fuel : nat) (self : Router) (st : Store)
  (packet : Packet) (rest : list Packet) :
  queue_contents (queues st) (in_queue self) = packet :: rest ->
  pkt_dst packet <> addr self ->
  dict_get (pkt_dst packet) (dv_of self (heap st)) = None ->
  exists st1,
    Router_route (S fuel) self st = Router_route fuel self st1
    /\ log st1 = log st ++ [Dropped (addr self) (pkt_src packet) (pkt_dst packet)]
    /\ heap st1 = heap st
    /\ queue_contents (queues st1) (in_queue self) = rest
    /\ forall q, q <> in_queue self ->
         queue_contents (queues st1) q = queue_contents (queues st) q.
Proof.
  intros Hq Hdst Hdv.
  exists (emit (Dropped (addr self) (pkt_src packet) (pkt_dst packet))
               (set_queue (in_queue self) rest st)).
  split; [|split; [reflexivity|split; [reflexivity|split]]].
  - cbn [Router_route]. rewrite Hq. unfold route_packet.
    rewrite (proj2 (String.eqb_neq _ _) Hdst).
    cbn [heap set_queue]. unfold dv_of in Hdv. now rewrite Hdv.
  - cbn [emit set_queue queues]. now rewrite queue_contents_set, String.eqb_refl.
  - intros q Hne. cbn [emit set_queue queues]. rewrite queue_contents_set.
    now rewrite (proj2 (String.eqb_neq _ _) Hne).
Qed.

Lemma drop_unknown_destination_witness :
  queue_contents (queues Line.store_msg) "A"%string
    = [HTTPPacket "A"%string "Z"%string "hi"%string]
  /\ exists st1,
       Router_route 1 Line.routerA Line.store_msg = Router_route 0 Line.routerA st1
       /\ log st1 = [Dropped "A"%string "A"%string "Z"%string].
Proof.
  split; [reflexivity|].
  destruct (drop_unknown_destination 0 Line.routerA Line.store_msg
              (HTTPPacket "A"%string "Z"%string "hi"%string) [])
    as (st1 & Hrun & Hlog & _).
  - reflexivity.
  - simpl. discriminate.
  - reflexivity.
  - exists st1. split; [exact Hrun|exact Hlog].
Defined.

(* ================================================================= *)
(** ** What a queued [DVPacket] holds *)

(** C7, at the failing input: the chain A - B - C - D with the routers
    visited in the order B, A, C, D.  After the send sweep A's queue holds
    one packet, from B, and B's vector has no entry for D.  B is routed
    first and learns D from C; A, routed next, reads B's vector through the
    reference in the packet and learns D in the same round.  With the vector
    B had when it sent, A would not have learned D. *)
Theorem queued_vector_is_shared :
  let n1 := Network_send_dv Chain.net0 in
  queue_contents (queues (store n1)) "A"%string
    = [DVPacket "B"%string "A"%string 0%nat]
  /\ dict_get "D"%string (deref (heap (store n1)) 0%nat) = None
  /\ (exists rA sA hA,
        dict_get "A"%string (routers n1) = Some rA
        /\ update_dv rA "B"%string 0%nat (heap (store n1)) = Ok (sA, hA)
        /\ dict_get "D"%string (dv_of sA hA) = None)
  /\ (exists n2,
        Network_route 2 n1 = Ok n2
        /\ dict_get "D"%string (vector_at "A"%string n2) = Some ("D"%string, 3)).
Proof.
  cbv zeta. split; [reflexivity|]. split; [reflexivity|]. split.
  - eexists. eexists. eexists. split; [reflexivity|].
    split; [vm_compute; reflexivity|reflexivity].
  - eexists. split; [vm_compute; reflexivity|reflexivity].
Qed.

(* ================================================================= *)
(** ** Properties of vectors that [update_dv] establishes, across the operations *)

Lemma In_locs a r rs : In (a, r) rs -> In (dv r) (locs rs).
Proof.
  intros Hin. unfold locs.
  change (dv r) with ((fun ar : address * Router => dv (snd ar)) (a, r)).
  now apply in_map.
Qed.

Section VectorInvariant.
Variable P : address -> DV -> Prop.
Hypothesis update_establishes : forall self src tbl h self' h',
  update_dv self src tbl h = Ok (self', h') -> P (addr self) (dv_of self' h').

Lemma route_packet_vector self p st self' st' :
  route_packet self p st = Ok (self', st') ->
  P (addr self) (dv_of self (heap st)) ->
  (exists c, self' = set_converged c self)
  /\ (forall l, l <> dv self -> deref (heap st') l = deref (heap st) l)
  /\ P (addr self) (dv_of self' (heap st')).
Proof.
  intros Hrun HP. pose proof (route_packet_static _ _ _ _ _ Hrun) as Hstatic.
  split; [assumption|]. revert Hrun. unfold route_packet.
  destruct (String.eqb (pkt_dst p) (addr self)).
  - destruct p as [src dst t|src dst msg]; cbn [read_packet].
    + destruct (update_dv self src t _) as [[r1 h1]| |] eqn:Hup; cbn [bind];
        try discriminate.
      intros [= <- <-]. cbn [heap set_heap emit] in *.
      destruct (update_dv_frame _ _ _ _ _ _ Hup) as (c & _ & Hframe).
      split; [assumption|]. eapply update_establishes; eauto.
    + intros [= <- <-]. auto.
  - destruct (dict_get (pkt_dst p) _) as [e|].
    + destruct (dict_get (next_hop_of e) _); [|discriminate].
      intros [= <- <-]. auto.
    + intros [= <- <-]. auto.
Qed.

Lemma Router_route_vector fuel : forall self st self' st',
  Router_route fuel self st = Ok (self', st') ->
  P (addr self) (dv_of self (heap st)) ->
  (exists c, self' = set_converged c self)
  /\ (forall l, l <> dv self -> deref (heap st') l = deref (heap st) l)
  /\ P (addr self) (dv_of self' (heap st')).
Proof.
  induction fuel as [|fuel IH]; intros self st self' st'; cbn [Router_route];
    destruct (queue_contents (queues st) (in_queue self)) as [|p rest];
    try discriminate;
    try (intros [= <- <-] HP; split; [|now split];
         exists (converged self); now rewrite set_converged_same).
  destruct (route_packet self p _) as [[r1 st1]| |] eqn:Hp; cbn [bind];
    try discriminate.
  intros Hrun HP.
  destruct (route_packet_vector _ _ _ _ _ Hp HP) as ([c1 ->] & Hframe1 & HP1).
  destruct (IH _ _ _ _ Hrun HP1) as ([c ->] & Hframe & HP').
  split; [exists c; apply set_converged_twice|]. split; [|exact HP'].
  intros l Hl. rewrite Hframe by exact Hl. now rewrite Hframe1 by exact Hl.
Qed.



End VectorInvariant.



(** *** The self route *)




(** *** The bound on the costs *)




(* ================================================================= *)
(** ** A round on a stable network *)

(** *** With nothing but messages in the queues *)

Lemma no_dv_pending_set q ps st :
  no_dv_pending st -> forallb is_http ps = true ->
  no_dv_pending (set_queue q ps st).
Proof.
  intros Hst Hps q'. unfold set_queue. cbn [queues]. rewrite queue_contents_set.
  destruct (String.eqb q' q); auto.
Qed.

Lemma no_dv_pending_put q p st :
  no_dv_pending st -> is_http p = true -> no_dv_pending (queue_put q p st).
Proof.
  intros Hst Hp q'. rewrite queue_contents_put.
  destruct (String.eqb q' q); auto.
  rewrite forallb_app, Hst. simpl. now rewrite Hp.
Qed.

Lemma no_dv_pending_spec st :
  no_dv_pending st <->
  forall q p, In p (queue_contents (queues st) q) -> is_http p = true.
Proof.
  unfold no_dv_pending. split.
  - intros Hall q p. specialize (Hall q). rewrite forallb_forall in Hall. apply Hall.
  - intros Hall q. apply forallb_forall. apply Hall.
Qed.

Lemma no_dv_pending_forallb st :
  forallb (fun qp : address * list Packet => forallb is_http (snd qp)) (queues st) = true ->
  no_dv_pending st.
Proof.
  intros Hall q. unfold queue_contents.
  destruct (dict_get q (queues st)) as [ps|] eqn:Hq; [|reflexivity].
  apply dict_get_In in Hq. rewrite forallb_forall in Hall. apply (Hall _ Hq).
Qed.

Lemma route_packet_http self p st self' st' :
  is_http p = true -> no_dv_pending st ->
  route_packet self p st = Ok (self', st') ->
  self' = self /\ heap st' = heap st /\ no_dv_pending st'.
Proof.
  intros Hp Hst. unfold route_packet.
  destruct p as [src dst t|src dst msg]; [discriminate|]. cbn [pkt_dst pkt_src].
  destruct (String.eqb dst (addr self)).
  - simpl. intros [= <- <-]. auto.
  - destruct (dict_get dst _) as [e|].
    + destruct (dict_get (next_hop_of e) _) as [q|]; [|discriminate].
      intros [= <- <-]. repeat split; auto.
      intros q'. cbn [emit queues]. now apply no_dv_pending_put.
    + intros [= <- <-]. auto.
Qed.

Lemma Router_route_http fuel : forall self st self' st',
  no_dv_pending st ->
  Router_route fuel self st = Ok (self', st') ->
  self' = self /\ heap st' = heap st /\ no_dv_pending st'.
Proof.
  induction fuel as [|fuel IH]; intros self st self' st' Hst; cbn [Router_route];
    destruct (queue_contents (queues st) (in_queue self)) as [|p rest] eqn:Hq;
    try discriminate; try (intros [= <- <-]; now auto).
  destruct (route_packet self p _) as [[r1 st1]| |] eqn:Hp; simpl; try discriminate.
  intros Hrun.
  pose proof (Hst (in_queue self)) as Hall. rewrite Hq in Hall. simpl in Hall.
  apply andb_true_iff in Hall as [Hhttp Hrest].
  apply route_packet_http in Hp as (-> & Hh1 & Hst1); auto using no_dv_pending_set.
  apply IH in Hrun as (-> & Hh & Hst'); auto.
  repeat split; auto. now rewrite Hh, Hh1.
Qed.

Lemma each_router_http fuel : forall rs st rs' st',
  no_dv_pending st ->
  each_router_r (Router_route fuel) rs st = Ok (rs', st') ->
  rs' = rs /\ heap st' = heap st /\ no_dv_pending st'.
Proof.
  induction rs as [|[a r] rs IH]; intros st rs' st' Hst; cbn [each_router_r].
  - intros [= <- <-]. auto.
  - destruct (Router_route fuel r st) as [[r1 st1]| |] eqn:Hr; simpl; try discriminate.
    destruct (each_router_r _ rs st1) as [[rs2 st2]| |] eqn:Hrs; simpl; try discriminate.
    intros [= <- <-].
    apply Router_route_http in Hr as (-> & Hh1 & Hst1); auto.
    apply IH in Hrs as (-> & Hh2 & Hst2); auto.
    repeat split; auto. now rewrite Hh2, Hh1.
Qed.

Lemma each_router_send_stable : forall rs st,
  forallb (fun ar : address * Router => converged (snd ar) =? 0) rs = true ->
  each_router Router_send_dv rs st = (rs, st).
Proof.
  induction rs as [|[a r] rs IH]; intros st Hall; cbn [each_router]; [reflexivity|].
  simpl in Hall. apply andb_true_iff in Hall as [Hr Hrs].
  unfold Router_send_dv. rewrite Hr. now rewrite IH.
Qed.

Lemma Network_send_dv_stable net : is_stable net = true -> Network_send_dv net = net.
Proof.
  intros Hst. unfold Network_send_dv. rewrite each_router_send_stable by assumption.
  now destruct net.
Qed.

Lemma stable_step_changes_nothing (fuel : nat) (net net' : Network) :
  is_stable net = true ->
  no_dv_pending (store net) ->
  step fuel net = Ok net' ->
  routers net' = routers net
  /\ heap (store net') = heap (store net)
  /\ forall a, vector_at a net' = vector_at a net.
Proof.
  intros Hstable Hpending. unfold step, Network_route.
  rewrite Network_send_dv_stable by assumption.
  destruct (each_router_r _ _ _) as [[rs st]| |] eqn:Hsweep; simpl; try discriminate.
  intros [= <-]. apply each_router_http in Hsweep as (-> & Hh & _); auto.
  cbn [routers store]. repeat split; auto.
  intros a. unfold vector_at. cbn [routers store]. now rewrite Hh.
Qed.

(** *** A round takes every advertisement out of the queues *)

Lemma route_packet_drain self p st self' st' :
  route_packet self p st = Ok (self', st') ->
  (is_http p = false -> pkt_dst p = addr self) ->
  forall q p', In p' (queue_contents (queues st') q) -> is_http p' = false ->
               In p' (queue_contents (queues st) q).
Proof.
  unfold route_packet. intros Hrun Hp q p'.
  destruct (String.eqb_spec (pkt_dst p) (addr self)) as [Heq|Hne].
  - destruct p as [src dst t|src dst msg]; cbn [read_packet] in Hrun.
    + destruct (update_dv self src t _) as [[r1 h1]| |]; cbn [bind] in Hrun;
        try discriminate.
      injection Hrun as <- <-. auto.
    + injection Hrun as <- <-. auto.
  - assert (Hhttp : is_http p = true).
    { destruct (is_http p) eqn:Hh; [reflexivity|]. now specialize (Hp eq_refl). }
    destruct (dict_get (pkt_dst p) _) as [e|].
    + destruct (dict_get (next_hop_of e) _) as [q0|]; [|discriminate].
      injection Hrun as <- <-. cbn [emit queues]. rewrite queue_contents_put.
      destruct (String.eqb_spec q q0) as [->|Hq]; [|auto].
      intros Hin Hdv. apply in_app_or in Hin as [Hin|[<-|[]]]; [assumption|congruence].
    + injection Hrun as <- <-. auto.
Qed.

Lemma Router_route_drain fuel : forall self st self' st',
  Router_route fuel self st = Ok (self', st') ->
  in_queue self = addr self ->
  (forall p, In p (queue_contents (queues st) (in_queue self)) ->
             is_http p = false -> pkt_dst p = addr self) ->
  queue_contents (queues st') (in_queue self) = []
  /\ forall q p', In p' (queue_contents (queues st') q) -> is_http p' = false ->
                  In p' (queue_contents (queues st) q).
Proof.
  induction fuel as [|fuel IH]; intros self st self' st'; cbn [Router_route];
    destruct (queue_contents (queues st) (in_queue self)) as [|p rest] eqn:Hq;
    try discriminate; try (intros [= <- <-] _ _; now auto).
  destruct (route_packet self p _) as [[r1 st1]| |] eqn:Hp; cbn [bind];
    try discriminate.
  intros Hrun Hin Hmine.
  destruct (route_packet_static _ _ _ _ _ Hp) as [c1 Hr1].
  assert (Hkeep : forall q p', In p' (queue_contents (queues st1) q) ->
            is_http p' = false -> In p' (queue_contents (queues st) q)).
  { intros q p' Hp' Hdv.
    apply (route_packet_drain _ _ _ _ _ Hp) in Hp'; auto.
    - unfold set_queue in Hp'. cbn [queues] in Hp'.
      rewrite queue_contents_set in Hp'.
      destruct (String.eqb_spec q (in_queue self)) as [->|Hne]; [|assumption].
      rewrite Hq. now right.
    - apply Hmine. now left. }
  destruct (IH _ _ _ _ Hrun) as [Hempty Hkeep'].
  { subst r1. exact Hin. }
  { subst r1. cbn [in_queue addr set_converged]. intros p' Hp' Hdv.
    apply Hkeep in Hp'; [|assumption]. rewrite Hq in Hp'. apply Hmine; auto. }
  split; [subst r1; exact Hempty|]. auto.
Qed.

Lemma route_sweep_drain fuel : forall rs st rs' st',
  each_router_r (Router_route fuel) rs st = Ok (rs', st') ->
  (forall a r, In (a, r) rs -> in_queue r = addr r) ->
  addressed (inqs rs) st ->
  no_dv_pending st' /\ same_wiring rs rs'.
Proof.
  induction rs as [|[a r] rs IH]; intros st rs' st'; cbn [each_router_r].
  - intros [= <- <-] _ Haddr. split; [|constructor].
    apply no_dv_pending_spec. intros q p Hp.
    destruct (is_http p) eqn:Hh; [reflexivity|].
    now destruct (Haddr q p Hp Hh) as [_ []].
  - destruct (Router_route fuel r st) as [[r1 st1]| |] eqn:Hr; cbn [bind];
      try discriminate.
    destruct (each_router_r _ rs st1) as [[rs2 st2]| |] eqn:Hrs; cbn [bind];
      try discriminate.
    intros [= <- <-] Hin Haddr.
    pose proof (Hin a r (or_introl eq_refl)) as Hinr.
    destruct (Router_route_drain _ _ _ _ _ Hr Hinr) as [Hempty Hkeep].
    { intros p Hp Hdv. rewrite <- Hinr. now apply (Haddr _ p Hp Hdv). }
    destruct (IH _ _ _ Hrs) as [Hnone Hsame].
    { intros a' r' Hin'. apply (Hin a' r'). now right. }
    { intros q p Hp Hdv. pose proof (Hkeep _ _ Hp Hdv) as Hp0.
      destruct (Haddr _ _ Hp0 Hdv) as [Hdst [Hq|Hq]]; [|auto].
      cbn [snd] in Hq. rewrite <- Hq, Hempty in Hp. contradiction. }
    split; [assumption|]. constructor; [|assumption].
    split; [reflexivity|]. apply (Router_route_static _ _ _ _ _ Hr).
Qed.

Lemma send_puts_addressed Q a l outs : forall st,
  (forall k q, In (k, q) outs -> k = q /\ In q Q) -> addressed Q st ->
  addressed Q (fold_left (fun st' (dq : address * address) =>
                            queue_put (snd dq) (DVPacket a (fst dq) l) st') outs st).
Proof.
  induction outs as [|[k q] outs IH]; intros st Hout Haddr; cbn [fold_left];
    [assumption|].
  apply IH; [intros k' q' Hin; apply Hout; now right|].
  intros q' p. cbn [fst snd]. rewrite queue_contents_put.
  destruct (String.eqb_spec q' q) as [->|Hne]; [|apply Haddr].
  intros Hin Hdv. apply in_app_or in Hin as [Hin|[<-|[]]]; [now apply Haddr|].
  destruct (Hout k q (or_introl eq_refl)) as [-> Hq]. auto.
Qed.

Lemma send_sweep_addressed Q : forall rs st rs' st',
  each_router Router_send_dv rs st = (rs', st') ->
  (forall a r, In (a, r) rs ->
     forall k q, In (k, q) (out_queues r) -> k = q /\ In q Q) ->
  addressed Q st ->
  addressed Q st' /\ same_wiring rs rs'.
Proof.
  induction rs as [|[a r] rs IH]; intros st rs' st'; cbn [each_router].
  - intros [= <- <-] _ Haddr. split; [assumption|constructor].
  - destruct (Router_send_dv r st) as [r1 st1] eqn:Hr.
    destruct (each_router Router_send_dv rs st1) as [rs2 st2] eqn:Hrs.
    intros [= <- <-] Hout Haddr.
    assert (H1 : addressed Q st1 /\ exists c, r1 = set_converged c r).
    { unfold Router_send_dv in Hr. destruct (converged r =? 0); injection Hr as <- <-.
      - split; [assumption|]. exists (converged r). now rewrite set_converged_same.
      - split; [|eauto]. apply send_puts_addressed; [|assumption].
        apply (Hout a r). now left. }
    destruct H1 as [Haddr1 Hr1].
    destruct (IH _ _ _ Hrs) as [Haddr2 Hsame]; [|assumption|].
    { intros a' r' Hin. apply (Hout a' r'). now right. }
    split; [assumption|]. constructor; [|assumption]. now split.
Qed.

Lemma same_wiring_inqs rs rs' : same_wiring rs rs' -> inqs rs' = inqs rs.
Proof.
  induction 1 as [|[a r] [a' r'] rs rs' [_ [c Hr]] _ IH]; [reflexivity|].
  unfold inqs in *. cbn [map snd] in *. rewrite IH. now subst r'.
Qed.

Lemma same_wiring_In rs rs' : same_wiring rs rs' ->
  forall a r', In (a, r') rs' -> exists r c, In (a, r) rs /\ r' = set_converged c r.
Proof.
  induction 1 as [|[a0 r0] [a1 r1] rs rs' [Ha [c Hr]] _ IH]; intros a r' Hin;
    [contradiction|].
  cbn [fst snd] in *. destruct Hin as [[= <- <-]|Hin].
  - exists r0, c. split; [left; congruence|assumption].
  - destruct (IH _ _ Hin) as (r & c' & Hin' & Hr'). exists r, c'. split; [now right|assumption].
Qed.

Lemma same_wiring_linked rs rs' : same_wiring rs rs' -> linked rs -> linked rs'.
Proof.
  intros Hsame Hl a r' Hin.
  destruct (same_wiring_In _ _ Hsame _ _ Hin) as (r & c & Hin0 & ->).
  rewrite (same_wiring_inqs _ _ Hsame). apply (Hl a r Hin0).
Qed.

Lemma step_drains (fuel : nat) (net net' : Network) :
  ready net -> step fuel net = Ok net' ->
  no_dv_pending (store net') /\ ready net'.
Proof.
  intros [Hl Haddr]. unfold step, Network_send_dv, Network_route.
  destruct (each_router Router_send_dv _ _) as [rs1 st1] eqn:Hsend.
  cbn [routers store].
  destruct (each_router_r _ rs1 st1) as [[rs2 st2]| |] eqn:Hroute; cbn [bind];
    try discriminate.
  intros [= <-]. cbn [routers store].
  destruct (send_sweep_addressed (inqs (routers net)) _ _ _ _ Hsend)
    as [Haddr1 Hsame1];
    [intros a r Hin; exact (proj2 (Hl a r Hin))|assumption|].
  pose proof (same_wiring_linked _ _ Hsame1 Hl) as Hl1.
  rewrite <- (same_wiring_inqs _ _ Hsame1) in Haddr1.
  destruct (route_sweep_drain _ _ _ _ _ Hroute) as [Hnone Hsame2];
    [intros a r Hin; exact (proj1 (Hl1 a r Hin))|assumption|].
  split; [assumption|]. unfold ready. cbn [routers store].
  split; [now apply (same_wiring_linked _ _ Hsame2)|].
  intros q p Hp Hdv. apply no_dv_pending_spec with (q := q) (p := p) in Hnone; auto.
  congruence.
Qed.

Lemma make_routers_linked U edges :
  (forall x, endpoint x edges -> In x U) ->
  forall addrs rs st,
    (forall a r, In (a, r) rs ->
       addr r = a /\ in_queue r = a
       /\ forall k q, In (k, q) (out_queues r) -> k = q /\ In q U) ->
    (forall q, queue_contents (queues st) q = []) ->
    (forall a r, In (a, r) (fst (make_routers (link_costs edges) addrs rs st)) ->
       addr r = a /\ in_queue r = a
       /\ forall k q, In (k, q) (out_queues r) -> k = q /\ In q U)
    /\ (forall q, queue_contents
                    (queues (snd (make_routers (link_costs edges) addrs rs st))) q = []).
Proof.
  intros Hend. induction addrs as [|a addrs IH]; intros rs st Hrs Hqs;
    cbn [make_routers]; [now split|].
  unfold Router_init, Router_reset.
  cbn [costs in_queue set_converged set_dv addr out_queues dv].
  apply IH.
  - intros a' r' Hin. apply In_dict_set in Hin as [[= -> ->]|Hin]; [|eauto].
    split; [reflexivity|]. split; [reflexivity|].
    intros k q Hkq. cbn [out_queues] in Hkq.
    apply In_links_from in Hkq as (c & Hin & ->). split; [reflexivity|].
    apply In_link_costs in Hin. apply Hend. exists (a, k, c).
    split; [assumption|]. now right.
  - intros q. cbn [queues set_queue set_heap]. rewrite queue_contents_set.
    destruct (String.eqb q a); auto.
Qed.

Lemma make_routers_keys cs : forall addrs rs st a,
  In a addrs \/ dict_mem a rs = true ->
  dict_mem a (fst (make_routers cs addrs rs st)) = true.
Proof.
  induction addrs as [|a0 addrs IH]; intros rs st a Ha; cbn [make_routers].
  - destruct Ha as [[]|Ha]. exact Ha.
  - unfold Router_init, Router_reset.
    cbn [costs in_queue set_converged set_dv addr out_queues dv].
    apply IH. rewrite dict_mem_set. cbn [keqb EqKey_string].
    destruct (String.eqb_spec a a0) as [->|Hne]; [now right|].
    destruct Ha as [[Heq|Hin]|Hm]; [congruence|now left|now right].
Qed.

Lemma Network_init_ready addrs edges :
  (forall a, endpoint a edges -> In a addrs) ->
  ready (Network_init addrs edges).
Proof.
  intros Hend. unfold ready, Network_init.
  set (qs := dict_of_list (map (fun a => (a, @nil Packet)) addrs)).
  assert (Hqs0 : forall q, queue_contents (queues (mkStore [] qs [])) q = []).
  { intros q. cbn [queues]. unfold queue_contents.
    destruct (dict_get q qs) as [ps|] eqn:Hq; [|reflexivity].
    apply dict_get_In, In_dict_of_list, in_map_iff in Hq as [a [[= _ <-] _]].
    reflexivity. }
  destruct (make_routers_linked addrs edges Hend addrs [] (mkStore [] qs []))
    as [Hrs Hqs]; [intros a r []|exact Hqs0|].
  pose proof (fun a Ha => make_routers_keys (link_costs edges) addrs []
                            (mkStore [] qs []) a (or_introl Ha)) as Hkeys.
  destruct (make_routers (link_costs edges) addrs [] (mkStore [] qs [])) as [rs st].
  cbn [fst snd routers store] in *. split.
  - intros a r Hin. destruct (Hrs a r Hin) as (Ha & Hq & Hout).
    split; [congruence|]. intros k q Hkq.
    destruct (Hout k q Hkq) as [-> Hq']. split; [reflexivity|].
    apply Hkeys, dict_mem_true in Hq' as [r' Hr'].
    apply dict_get_In in Hr'. destruct (Hrs q r' Hr') as (_ & Hq'' & _).
    unfold inqs. rewrite <- Hq''.
    change (in_queue r') with ((fun ar : address * Router => in_queue (snd ar)) (q, r')).
    now apply in_map.
  - intros q p Hp. rewrite Hqs in Hp. contradiction.
Qed.

(** *** Stability and the next round *)

(** C2, counterexample: on the line A - B - C the driver sends twice without
    routing.  Every counter is then 0, so [is_stable] answers true, while
    the queues hold the advertisements; the next [step] changes A's vector. *)
Lemma stable_with_packets_pending :
  let net := Network_send_dv (Network_send_dv Line.net0) in
  is_stable net = true
  /\ exists net', step 4 net = Ok net'
       /\ vector_at "A"%string net = [("B"%string, ("B"%string, 1))]
       /\ vector_at "A"%string net'
          = [("B"%string, ("B"%string, 1)); ("A"%string, ("A"%string, 0));
             ("C"%string, ("C"%string, 6))].
Proof.
  cbv zeta. split; [reflexivity|].
  eexists. split; [vm_compute; reflexivity|]. split; reflexivity.
Qed.

(** C2 (amended): when [is_stable] answers true and no distance-vector
    packet waits in any queue, one more [step] leaves every router and the
    whole heap of distance vectors as they were.  A completed [step] on a
    network that is wired as the constructor wires it, and holds its pending
    advertisements in the queues of their addressees, leaves no
    distance-vector packet waiting and keeps the network so; the network
    the constructor builds is such a network. *)
Theorem step_after_stable :
  (forall fuel net net',
     is_stable net = true -> no_dv_pending (store net) ->
     step fuel net = Ok net' ->
     routers net' = routers net
     /\ heap (store net') = heap (store net)
     /\ forall a, vector_at a net' = vector_at a net)
  /\ (forall fuel net net',
        ready net -> step fuel net = Ok net' ->
        no_dv_pending (store net') /\ ready net')
  /\ (forall addrs edges,
        (forall a, endpoint a edges -> In a addrs) ->
        ready (Network_init addrs edges)).
Proof.
  split; [|split].
  - intros fuel net net'. apply stable_step_changes_nothing.
  - intros fuel net net'. apply step_drains.
  - intros addrs edges. apply Network_init_ready.
Qed.

Lemma step_after_stable_witness :
  is_stable Line.settled_msg = true
  /\ step 1 Line.settled_msg = Ok Line.settled_next
  /\ store Line.settled_next <> store Line.settled_msg
  /\ vector_at "A"%string Line.settled_next = vector_at "A"%string Line.settled_msg.
Proof.
  split; [reflexivity|]. split; [vm_compute; reflexivity|].
  split; [vm_compute; discriminate|].
  destruct (proj1 step_after_stable 1%nat Line.settled_msg Line.settled_next)
    as (_ & _ & Hv).
  - reflexivity.
  - apply no_dv_pending_forallb. vm_compute. reflexivity.
  - vm_compute. reflexivity.
  - apply Hv.
Defined.

(* ================================================================= *)
(** ** Convergence *)

(** *** The potential of a vector *)

Lemma refines_weight a C (d d' : DV) u :
  refines a d d' -> nonneg d -> nonneg d' -> capped C d' ->
  (weight C d' u <= weight C d u)%nat.
Proof.
  intros [Hkeys Hcost] Hd Hd' Hc'. unfold weight.
  destruct (dict_get u d) as [e|] eqn:He.
  - assert (Hm : dict_mem u d' = true).
    { apply Hkeys. apply dict_mem_true. eauto. }
    apply dict_mem_true in Hm as [e' He']. rewrite He'.
    destruct (Hcost _ _ _ He He') as [Hne Heq].
    specialize (Hd _ _ He). specialize (Hd' _ _ He').
    destruct (String.eqb_spec u a) as [Hua|Hua].
    + specialize (Heq Hua). lia.
    + specialize (Hne Hua). lia.
  - destruct (dict_get u d') as [e'|] eqn:He'; [|lia].
    specialize (Hd' _ _ He'). specialize (Hc' _ _ He'). lia.
Qed.

Lemma improves_weight a C (d d' : DV) :
  improves a d d' -> nonneg d' -> capped C d' ->
  exists u, dict_mem u d' = true /\ (weight C d' u < weight C d u)%nat.
Proof.
  intros [k [[Hk Hk']|(Hka & e & e' & He & He' & Hlt)]] Hd' Hc'.
  - exists k. split; [assumption|]. unfold weight.
    apply dict_mem_false in Hk. rewrite Hk.
    apply dict_mem_true in Hk' as [e' He']. rewrite He'.
    specialize (Hd' _ _ He'). specialize (Hc' _ _ He'). lia.
  - exists k. split; [apply dict_mem_true; eauto|]. unfold weight.
    rewrite He, He'. specialize (Hd' _ _ He'). lia.
Qed.

Lemma refines_potential a U C (d d' : DV) :
  refines a d d' -> nonneg d -> nonneg d' -> capped C d' ->
  (potential U C d' <= potential U C d)%nat.
Proof.
  intros Href Hd Hd' Hc'. unfold potential. apply list_sum_le.
  intros u _. eapply refines_weight; eauto.
Qed.

Lemma improves_potential a U C (d d' : DV) :
  refines a d d' -> improves a d d' -> nonneg d -> nonneg d' -> capped C d' ->
  (forall k, dict_mem k d' = true -> In k U) ->
  (potential U C d' < potential U C d)%nat.
Proof.
  intros Href Himp Hd Hd' Hc' Hkeys.
  destruct (improves_weight a C d d' Himp Hd' Hc') as (u & Hu & Hlt).
  unfold potential. apply list_sum_lt with u; auto.
  intros y _. eapply refines_weight; eauto.
Qed.

Lemma sound_empty U C : 0 <= C -> sound U C [].
Proof.
  intros HC. repeat split; try constructor; try discriminate.
Qed.

Lemma update_dv_sound U C self src tbl h self' h' :
  heap_ok U C h -> In src U -> inf <= C ->
  update_dv self src tbl h = Ok (self', h') ->
  heap_ok U C h'.
Proof.
  intros Hh Hsrc HC Hrun l'.
  destruct (update_dv_frame _ _ _ _ _ _ Hrun) as (c & Hself & Hframe).
  destruct (Nat.eq_dec l' (dv self)) as [->|Hne]; [|rewrite Hframe; auto].
  destruct (Hh (dv self)) as (Hnd & Hnn & Hcap & Hkeys).
  destruct (Hh tbl) as (Hndt & Hnnt & Hcapt & Hkeyst).
  assert (Hdv : dv self' = dv self) by now subst self'.
  change (deref h' (dv self)) with (dv_of self h'). 
  replace (dv_of self h') with (dv_of self' h') by (unfold dv_of; now rewrite Hdv).
  repeat split.
  - eapply update_dv_NoDup; eauto.
  - eapply update_dv_nonneg; eauto.
  - intros k e Hk. pose proof (update_dv_capped _ _ _ _ _ _ Hrun k e Hk). lia.
  - intros k. rewrite (update_dv_mem _ _ _ _ _ _ Hrun).
    intros Hk. apply orb_true_iff in Hk as [Hk|Hk].
    + apply orb_true_iff in Hk as [Hk|Hk]; auto.
    + apply String.eqb_eq in Hk. now subst.
Qed.

Lemma update_dv_measure U C self src tbl h self' h' :
  heap_ok U C h -> In src U -> inf <= C -> 0 <= converged self ->
  update_dv self src tbl h = Ok (self', h') ->
  (router_measure U C h' self' <= router_measure U C h self)%nat
  /\ 0 <= converged self'.
Proof.
  intros Hh Hsrc HC Hconv Hrun.
  pose proof (update_dv_sound U C _ _ _ _ _ _ Hh Hsrc HC Hrun) as Hh'.
  destruct (update_dv_frame _ _ _ _ _ _ Hrun) as (c & Hself & _).
  assert (Hdv : dv self' = dv self) by now subst self'.
  destruct (Hh (dv self)) as (Hnd & Hnn & Hcap & Hkeys).
  destruct (Hh' (dv self')) as (Hnd' & Hnn' & Hcap' & Hkeys').
  destruct (update_dv_refines _ _ _ _ _ _ Hrun Hnd) as [Href Hc].
  unfold router_measure.
  pose proof (refines_potential _ U C _ _ Href Hnn Hnn' Hcap') as Hpot.
  destruct Hc as [Hc|[Hc Himp]].
  - rewrite Hc. split; lia.
  - pose proof (improves_potential _ U C _ _ Href Himp Hnn Hnn' Hcap' Hkeys') as Hlt.
    rewrite Hc. split; lia.
Qed.

(** *** One router draining a queue of advertisements *)

Lemma wired_set_converged U c r : wired U r -> wired U (set_converged c r).
Proof. exact (fun H => H). Qed.

Lemma route_packet_dv U C self s t st :
  wired U self -> heap_ok U C (heap st) -> In s U -> inf <= C ->
  0 <= converged self ->
  exists self' st',
    route_packet self (DVPacket s (addr self) t) st = Ok (self', st')
    /\ (exists c, self' = set_converged c self)
    /\ 0 <= converged self'
    /\ queues st' = queues st
    /\ heap_ok U C (heap st')
    /\ (forall l, l <> dv self -> deref (heap st') l = deref (heap st) l)
    /\ (router_measure U C (heap st') self' <= router_measure U C (heap st) self)%nat.
Proof.
  intros Hw Hh Hs HC Hc. unfold route_packet. cbn [pkt_dst].
  rewrite String.eqb_refl. cbn [read_packet].
  destruct (update_dv_returns self s t (heap (emit (ReceivedDV (addr self) s) st)))
    as (self' & h' & Hrun).
  rewrite Hrun. cbn [bind emit heap] in *.
  exists self', (set_heap h' (emit (ReceivedDV (addr self) s) st)).
  split; [reflexivity|].
  destruct (update_dv_frame _ _ _ _ _ _ Hrun) as (c & Hself & Hframe).
  destruct (update_dv_measure U C _ _ _ _ _ _ Hh Hs HC Hc Hrun) as [Hm Hc'].
  pose proof (update_dv_sound U C _ _ _ _ _ _ Hh Hs HC Hrun) as Hh'.
  split; [eauto|]. split; [assumption|]. split; [reflexivity|].
  split; [assumption|]. split; assumption.
Qed.

Lemma dv_only_set U q ps st :
  dv_only U st ->
  (forall p, In p ps -> In p (queue_contents (queues st) q)) ->
  dv_only U (set_queue q ps st).
Proof.
  intros Hst Hps q' p. unfold set_queue. cbn [queues]. rewrite queue_contents_set.
  destruct (String.eqb_spec q' q) as [->|Hne]; auto.
Qed.

Lemma Router_route_dv U C fuel : forall self st,
  wired U self -> heap_ok U C (heap st) -> dv_only U st -> inf <= C ->
  0 <= converged self ->
  (List.length (queue_contents (queues st) (in_queue self)) <= fuel)%nat ->
  exists self' st',
    Router_route fuel self st = Ok (self', st')
    /\ (exists c, self' = set_converged c self)
    /\ 0 <= converged self'
    /\ heap_ok U C (heap st')
    /\ (forall l, l <> dv self -> deref (heap st') l = deref (heap st) l)
    /\ (router_measure U C (heap st') self' <= router_measure U C (heap st) self)%nat
    /\ queue_contents (queues st') (in_queue self) = []
    /\ (forall q, q <> in_queue self ->
          queue_contents (queues st') q = queue_contents (queues st) q).
Proof.
  induction fuel as [|fuel IH]; intros self st Hw Hh Hdv HC Hc Hlen;
    cbn [Router_route];
    destruct (queue_contents (queues st) (in_queue self)) as [|p rest] eqn:Hq;
    try (simpl in Hlen; lia);
    try (exists self, st; split; [reflexivity|];
         split; [exists (converged self); now rewrite set_converged_same|];
         split; [assumption|]; split; [assumption|]; split; [reflexivity|];
         split; [lia|]; split; [assumption|reflexivity]).
  destruct (Hdv (in_queue self) p) as (s & t & -> & Hs); [rewrite Hq; now left|].
  pose proof Hw as (Hin & Ha & Hout). rewrite Hin in *.
  set (st0 := set_queue (addr self) rest st).
  assert (Hdv0 : dv_only U st0).
  { apply dv_only_set; auto. intros p Hp. rewrite Hq. now right. }
  destruct (route_packet_dv U C self s t st0) as
    (self1 & st1 & Hrun & [c1 Hself1] & Hc1 & Hqs1 & Hh1 & Hframe1 & Hm1);
    auto.
  rewrite Hrun. cbn [bind].
  assert (Hw1 : wired U self1) by (subst self1; exact Hw).
  assert (Hdv1 : dv_only U st1).
  { intros q p. rewrite Hqs1. apply Hdv0. }
  destruct (IH self1 st1 Hw1 Hh1 Hdv1 HC Hc1) as
    (self2 & st2 & Hrun2 & [c2 Hself2] & Hc2 & Hh2 & Hframe2 & Hm2 & Hempty & Hothers).
  { rewrite Hqs1. subst self1. cbn [in_queue set_converged].
    unfold st0, set_queue. cbn [queues]. rewrite queue_contents_set, Hin, String.eqb_refl.
    simpl in Hlen. lia. }
  exists self2, st2. split; [exact Hrun2|].
  assert (Hdv12 : dv self1 = dv self) by now subst self1.
  assert (Hin12 : in_queue self1 = addr self) by (subst self1; exact Hin).
  split; [|split; [assumption|split; [assumption|split; [|split; [|split]]]]].
  - exists c2. subst self2 self1. apply set_converged_twice.
  - intros l Hl. rewrite Hframe2, Hframe1 by congruence. reflexivity.
  - unfold st0 in Hm1. cbn [heap set_queue] in Hm1. lia.
  - now rewrite <- Hin12.
  - intros q Hne. rewrite Hothers, Hqs1 by congruence.
    unfold st0, set_queue. cbn [queues]. rewrite queue_contents_set.
    now rewrite (proj2 (String.eqb_neq _ _) Hne).
Qed.

(** *** The two sweeps of a round *)

Lemma net_measure_frame U C rs h h' :
  (forall a r, In (a, r) rs -> deref h' (dv r) = deref h (dv r)) ->
  net_measure U C rs h' = net_measure U C rs h.
Proof.
  intros Hsame. unfold net_measure. f_equal. apply map_ext_in.
  intros [a r] Hin. unfold router_measure, dv_of. cbn [snd].
  now rewrite (Hsame a r Hin).
Qed.

Lemma route_sweep U C fuel : forall rs st,
  net_ok U C rs st -> inf <= C ->
  (forall q, List.length (queue_contents (queues st) q) <= fuel)%nat ->
  exists rs' st',
    each_router_r (Router_route fuel) rs st = Ok (rs', st')
    /\ net_ok U C rs' st'
    /\ (net_measure U C rs' (heap st') <= net_measure U C rs (heap st))%nat
    /\ (forall l, ~ In l (locs rs) -> deref (heap st') l = deref (heap st) l)
    /\ locs rs' = locs rs
    /\ (forall q, queue_contents (queues st') q = []
                  \/ queue_contents (queues st') q = queue_contents (queues st) q).
Proof.
  induction rs as [|[a r] rs IH]; intros st Hok HC Hlen.
  - exists [], st. cbn [each_router_r].
    split; [reflexivity|]. split; [exact Hok|]. split; [lia|].
    split; [reflexivity|]. split; [reflexivity|]. intros q. now right.
  - destruct Hok as (Hnd & Hwire & Hheap & Hdv).
    cbn [map snd] in Hnd. inversion Hnd as [|? ? Hfresh Hnd']; subst.
    destruct (Hwire a r (or_introl eq_refl)) as [Hw Hc].
    destruct (Router_route_dv U C fuel r st Hw Hheap Hdv HC Hc (Hlen _)) as
      (r1 & st1 & Hrun & [c1 Hr1] & Hc1 & Hh1 & Hframe1 & Hm1 & Hempty & Hothers).
    assert (Hq1 : forall q, queue_contents (queues st1) q = []
                  \/ queue_contents (queues st1) q = queue_contents (queues st) q).
    { intros q. destruct (String.eqb_spec q (in_queue r)) as [->|Hne]; auto. }
    assert (Hok1 : net_ok U C rs st1).
    { split; [assumption|]. split; [intros a' r' Hin; apply (Hwire a' r'); now right|].
      split; [assumption|]. intros q p Hp.
      destruct (Hq1 q) as [Hq|Hq]; rewrite Hq in Hp; [contradiction|eauto]. }
    destruct (IH st1 Hok1 HC) as
      (rs2 & st2 & Hrun2 & Hok2 & Hm2 & Hframe2 & Hlocs2 & Hq2).
    { intros q. destruct (Hq1 q) as [Hq|Hq]; rewrite Hq; [simpl; lia|apply Hlen]. }
    exists ((a, r1) :: rs2), st2. cbn [each_router_r]. rewrite Hrun. cbn [bind].
    rewrite Hrun2. cbn [bind].
    assert (Hdv1 : dv r1 = dv r) by now subst r1.
    destruct Hok2 as (Hnd2 & Hwire2 & Hheap2 & Hdvo2).
    split; [reflexivity|]. split; [|split; [|split; [|split]]].
    + split; [|split; [|split]]; try assumption.
      * cbn [map snd]. fold (locs rs2). rewrite Hlocs2, Hdv1. assumption.
      * intros a' r' [[= <- <-]|Hin]; [|eauto].
        split; [subst r1; exact Hw|assumption].
    + unfold net_measure in *. cbn [map snd]. rewrite !list_sum_cons.
      assert (Hr1h : router_measure U C (heap st2) r1 = router_measure U C (heap st1) r1).
      { unfold router_measure, dv_of. rewrite Hframe2; [reflexivity|]. now rewrite Hdv1. }
      assert (Hrs : net_measure U C rs (heap st1) = net_measure U C rs (heap st)).
      { apply net_measure_frame. intros a' r' Hin. apply Hframe1.
        intros Heq. apply Hfresh. rewrite <- Heq. exact (In_locs a' r' rs Hin). }
      unfold net_measure in Hrs. lia.
    + intros l Hl. cbn [locs map snd] in Hl.
      rewrite Hframe2, Hframe1; auto.
      * intros ->. apply Hl. now left.
      * intros Hin. apply Hl. now right.
    + cbn [locs map snd]. fold (locs rs2) (locs rs). now rewrite Hlocs2, Hdv1.
    + intros q. destruct (Hq2 q) as [Hq|Hq]; [now left|]. rewrite Hq. apply Hq1.
Qed.

Lemma send_puts U a l outs : forall st,
  (forall k q, In (k, q) outs -> k = q /\ In q U) -> In a U -> dv_only U st ->
  heap (fold_left (fun st' (dq : address * address) =>
                     queue_put (snd dq) (DVPacket a (fst dq) l) st') outs st)
  = heap st
  /\ dv_only U (fold_left (fun st' (dq : address * address) =>
                             queue_put (snd dq) (DVPacket a (fst dq) l) st') outs st).
Proof.
  induction outs as [|[k q] outs IH]; intros st Hout Ha Hdv; cbn [fold_left]; [auto|].
  destruct (IH (queue_put q (DVPacket a k l) st)) as [Hh Hd]; auto.
  - intros k' q' Hin. apply Hout. now right.
  - intros q' p. rewrite queue_contents_put.
    destruct (String.eqb_spec q' q) as [->|Hne]; [|apply Hdv].
    intros Hin. apply in_app_or in Hin as [Hin|[<-|[]]]; [now apply Hdv|].
    rewrite <- (proj1 (Hout k q (or_introl eq_refl))). eauto.
Qed.

Lemma Router_send_dv_ok U r st :
  wired U r -> dv_only U st ->
  fst (Router_send_dv r st) = after_send r
  /\ heap (snd (Router_send_dv r st)) = heap st
  /\ dv_only U (snd (Router_send_dv r st)).
Proof.
  intros (Hin & Ha & Hout) Hdv. unfold Router_send_dv, after_send.
  destruct (converged r =? 0); cbn [fst snd]; [auto|].
  split; [reflexivity|]. now apply send_puts.
Qed.

Lemma after_send_measure U C h r :
  0 <= converged r ->
  (router_measure U C h (after_send r) <= router_measure U C h r)%nat
  /\ (converged r <> 0 ->
      (router_measure U C h (after_send r) < router_measure U C h r)%nat)
  /\ 0 <= converged (after_send r).
Proof.
  intros Hc. unfold after_send, router_measure, dv_of.
  destruct (Z.eqb_spec (converged r) 0) as [Heq|Hne]; cbn [converged dv set_converged].
  - repeat split; auto; lia.
  - repeat split; lia.
Qed.

Lemma send_sweep U C : forall rs st,
  net_ok U C rs st ->
  exists st',
    each_router Router_send_dv rs st = (all_sent rs, st')
    /\ heap st' = heap st
    /\ net_ok U C (all_sent rs) st'.
Proof.
  induction rs as [|[a r] rs IH]; intros st Hok.
  - exists st. cbn. split; [reflexivity|]. split; [reflexivity|exact Hok].
  - destruct Hok as (Hnd & Hwire & Hheap & Hdv).
    cbn [map snd] in Hnd. inversion Hnd as [|? ? Hfresh Hnd']; subst.
    destruct (Hwire a r (or_introl eq_refl)) as [Hw Hc].
    destruct (Router_send_dv_ok U r st Hw Hdv) as (Hr1 & Hh1 & Hdv1).
    destruct (Router_send_dv r st) as [r1 st1] eqn:Hsend. cbn [fst snd] in *.
    assert (Hok1 : net_ok U C rs st1).
    { split; [assumption|]. split; [intros a' r' Hin; apply (Hwire a' r'); now right|].
      split; [now rewrite Hh1|assumption]. }
    destruct (IH st1 Hok1) as (st2 & Hrun2 & Hh2 & Hok2).
    exists st2. cbn [each_router]. rewrite Hsend, Hrun2.
    split; [cbn; now rewrite Hr1|]. split; [congruence|].
    destruct Hok2 as (Hnd2 & Hwire2 & Hheap2 & Hdvo2).
    assert (Hlocs : forall rs0, map (fun ar : address * Router => dv (snd ar)) (all_sent rs0)
                                = map (fun ar : address * Router => dv (snd ar)) rs0).
    { intros rs0. unfold all_sent. rewrite map_map. apply map_ext.
      intros [a0 r0]. cbn [fst snd]. unfold after_send.
      now destruct (converged r0 =? 0). }
    split; [|split; [|split]]; try assumption.
    + rewrite Hlocs. cbn [map snd]. now constructor.
    + intros a' r' [[= <- <-]|Hin]; [|eauto].
      split; [|now apply (after_send_measure U C (heap st) r)].
      unfold after_send. now destruct (converged r =? 0).
Qed.

Lemma all_sent_measure U C h : forall rs,
  (forall a r, In (a, r) rs -> 0 <= converged r) ->
  (net_measure U C (all_sent rs) h <= net_measure U C rs h)%nat
  /\ (forallb (fun ar : address * Router => converged (snd ar) =? 0) rs = false ->
      (net_measure U C (all_sent rs) h < net_measure U C rs h)%nat).
Proof.
  induction rs as [|[a r] rs IH]; intros Hc; [split; [auto|discriminate]|].
  destruct IH as [Hle Hlt]; [intros; eapply Hc; right; eauto|].
  destruct (after_send_measure U C h r (Hc a r (or_introl eq_refl))) as (Hr & Hrlt & _).
  unfold net_measure in *. cbn [all_sent map fst snd forallb].
  fold (all_sent rs). rewrite !list_sum_cons. split; [lia|].
  destruct (Z.eqb_spec (converged r) 0) as [Heq|Hne]; cbn [andb]; intros Hst.
  - specialize (Hlt Hst). lia.
  - specialize (Hrlt Hne). lia.
Qed.

(** *** Fuel *)

Lemma Router_route_mono fuel : forall self st x,
  Router_route fuel self st = Ok x ->
  forall fuel', (fuel <= fuel')%nat -> Router_route fuel' self st = Ok x.
Proof.
  induction fuel as [|fuel IH]; intros self st x Hrun fuel' Hle;
    destruct fuel' as [|fuel']; try lia;
    cbn [Router_route] in *;
    destruct (queue_contents (queues st) (in_queue self)) as [|p rest];
    try assumption; try discriminate.
  destruct (route_packet self p _) as [[r1 st1]| |]; cbn [bind] in *;
    try discriminate.
  apply IH with (fuel' := fuel') in Hrun; [assumption|lia].
Qed.

Lemma each_router_r_mono fuel fuel' : (fuel <= fuel')%nat -> forall rs st x,
  each_router_r (Router_route fuel) rs st = Ok x ->
  each_router_r (Router_route fuel') rs st = Ok x.
Proof.
  intros Hle. induction rs as [|[a r] rs IH]; intros st x; cbn [each_router_r];
    [auto|].
  destruct (Router_route fuel r st) as [[r1 st1]| |] eqn:Hr; cbn [bind];
    try discriminate.
  rewrite (Router_route_mono fuel _ _ _ Hr fuel' Hle). cbn [bind].
  destruct (each_router_r (Router_route fuel) rs st1) as [[rs2 st2]| |] eqn:Hrs;
    cbn [bind]; try discriminate.
  now rewrite (IH _ _ Hrs).
Qed.

Lemma step_mono fuel fuel' net net' :
  (fuel <= fuel')%nat -> step fuel net = Ok net' -> step fuel' net = Ok net'.
Proof.
  intros Hle. unfold step, Network_route.
  destruct (each_router_r (Router_route fuel) _ _) as [[rs st]| |] eqn:Hsweep;
    cbn [bind]; try discriminate.
  now rewrite (each_router_r_mono fuel fuel' Hle _ _ _ Hsweep).
Qed.

Lemma run_loop_mono n : forall fuel net steps x,
  run_loop n fuel net steps = Ok x ->
  forall n' fuel', (n <= n')%nat -> (fuel <= fuel')%nat ->
  run_loop n' fuel' net steps = Ok x.
Proof.
  induction n as [|n IH]; intros fuel net steps x Hrun n' fuel' Hn Hf;
    destruct n' as [|n']; try lia; cbn [run_loop] in *;
    destruct (is_stable net); try assumption; try discriminate.
  destruct (step fuel net) as [net1| |] eqn:Hstep; cbn [bind] in *; try discriminate.
  rewrite (step_mono fuel fuel' net net1 Hf Hstep). cbn [bind].
  apply IH with (fuel := fuel); auto. lia.
Qed.

(** *** A round of advertisements lowers the measure *)

Lemma pending_bound qs q : (List.length (queue_contents qs q) <= pending qs)%nat.
Proof.
  unfold queue_contents, pending.
  induction qs as [|[q' ps] qs IH]; cbn [dict_get map snd]; [simpl; lia|].
  rewrite list_sum_cons. destruct (keqb q q'); [lia|].
  destruct (dict_get q qs); simpl in *; lia.
Qed.

Lemma round_lowers U C net :
  network_ok U C net -> inf <= C ->
  exists fuel net',
    step fuel net = Ok net'
    /\ network_ok U C net'
    /\ (is_stable net = false -> (measure U C net' < measure U C net)%nat).
Proof.
  intros Hok HC. unfold step, Network_send_dv, Network_route, network_ok in *.
  destruct (send_sweep U C _ _ Hok) as (st1 & Hsend & Hh1 & Hok1).
  rewrite Hsend. cbn [routers store].
  destruct (route_sweep U C (pending (queues st1)) _ _ Hok1 HC)
    as (rs2 & st2 & Hroute & Hok2 & Hm2 & _); [intros q; apply pending_bound|].
  exists (pending (queues st1)), (mkNetwork rs2 st2).
  rewrite Hroute. cbn [bind]. split; [reflexivity|]. split; [exact Hok2|].
  intros Hst. unfold measure. cbn [routers store].
  destruct (all_sent_measure U C (heap (store net)) (routers net)) as [_ Hlt].
  { intros a r Hin. now apply (proj1 (proj2 Hok) a r). }
  specialize (Hlt Hst). rewrite Hh1 in Hm2. lia.
Qed.

Lemma run_loop_terminates U C : inf <= C -> forall m net steps,
  network_ok U C net -> (measure U C net <= m)%nat ->
  exists n fuel k net',
    run_loop n fuel net steps = Ok ((steps + k)%nat, net') /\ is_stable net' = true.
Proof.
  intros HC.
  assert (Hstable : forall net steps, is_stable net = true ->
            exists n fuel k net',
              run_loop n fuel net steps = Ok ((steps + k)%nat, net')
              /\ is_stable net' = true).
  { intros net steps Hst. exists 0%nat, 0%nat, 0%nat, net.
    cbn [run_loop]. rewrite Hst, Nat.add_0_r. auto. }
  induction m as [|m IH]; intros net steps Hok Hm;
    destruct (is_stable net) eqn:Hst; auto;
    destruct (round_lowers U C net Hok HC) as (f0 & net1 & Hstep & Hok1 & Hlt);
    specialize (Hlt Hst); [lia|].
  destruct (IH net1 (S steps) Hok1) as (n1 & f1 & k1 & net' & Hrun & Hst'); [lia|].
  exists (S n1), (Nat.max f0 f1), (S k1), net'. split; [|assumption].
  cbn [run_loop]. rewrite Hst.
  rewrite (step_mono f0 (Nat.max f0 f1) net net1) by (auto; lia). cbn [bind].
  rewrite (run_loop_mono n1 f1 net1 (S steps) _ Hrun n1 (Nat.max f0 f1)) by lia.
  now rewrite Nat.add_succ_r.
Qed.

(** *** The network [Network.__init__] builds *)

Lemma cost_cap_inf edges : inf <= cost_cap edges.
Proof.
  unfold cost_cap. induction edges as [|e edges IH]; cbn [fold_right]; lia.
Qed.

Lemma cost_cap_edge edges e : In e edges -> snd e <= cost_cap edges.
Proof.
  unfold cost_cap. induction edges as [|e0 edges IH]; [contradiction|].
  cbn [fold_right]. intros [->|Hin]; [lia|]. specialize (IH Hin). lia.
Qed.

(** The vector [reset] builds from the link costs of router [a] *)
Lemma reset_vector_sound U edges a :
  (forall x, endpoint x edges -> In x U) ->
  (forall e, In e edges -> 0 <= snd e) ->
  sound U (cost_cap edges)
    (dict_of_list (map (fun dc : address * Z => (fst dc, (fst dc, snd dc)))
                       (links_from a (fun _ c => c) (link_costs edges)))).
Proof.
  intros Hend Hpos.
  assert (Hentry : forall k e,
    dict_get k (dict_of_list (map (fun dc : address * Z => (fst dc, (fst dc, snd dc)))
                       (links_from a (fun _ c => c) (link_costs edges)))) = Some e ->
    exists c, In (a, k, c) edges /\ e = (k, c)).
  { intros k e Hk. apply dict_get_In, In_dict_of_list in Hk.
    apply in_map_iff in Hk as [[k' c] [Heq Hin]]. cbn [fst snd] in Heq.
    injection Heq as -> <-.
    apply In_links_from in Hin as (c' & Hin & ->).
    apply In_link_costs in Hin. eauto. }
  split; [apply NoDup_dict_of_list|]. split; [|split].
  - intros k e Hk. destruct (Hentry k e Hk) as (c & Hin & ->).
    apply (Hpos _ Hin).
  - intros k e Hk. destruct (Hentry k e Hk) as (c & Hin & ->).
    apply (cost_cap_edge _ _ Hin).
  - intros k Hk. apply dict_mem_true in Hk as [e Hk].
    destruct (Hentry k e Hk) as (c & Hin & ->).
    apply Hend. exists (a, k, c). split; [assumption|]. now right.
Qed.

Lemma locs_dict_set a r (rs : dict address Router) :
  NoDup (locs rs) -> ~ In (dv r) (locs rs) ->
  NoDup (locs (dict_set a r rs))
  /\ forall l, In l (locs (dict_set a r rs)) -> l = dv r \/ In l (locs rs).
Proof.
  unfold locs. induction rs as [|[a0 r0] rs IH]; cbn [dict_set map snd]; intros Hnd Hfresh.
  - split; [repeat constructor; simpl; tauto|]. intros l [<-|[]]. now left.
  - inversion Hnd as [|? ? Hr0 Hnd']; subst.
    destruct (keqb a a0); cbn [map snd].
    + split.
      * constructor; [|assumption]. intros Hin. apply Hfresh. now right.
      * intros l [<-|Hin]; [now left|now right; right].
    + destruct IH as [IHnd IHin]; [assumption|intros Hin; apply Hfresh; now right|].
      split.
      * constructor; [|assumption]. intros Hin.
        destruct (IHin _ Hin) as [Heq|Hin']; [|contradiction].
        apply Hfresh. left. congruence.
      * intros l [<-|Hin]; [now right; left|].
        destruct (IHin _ Hin); [now left|now right; right].
Qed.

Lemma make_routers_built U edges :
  (forall x, endpoint x edges -> In x U) ->
  (forall e, In e edges -> 0 <= snd e) ->
  forall addrs rs st,
    (forall a, In a addrs -> In a U) ->
    built U (cost_cap edges) rs st ->
    built U (cost_cap edges) (fst (make_routers (link_costs edges) addrs rs st))
                             (snd (make_routers (link_costs edges) addrs rs st)).
Proof.
  intros Hend Hpos. induction addrs as [|a addrs IH]; intros rs st HU Hb;
    cbn [make_routers]; [exact Hb|].
  unfold Router_init, Router_reset.
  cbn [costs in_queue set_converged set_dv addr out_queues dv].
  apply IH; [intros; apply HU; now right|].
  destruct Hb as (Hnd & Halloc & Hwire & Hheap & Hqs).
  set (l := heap_fresh (heap st)).
  set (r := mkRouter a (links_from a (fun _ c => c) (link_costs edges)) a
                     (links_from a (fun dst _ => dst) (link_costs edges)) l 2).
  assert (Hfresh : ~ In l (locs rs)).
  { intros Hin. apply Halloc in Hin. unfold l in Hin.
    now rewrite heap_fresh_new in Hin. }
  destruct (locs_dict_set a r rs Hnd Hfresh) as [Hnd' Hin'].
  split; [assumption|]. split; [|split; [|split]].
  - intros l' Hl'. cbn [heap set_queue set_heap]. unfold heap_store.
    rewrite dict_mem_set. destruct (Hin' _ Hl') as [->|Hold].
    + cbn [dv r keqb EqKey_nat]. now rewrite Nat.eqb_refl.
    + rewrite (Halloc _ Hold). apply orb_true_r.
  - intros a' r' Hin. apply In_dict_set in Hin as [[= -> ->]|Hin]; [|eauto].
    split; [|cbn; lia]. split; [reflexivity|]. split; [apply HU; now left|].
    intros k q Hkq. cbn [out_queues r] in Hkq.
    apply In_links_from in Hkq as (c & Hin & ->). split; [reflexivity|].
    apply In_link_costs in Hin. apply Hend. exists (a, k, c).
    split; [assumption|]. now right.
  - intros l'. cbn [heap set_queue set_heap]. rewrite deref_store.
    destruct (Nat.eqb l' l); [|apply Hheap].
    now apply reset_vector_sound.
  - intros q. cbn [queues set_queue set_heap]. rewrite queue_contents_set.
    destruct (String.eqb q a); auto.
Qed.

Lemma Network_init_ok addrs edges :
  (forall x, endpoint x edges -> In x addrs) ->
  (forall e, In e edges -> 0 <= snd e) ->
  network_ok addrs (cost_cap edges) (Network_init addrs edges).
Proof.
  intros Hend Hpos. unfold network_ok, Network_init.
  pose proof (cost_cap_inf edges) as HC.
  set (qs := dict_of_list (map (fun a => (a, @nil Packet)) addrs)).
  assert (Hb0 : built addrs (cost_cap edges) [] (mkStore [] qs [])).
  { split; [constructor|]. split; [intros l []|]. split; [intros a r []|].
    split; [intros l; apply sound_empty; unfold inf in HC; lia|].
    intros q. cbn [queues]. unfold queue_contents.
    destruct (dict_get q qs) as [ps|] eqn:Hq; [|reflexivity].
    apply dict_get_In, In_dict_of_list, in_map_iff in Hq as [a [[= _ <-] _]].
    reflexivity. }
  pose proof (make_routers_built addrs edges Hend Hpos addrs [] _ (fun a Ha => Ha) Hb0)
    as Hb.
  destruct (make_routers (link_costs edges) addrs [] (mkStore [] qs [])) as [rs st].
  cbn [fst snd routers store] in *.
  destruct Hb as (Hnd & _ & Hwire & Hheap & Hqs).
  split; [exact Hnd|]. split; [exact Hwire|]. split; [exact Hheap|].
  intros q p Hp. rewrite Hqs in Hp. contradiction.
Qed.

(** *** Termination *)

(** C3: for every topology with non-negative link costs, and every order in
    which the set of addresses is visited, [run_until_converged] on the
    network just built returns a step count, leaving a stable network; any
    larger iteration budget gives the same result. *)
Theorem run_until_converged_terminates (addrs : list address) (edges : topology) :
  (forall a, endpoint a edges -> In a addrs) ->
  (forall e, In e edges -> 0 <= snd e) ->
  exists fuel steps net',
    is_stable net' = true
    /\ forall fuel', (fuel <= fuel')%nat ->
         run_until_converged fuel' (Network_init addrs edges) = Ok (steps, net').
Proof.
  intros Hend Hpos.
  pose proof (Network_init_ok addrs edges Hend Hpos) as Hok.
  destruct (run_loop_terminates addrs (cost_cap edges) (cost_cap_inf edges)
              _ (Network_init addrs edges) 0%nat Hok (le_n _))
    as (n & f & k & net' & Hrun & Hst).
  exists (Nat.max n f), k, net'. split; [assumption|].
  intros fuel' Hle. unfold run_until_converged.
  apply (run_loop_mono n f _ _ _ Hrun); lia.
Qed.

Lemma run_until_converged_terminates_witness :
  run_until_converged 3 Line.net0 = Ok (3%nat, Line.settled)
  /\ exists fuel steps net',
       is_stable net' = true
       /\ forall fuel', (fuel <= fuel')%nat ->
            run_until_converged fuel' Line.net0 = Ok (steps, net').
Proof.
  split; [vm_compute; reflexivity|].
  apply (run_until_converged_terminates ["A"; "B"; "C"]%string Line.edges).
  - intros a [e [Hin Ha]]. simpl in Hin.
    destruct Hin as [<-|[<-|[<-|[<-|[]]]]]; simpl in Ha; destruct Ha as [->| ->];
      simpl; tauto.
  - intros e Hin. simpl in Hin.
    destruct Hin as [<-|[<-|[<-|[<-|[]]]]]; simpl; lia.
Defined.

(* ================================================================= *)
(** ** Checking a topology *)

Lemma edges_nonneg_b (edges : topology) :
  forallb (fun e : address * address * Z => 0 <=? snd e) edges = true ->
  forall e, In e edges -> 0 <= snd e.
Proof.
  intros H e Hin. rewrite forallb_forall in H. specialize (H _ Hin). lia.
Qed.

Lemma edges_symmetric_b (edges : topology) :
  forallb (fun e : address * address * Z =>
             existsb (fun e' : address * address * Z =>
                        String.eqb (fst (fst e')) (snd (fst e))
                        && String.eqb (snd (fst e')) (fst (fst e))) edges) edges = true ->
  forall s d c, In (s, d, c) edges -> exists c', In (d, s, c') edges.
Proof.
  intros H s d c Hin. rewrite forallb_forall in H. specialize (H _ Hin).
  apply existsb_exists in H as ([[s' d'] c'] & Hin' & Heq). cbn [fst snd] in Heq.
  apply andb_true_iff in Heq as [E1 E2].
  apply String.eqb_eq in E1, E2. subst. eauto.
Qed.

Lemma endpoints_b (addrs : list address) (edges : topology) :
  forallb (fun e : address * address * Z =>
             existsb (String.eqb (fst (fst e))) addrs
             && existsb (String.eqb (snd (fst e))) addrs) edges = true ->
  forall a, endpoint a edges -> In a addrs.
Proof.
  intros H a (e & Hin & Ha). rewrite forallb_forall in H. specialize (H _ Hin).
  apply andb_true_iff in H as [H1 H2].
  apply existsb_exists in H1 as (x1 & Hx1 & E1). apply String.eqb_eq in E1.
  apply existsb_exists in H2 as (x2 & Hx2 & E2). apply String.eqb_eq in E2.
  destruct Ha as [-> | ->]; [rewrite E1|rewrite E2]; assumption.
Qed.

Lemma Line_reachable : clos_refl_trans Network operation Line.net0 Line.settled.
Proof.
  apply rt_step. apply op_run with (fuel := 3%nat) (steps := 3%nat). reflexivity.
Qed.

(* ================================================================= *)
(** ** What [send_dv] puts on the queues *)

Lemma send_fold_spec a l outs : forall st,
  let st' := fold_left (fun st' (dq : address * address) =>
                          queue_put (snd dq) (DVPacket a (fst dq) l) st') outs st in
  heap st' = heap st /\ log st' = log st
  /\ forall q, queue_contents (queues st') q
               = queue_contents (queues st) q
                 ++ map (fun dq : address * address => DVPacket a (fst dq) l)
                        (filter (fun dq : address * address => String.eqb (snd dq) q) outs).
Proof.
  induction outs as [|[k q0] outs IH]; intros st; cbn [fold_left fst snd].
  - repeat split. intros q. cbn. now rewrite app_nil_r.
  - destruct (IH (queue_put q0 (DVPacket a k l) st)) as (Hh & Hl & Hq).
    cbn zeta in *. rewrite Hh, Hl. repeat split.
    intros q. rewrite Hq, queue_contents_put. cbn [filter snd fst].
    rewrite (String.eqb_sym q0 q).
    destruct (String.eqb_spec q q0) as [->|Hne]; cbn [map].
    + now rewrite <- app_assoc.
    + reflexivity.
Qed.

Lemma Router_send_dv_spec (self : Router) (st : Store) :
  fst (Router_send_dv self st) = after_send self
  /\ heap (snd (Router_send_dv self st)) = heap st
  /\ log (snd (Router_send_dv self st)) = log st
  /\ forall q,
       queue_contents (queues (snd (Router_send_dv self st))) q
       = queue_contents (queues st) q
         ++ (if converged self =? 0 then [] else sent_to self q).
Proof.
  unfold Router_send_dv, after_send.
  destruct (converged self =? 0); cbn [fst snd].
  - repeat split. intros q. now rewrite app_nil_r.
  - destruct (send_fold_spec (addr self) (dv self) (out_queues self) st) as (Hh & Hl & Hq).
    cbn zeta in *. repeat split; auto.
Qed.

(** X1: [Router.send_dv] on any router and any store.  The router comes
    back with its counter one lower, or as it was when the counter was 0; no
    dict changes and nothing is printed; and every queue holds what it held,
    followed by the packets sent to it: none when the counter was 0, and
    otherwise one [DVPacket] for each channel of the router that leads to the
    queue, in dict order, each holding the reference to the router's own
    dict. *)
Theorem send_dv_enqueues (self : Router) (st : Store) :
  fst (Router_send_dv self st) = after_send self
  /\ heap (snd (Router_send_dv self st)) = heap st
  /\ log (snd (Router_send_dv self st)) = log st
  /\ forall q,
       queue_contents (queues (snd (Router_send_dv self st))) q
       = queue_contents (queues st) q
         ++ (if converged self =? 0 then [] else sent_to self q).
Proof. exact (Router_send_dv_spec self st). Qed.

Lemma In_sent_to r q p :
  In p (sent_to r q) ->
  exists k, p = DVPacket (addr r) k (dv r) /\ In (k, q) (out_queues r).
Proof.
  unfold sent_to. intros Hin. apply in_map_iff in Hin as ([k q'] & <- & Hin).
  apply filter_In in Hin as [Hin Hq]. cbn [fst snd] in *.
  apply String.eqb_eq in Hq. subst q'. eauto.
Qed.

Lemma sent_to_In r x :
  In (x, x) (out_queues r) -> In (DVPacket (addr r) x (dv r)) (sent_to r x).
Proof.
  intros Hin. unfold sent_to.
  apply in_map_iff. exists (x, x). split; [reflexivity|].
  apply filter_In. split; [assumption|apply String.eqb_refl].
Qed.

(* ================================================================= *)
(** ** Sweeps over the routers, one router at a time *)

Lemma each_router_Forall2 (m : Router -> Store -> Router * Store)
  (R : Router -> Router -> Prop) :
  (forall r st, R r (fst (m r st))) ->
  forall rs st,
    Forall2 (fun ar ar' : address * Router => fst ar' = fst ar /\ R (snd ar) (snd ar'))
            rs (fst (each_router m rs st)).
Proof.
  intros Hm. induction rs as [|[a r] rs IH]; intros st; cbn [each_router].
  - constructor.
  - specialize (Hm r st). destruct (m r st) as [r' st1].
    specialize (IH st1). destruct (each_router m rs st1) as [rs' st2].
    cbn [fst] in *. constructor; [split; auto|assumption].
Qed.

Lemma each_router_r_Forall2 (m : Router -> Store -> result (Router * Store))
  (R : Router -> Router -> Prop) :
  (forall r st r' st', m r st = Ok (r', st') -> R r r') ->
  forall rs st rs' st',
    each_router_r m rs st = Ok (rs', st') ->
    Forall2 (fun ar ar' : address * Router => fst ar' = fst ar /\ R (snd ar) (snd ar'))
            rs rs'.
Proof.
  intros Hm. induction rs as [|[a r] rs IH]; intros st rs' st'; cbn [each_router_r].
  - intros [= <- <-]. constructor.
  - destruct (m r st) as [[r1 st1]| |] eqn:Hr; cbn [bind]; try discriminate.
    destruct (each_router_r m rs st1) as [[rs1 st2]| |] eqn:Hrs; cbn [bind];
      try discriminate.
    intros [= <- <-]. constructor; [split; eauto|eauto].
Qed.

Lemma Forall2_dict_get {X Y : Type} (R : X -> Y -> Prop)
  (xs : dict address X) (ys : dict address Y) :
  Forall2 (fun ax ay => fst ay = fst ax /\ R (snd ax) (snd ay)) xs ys ->
  forall a,
    match dict_get a xs, dict_get a ys with
    | Some x, Some y => R x y
    | None, None => True
    | _, _ => False
    end.
Proof.
  induction 1 as [|[a1 x] [a2 y] xs ys [Hk HR] _ IH]; intros a; cbn [dict_get].
  - exact I.
  - cbn [fst snd] in *. subst a2. cbn [keqb EqKey_string].
    destruct (String.eqb a a1); [assumption|apply IH].
Qed.

Lemma Forall2_In_r {X Y : Type} (R : X -> Y -> Prop) xs ys :
  Forall2 R xs ys -> forall y, In y ys -> exists x, In x xs /\ R x y.
Proof.
  induction 1 as [|x y0 xs ys HR _ IH]; intros y; cbn [In]; [tauto|].
  intros [<-|Hin]; [eauto|]. destruct (IH _ Hin) as (x' & Hx & HR'). eauto.
Qed.

Lemma Forall2_In_l {X Y : Type} (R : X -> Y -> Prop) xs ys :
  Forall2 R xs ys -> forall x, In x xs -> exists y, In y ys /\ R x y.
Proof.
  induction 1 as [|x0 y xs ys HR _ IH]; intros x; cbn [In]; [tauto|].
  intros [<-|Hin]; [eauto|]. destruct (IH _ Hin) as (y' & Hy & HR'). eauto.
Qed.

Lemma Forall2_keys {V W : Type} (R : address * V -> address * W -> Prop)
  (d : dict address V) (d' : dict address W) :
  (forall x y, R x y -> fst y = fst x) -> Forall2 R d d' -> dict_keys d' = dict_keys d.
Proof.
  intros HR H. induction H as [|x y d d' Hxy _ IH]; [reflexivity|].
  unfold dict_keys in *. cbn [map]. now rewrite IH, (HR _ _ Hxy).
Qed.

Lemma same_wiring_refl rs : same_wiring rs rs.
Proof.
  induction rs as [|[a r] rs IH]; constructor; [|assumption].
  split; [reflexivity|]. exists (converged r). cbn [snd]. now destruct r.
Qed.

Lemma same_wiring_trans rs1 rs2 rs3 :
  same_wiring rs1 rs2 -> same_wiring rs2 rs3 -> same_wiring rs1 rs3.
Proof.
  intros H12. revert rs3.
  induction H12 as [|x y xs ys [Hk [c Hc]] _ IH]; intros rs3 H23;
    inversion H23 as [|? z ? zs [Hk' [c' Hc']] Hrest]; subst; constructor.
  - split; [congruence|]. exists c'. rewrite Hc', Hc. apply set_converged_twice.
  - now apply IH.
Qed.

(* ================================================================= *)
(** ** The counter and the wiring under the operations *)

Lemma update_dv_counter self src tbl h self' h' :
  update_dv self src tbl h = Ok (self', h') ->
  exists c, self' = set_converged c self /\ (c = converged self \/ c = 2).
Proof.
  intros Hu. apply update_dv_inv in Hu as (d2 & c2 & d4 & c4 & Hl & Hr & -> & _).
  apply learn_loop_refines with (a := addr self) in Hl as [_ Hc2].
  apply relax_loop_refines in Hr as [_ Hc4].
  exists c4. split; [reflexivity|].
  destruct Hc4 as [->|[-> _]]; [|now right].
  destruct Hc2 as [->|[-> _]]; [now left|now right].
Qed.

Lemma route_packet_counter self p st self' st' :
  route_packet self p st = Ok (self', st') ->
  exists c, self' = set_converged c self /\ (c = converged self \/ c = 2).
Proof.
  assert (Hsame : exists c, self = set_converged c self /\ (c = converged self \/ c = 2)).
  { exists (converged self). split; [now rewrite set_converged_same|now left]. }
  unfold route_packet.
  destruct (String.eqb (pkt_dst p) (addr self)).
  - destruct p as [s d t|s d m]; cbn [read_packet].
    + destruct (update_dv self s t _) as [[r1 h1]| |] eqn:Hu; cbn [bind]; try discriminate.
      intros [= <- <-]. eapply update_dv_counter; eauto.
    + now intros [= <- <-].
  - destruct (dict_get (pkt_dst p) _) as [e|].
    + destruct (dict_get (next_hop_of e) _); [|discriminate]. now intros [= <- <-].
    + now intros [= <- <-].
Qed.

Lemma Router_route_counter fuel : forall self st self' st',
  Router_route fuel self st = Ok (self', st') ->
  exists c, self' = set_converged c self /\ (c = converged self \/ c = 2).
Proof.
  induction fuel as [|fuel IH]; intros self st self' st'; cbn [Router_route];
    destruct (queue_contents (queues st) (in_queue self)) as [|p rest];
    try discriminate;
    try (intros [= <- <-]; exists (converged self);
         split; [now rewrite set_converged_same|now left]).
  destruct (route_packet self p _) as [[r1 st1]| |] eqn:Hp; cbn [bind]; try discriminate.
  intros Hr. apply route_packet_counter in Hp as (c1 & -> & Hc1).
  apply IH in Hr as (c & -> & Hc). exists c.
  split; [apply set_converged_twice|].
  cbn [converged set_converged] in Hc. destruct Hc as [-> | ->]; auto.
Qed.

Lemma send_sweep_all_sent : forall rs st,
  fst (each_router Router_send_dv rs st) = all_sent rs.
Proof.
  induction rs as [|[a r] rs IH]; intros st; cbn [each_router all_sent map]; auto.
  destruct (Router_send_dv r st) as [r' st1] eqn:Hr.
  specialize (IH st1). destruct (each_router Router_send_dv rs st1) as [rs' st2].
  cbn [fst snd] in *. subst rs'. f_equal. f_equal.
  change r' with (fst (r', st1)). rewrite <- Hr. apply Router_send_dv_spec.
Qed.

Lemma after_send_wiring r : exists c, after_send r = set_converged c r.
Proof.
  unfold after_send. destruct (converged r =? 0); eauto.
  exists (converged r). now rewrite set_converged_same.
Qed.

Lemma all_sent_wiring rs : same_wiring rs (all_sent rs).
Proof.
  induction rs as [|[a r] rs IH]; constructor; [|assumption].
  split; [reflexivity|]. apply after_send_wiring.
Qed.

Lemma route_sweep_wiring fuel rs st rs' st' :
  each_router_r (Router_route fuel) rs st = Ok (rs', st') -> same_wiring rs rs'.
Proof.
  apply (each_router_r_Forall2 (Router_route fuel)
           (fun r r' => exists c, r' = set_converged c r)).
  intros r s r' s' Hr. apply Router_route_counter in Hr as (c & -> & _). eauto.
Qed.

Lemma step_wiring fuel net net' :
  step fuel net = Ok net' -> same_wiring (routers net) (routers net').
Proof.
  unfold step, Network_route, Network_send_dv.
  pose proof (send_sweep_all_sent (routers net) (store net)) as Hs.
  destruct (each_router Router_send_dv (routers net) (store net)) as [rs1 st1].
  cbn [fst routers store] in *. subst rs1.
  destruct (each_router_r _ _ _) as [[rs2 st2]| |] eqn:Hr; cbn [bind]; try discriminate.
  intros [= <-]. cbn [routers].
  eapply same_wiring_trans; [apply all_sent_wiring|].
  eapply route_sweep_wiring; eauto.
Qed.

Lemma run_loop_wiring n : forall fuel net steps steps' net',
  run_loop n fuel net steps = Ok (steps', net') ->
  same_wiring (routers net) (routers net').
Proof.
  induction n as [|n IH]; intros fuel net steps steps' net'; cbn [run_loop];
    destruct (is_stable net); try discriminate;
    try (intros [= _ <-]; apply same_wiring_refl).
  destruct (step fuel net) as [net1| |] eqn:Hs; cbn [bind]; try discriminate.
  intros Hr. eapply same_wiring_trans; [eapply step_wiring; eauto|eauto].
Qed.

Lemma operation_wiring net net' :
  operation net net' -> same_wiring (routers net) (routers net').
Proof.
  intros [n|fuel n n' H|fuel n n' H|fuel n k n' H|s d m n n' H].
  - unfold Network_send_dv.
    pose proof (send_sweep_all_sent (routers n) (store n)) as Hs.
    destruct (each_router Router_send_dv (routers n) (store n)) as [rs1 st1].
    cbn [fst routers] in *. subst. apply all_sent_wiring.
  - unfold Network_route in H.
    destruct (each_router_r _ _ _) as [[rs2 st2]| |] eqn:Hr; cbn [bind] in H;
      try discriminate.
    injection H as <-. eapply route_sweep_wiring; eauto.
  - eapply step_wiring; eauto.
  - eapply run_loop_wiring; eauto.
  - unfold send_message in H. destruct (dict_mem s _); [|discriminate].
    injection H as <-. apply same_wiring_refl.
Qed.

(** X2: on a stable network [Network.send_dv] changes nothing, neither a
    counter nor a queue, and the number of advertisements a round puts on
    the queues is 0. *)
Theorem stable_network_is_silent (net : Network) :
  is_stable net = true ->
  Network_send_dv net = net /\ advertisements (routers net) = 0%nat.
Proof.
  intros Hst. split; [now apply Network_send_dv_stable|].
  unfold advertisements, is_stable in *.
  induction (routers net) as [|[a r] rs IH]; cbn [map forallb snd] in *; [reflexivity|].
  apply andb_true_iff in Hst as [Hr Hrs]. rewrite Hr, list_sum_cons.
  now rewrite IH.
Qed.

Lemma stable_network_is_silent_witness :
  is_stable Line.settled = true /\ Network_send_dv Line.settled = Line.settled.
Proof.
  assert (H : is_stable Line.settled = true) by (vm_compute; reflexivity).
  split; [exact H|]. exact (proj1 (stable_network_is_silent Line.settled H)).
Defined.

(* ================================================================= *)
(** ** One router's [reset] *)

Lemma dict_mem_heap_store l l' d (h : dict loc DV) :
  dict_mem l' (heap_store l d h) = Nat.eqb l' l || dict_mem l' h.
Proof. unfold heap_store. now rewrite dict_mem_set. Qed.

Lemma Router_reset_spec self st :
  let l := heap_fresh (heap st) in
  fst (Router_reset self st) = set_converged 2 (set_dv l self)
  /\ heap (snd (Router_reset self st)) = heap_store l (link_vector (costs self)) (heap st)
  /\ log (snd (Router_reset self st)) = log st
  /\ forall q, queue_contents (queues (snd (Router_reset self st))) q
               = if String.eqb q (in_queue self) then []
                 else queue_contents (queues st) q.
Proof.
  cbn zeta. unfold Router_reset. cbn [fst snd heap log queues set_queue set_heap].
  repeat split. intros q. apply queue_contents_set.
Qed.

Lemma reset_sweep : forall rs st,
  let rs' := fst (each_router Router_reset rs st) in
  let st' := snd (each_router Router_reset rs st) in
  Forall2 (fun ar ar' : address * Router =>
             fst ar' = fst ar
             /\ snd ar' = set_converged 2 (set_dv (dv (snd ar')) (snd ar))
             /\ dv_of (snd ar') (heap st') = link_vector (costs (snd ar))) rs rs'
  /\ NoDup (locs rs')
  /\ (forall l, In l (locs rs') ->
        dict_mem l (heap st) = false /\ dict_mem l (heap st') = true)
  /\ (forall l, dict_mem l (heap st) = true ->
        dict_mem l (heap st') = true /\ deref (heap st') l = deref (heap st) l)
  /\ log st' = log st
  /\ forall q, queue_contents (queues st') q
               = if existsb (fun ar : address * Router => String.eqb q (in_queue (snd ar))) rs
                 then [] else queue_contents (queues st) q.
Proof.
  induction rs as [|[a r] rs IH]; intros st; cbn zeta; cbn [each_router].
  - cbn [fst snd locs map existsb]. repeat split; auto; try constructor;
      try tauto; try contradiction.
  - destruct (Router_reset_spec r st) as (Hr & Hh & Hl & Hq). cbn zeta in *.
    destruct (Router_reset r st) as [r1 st1]. cbn [fst snd] in *.
    specialize (IH st1). cbn zeta in IH.
    destruct (each_router Router_reset rs st1) as [rs2 st2]. cbn [fst snd] in *.
    destruct IH as (IH1 & IH2 & IH3 & IH4 & IH5 & IH6).
    assert (Hl0 : dict_mem (heap_fresh (heap st)) (heap st1) = true).
    { rewrite Hh, dict_mem_heap_store, Nat.eqb_refl. reflexivity. }
    assert (Hold : forall l, dict_mem l (heap st) = true ->
                     dict_mem l (heap st1) = true /\ deref (heap st1) l = deref (heap st) l).
    { intros l Hm. rewrite Hh, dict_mem_heap_store, Hm, orb_true_r. split; auto.
      apply deref_store_neq. intros <-. rewrite heap_fresh_new in Hm. discriminate. }
    assert (Hnew : forall l, dict_mem l (heap st1) = false -> dict_mem l (heap st) = false).
    { intros l Hm. destruct (dict_mem l (heap st)) eqn:E; auto.
      apply Hold in E as [E _]. congruence. }
    split; [|split; [|split; [|split; [|split]]]].
    + constructor; [|assumption]. cbn [fst snd]. split; [reflexivity|]. split.
      * rewrite Hr. reflexivity.
      * unfold dv_of. rewrite Hr. cbn [dv set_converged set_dv].
        destruct (IH4 _ Hl0) as [_ ->]. rewrite Hh. apply deref_store_eq.
    + cbn [locs map snd]. constructor; [|assumption].
      intros Hin. apply IH3 in Hin as [Hin _].
      rewrite Hr in Hin. cbn [dv set_converged set_dv] in Hin. congruence.
    + cbn [locs map snd]. intros l [<-|Hin].
      * rewrite Hr. cbn [dv set_converged set_dv]. split; [apply heap_fresh_new|].
        now apply IH4.
      * apply IH3 in Hin as [H1 H2]. auto.
    + intros l Hm. apply Hold in Hm as [Hm Hd]. apply IH4 in Hm as [Hm' Hd'].
      split; congruence.
    + congruence.
    + intros q. rewrite IH6, Hq. cbn [existsb snd].
      destruct (String.eqb q (in_queue r)); cbn [orb]; [|reflexivity].
      now destruct (existsb _ rs).
Qed.

(* ================================================================= *)
(** ** The network [Network.__init__] builds, entry by entry *)

Lemma link_costs_fold_get (edges : topology) s d : forall cs acc,
  dict_get (s, d) cs = acc ->
  dict_get (s, d)
    (fold_left (fun cs (e : address * address * Z) =>
                  dict_set (fst (fst e), snd (fst e)) (snd e) cs) edges cs)
  = fold_left (fun acc (e : address * address * Z) =>
                 if String.eqb (fst (fst e)) s && String.eqb (snd (fst e)) d
                 then Some (snd e) else acc) edges acc.
Proof.
  induction edges as [|[[s' d'] c] edges IH]; intros cs acc Hacc; cbn [fold_left fst snd].
  - assumption.
  - apply IH. rewrite dict_get_set. cbn [keqb EqKey_prod EqKey_string fst snd].
    rewrite (String.eqb_sym s' s), (String.eqb_sym d' d).
    destruct (String.eqb s s' && String.eqb d d'); auto.
Qed.

Lemma link_costs_get edges s d :
  dict_get (s, d) (link_costs edges) = listed_cost edges s d.
Proof. unfold link_costs, listed_cost. now apply link_costs_fold_get. Qed.

Lemma link_costs_NoDup edges : NoDup (dict_keys (link_costs edges)).
Proof.
  unfold link_costs.
  assert (H : forall cs : dict (address * address) Z, NoDup (dict_keys cs) ->
            NoDup (dict_keys (fold_left (fun cs (e : address * address * Z) =>
                     dict_set (fst (fst e), snd (fst e)) (snd e) cs) edges cs))).
  { induction edges as [|e edges IH]; intros cs Hnd; cbn [fold_left]; auto.
    apply IH. now apply NoDup_dict_set. }
  apply H. constructor.
Qed.

Lemma links_from_keys_NoDup a (cs : dict (address * address) Z) :
  NoDup (dict_keys cs) ->
  NoDup (map (fun kc : address * address * Z => snd (fst kc))
             (filter (fun kc : address * address * Z => String.eqb (fst (fst kc)) a) cs)).
Proof.
  induction cs as [|[[s d] c] cs IH]; cbn [dict_keys map filter fst snd]; intros Hnd.
  - constructor.
  - inversion Hnd as [|? ? Hnotin Hnd']; subst.
    destruct (String.eqb_spec s a) as [->|Hne]; [|now apply IH].
    cbn [map fst snd]. constructor; [|now apply IH].
    intros Hin. apply in_map_iff in Hin as [[[s' d'] c'] [Hd Hin]].
    cbn [fst snd] in Hd. subst d'.
    apply filter_In in Hin as [Hin Hs]. cbn [fst] in Hs.
    apply String.eqb_eq in Hs. subst s'.
    apply Hnotin. change (a, d) with (fst ((a, d), c')). now apply in_map.
Qed.

Lemma links_from_get {X : Type} a (f : address -> Z -> X)
  (cs : dict (address * address) Z) d :
  NoDup (dict_keys cs) ->
  dict_get d (links_from a f cs) = option_map (f d) (dict_get (a, d) cs).
Proof.
  intros Hnd. unfold links_from. rewrite dict_of_list_NoDup.
  - clear Hnd. induction cs as [|[[s t] c] cs IH]; cbn [filter map dict_get fst snd].
    + reflexivity.
    + cbn [keqb EqKey_prod EqKey_string fst snd].
      rewrite (String.eqb_sym s a).
      destruct (String.eqb_spec a s) as [->|Hne]; cbn [andb map dict_get fst snd].
      * cbn [keqb EqKey_string].
        destruct (String.eqb_spec d t) as [->|Hne]; [reflexivity|apply IH].
      * apply IH.
  - unfold dict_keys. rewrite map_map. cbn [fst].
    now apply links_from_keys_NoDup.
Qed.

Lemma links_from_NoDup {X : Type} a (f : address -> Z -> X)
  (cs : dict (address * address) Z) : NoDup (dict_keys (links_from a f cs)).
Proof. apply NoDup_dict_of_list. Qed.

Lemma link_vector_get (cs : dict address Z) k :
  NoDup (dict_keys cs) ->
  dict_get k (link_vector cs) = option_map (fun c => (k, c)) (dict_get k cs).
Proof.
  intros Hnd. unfold link_vector. rewrite dict_of_list_NoDup.
  - apply dict_get_reset_entries.
  - unfold dict_keys in *. rewrite map_map. exact Hnd.
Qed.

Lemma make_routers_as_built cs : forall addrs rs st,
  as_built cs rs st -> NoDup (dict_keys rs) ->
  let rs' := fst (make_routers cs addrs rs st) in
  let st' := snd (make_routers cs addrs rs st) in
  as_built cs rs' st' /\ NoDup (dict_keys rs') /\ log st' = log st
  /\ forall a, dict_mem a rs' = existsb (String.eqb a) addrs || dict_mem a rs.
Proof.
  induction addrs as [|a addrs IH]; intros rs st Hb Hnd; cbn zeta; cbn [make_routers].
  - cbn [fst snd existsb orb]. auto.
  - unfold Router_init.
    set (r0 := mkRouter a _ a _ 0%nat 0).
    destruct (Router_reset_spec r0 st) as (Hr & Hh & Hl & Hq). cbn zeta in *.
    destruct (Router_reset r0 st) as [r1 st1]. cbn [fst snd] in *.
    assert (Hb1 : as_built cs (dict_set a r1 rs) st1).
    { intros a' r' Hin. apply In_dict_set in Hin as [[= -> ->]|Hin].
      - rewrite Hr. cbn [dv costs set_converged set_dv r0]. split; [reflexivity|].
        rewrite Hh, dict_mem_heap_store, Nat.eqb_refl. split; [reflexivity|].
        apply deref_store_eq.
      - destruct (Hb _ _ Hin) as (E & Hm & Hd). split; [assumption|].
        rewrite Hh, dict_mem_heap_store, Hm, orb_true_r. split; [reflexivity|].
        rewrite deref_store_neq; [assumption|].
        intros E'. rewrite <- E', heap_fresh_new in Hm. discriminate. }
    specialize (IH (dict_set a r1 rs) st1 Hb1 (NoDup_dict_set _ _ _ Hnd)).
    cbn zeta in IH. destruct IH as (I1 & I2 & I3 & I4).
    split; [assumption|]. split; [assumption|]. split; [congruence|].
    intros a'. rewrite I4, dict_mem_set. cbn [existsb keqb EqKey_string].
    destruct (String.eqb a' a), (existsb (String.eqb a') addrs); reflexivity.
Qed.

Lemma Network_init_as_built addrs edges :
  let net := Network_init addrs edges in
  as_built (link_costs edges) (routers net) (store net)
  /\ NoDup (dict_keys (routers net))
  /\ log (store net) = []
  /\ forall a, dict_mem a (routers net) = existsb (String.eqb a) addrs.
Proof.
  cbn zeta. unfold Network_init.
  set (st0 := mkStore [] _ []).
  destruct (make_routers_as_built (link_costs edges) addrs [] st0) as (H1 & H2 & H3 & H4).
  { intros a r []. }
  { constructor. }
  destruct (make_routers (link_costs edges) addrs [] st0) as [rs st].
  cbn [fst snd routers store] in *.
  split; [assumption|]. split; [assumption|]. split; [assumption|].
  intros a. rewrite H4. cbn. apply orb_false_r.
Qed.

Lemma make_routers_queues cs : forall addrs rs st,
  (forall q, queue_contents (queues st) q = []) ->
  forall q, queue_contents (queues (snd (make_routers cs addrs rs st))) q = [].
Proof.
  induction addrs as [|a addrs IH]; intros rs st Hq; cbn [make_routers].
  - exact Hq.
  - unfold Router_init.
    set (r0 := mkRouter a _ a _ 0%nat 0).
    destruct (Router_reset_spec r0 st) as (_ & _ & _ & Hq1). cbn zeta in *.
    destruct (Router_reset r0 st) as [r1 st1]. cbn [fst snd] in *.
    apply IH. intros q. rewrite Hq1. now destruct (String.eqb q (in_queue r0)).
Qed.

Lemma Network_init_queues addrs edges q :
  queue_contents (queues (store (Network_init addrs edges))) q = [].
Proof.
  unfold Network_init.
  set (st0 := mkStore [] _ []).
  pose proof (make_routers_queues (link_costs edges) addrs [] st0) as H.
  destruct (make_routers (link_costs edges) addrs [] st0) as [rs st].
  cbn [fst snd routers store] in *. apply H. intros q'.
  unfold st0, queue_contents. cbn [queues].
  destruct (dict_get q' _) as [ps|] eqn:E; [|reflexivity].
  apply dict_get_In, In_dict_of_list, in_map_iff in E as (x & [= _ <-] & _).
  reflexivity.
Qed.

(** X3: the network [Network.__init__] builds from the lines [edges] of
    the topology file.  Every address [a] of the set has a router filed
    under it, with address [a], the queue named [a] as inbound queue and
    counter 2.  Its link cost to [d] is the cost of the last line of the file
    that names the pair [(a, d)], and there is none when no line does; it has
    a channel filed under [d], leading to the queue of [d], exactly for the
    [d] that have a link cost; and its vector has the entry [(d, cost)]
    exactly for those [d].  No router is filed under any other address,
    every queue is empty and nothing has been printed. *)
Theorem construction_state (addrs : list address) (edges : topology) (a : address) :
  In a addrs ->
  let net := Network_init addrs edges in
  exists r,
    dict_get a (routers net) = Some r
    /\ addr r = a /\ in_queue r = a /\ converged r = 2
    /\ (forall d, dict_get d (costs r) = listed_cost edges a d)
    /\ (forall d, dict_get d (out_queues r)
                  = option_map (fun _ => d) (listed_cost edges a d))
    /\ (forall d, dict_get d (vector_at a net)
                  = option_map (fun c => (d, c)) (listed_cost edges a d))
    /\ (forall b, dict_mem b (routers net) = existsb (String.eqb b) addrs)
    /\ (forall q, queue_contents (queues (store net)) q = [])
    /\ log (store net) = [].
Proof.
  intros Hin. cbn zeta.
  destruct (Network_init_as_built addrs edges) as (Hb & Hnd & Hlog & Hmem).
  cbn zeta in *.
  assert (Hm : dict_mem a (routers (Network_init addrs edges)) = true).
  { rewrite Hmem. apply existsb_exists. exists a. split; [assumption|apply String.eqb_refl]. }
  apply dict_mem_true in Hm as [r Hr]. exists r. split; [assumption|].
  destruct (Hb a r (dict_get_In _ _ _ Hr)) as (E & _ & Hd).
  assert (Hc : forall d, dict_get d (costs r) = listed_cost edges a d).
  { intros d. rewrite E. cbn [costs].
    rewrite links_from_get by apply link_costs_NoDup.
    rewrite link_costs_get. now destruct (listed_cost edges a d). }
  rewrite E at 1 2 3. cbn [addr in_queue converged].
  split; [reflexivity|]. split; [reflexivity|]. split; [reflexivity|].
  split; [assumption|]. split; [|split; [|split; [|split]]].
  - intros d. rewrite E. cbn [out_queues].
    rewrite links_from_get by apply link_costs_NoDup.
    rewrite link_costs_get. reflexivity.
  - intros d. unfold vector_at. rewrite Hr. unfold dv_of. rewrite Hd.
    rewrite link_vector_get, Hc; [reflexivity|].
    rewrite E. cbn [costs]. apply links_from_NoDup.
  - assumption.
  - apply Network_init_queues.
  - assumption.
Qed.

Lemma construction_state_witness :
  In "A"%string ["A"; "B"; "C"]%string
  /\ exists r,
       dict_get "A"%string (routers Line.net0) = Some r
       /\ dict_get "B"%string (vector_at "A"%string Line.net0) = Some ("B"%string, 1).
Proof.
  split; [now left|].
  destruct (construction_state ["A"; "B"; "C"]%string Line.edges "A"%string)
    as (r & Hr & _ & _ & _ & _ & _ & Hv & _); [now left|].
  exists r. split; [exact Hr|]. exact (Hv "B"%string).
Defined.

(* ================================================================= *)
(** ** [Network.reset] *)

Lemma Network_reset_spec (net : Network) :
  let net' := Network_reset net in
  Forall2 (fun ar ar' : address * Router =>
             fst ar' = fst ar
             /\ snd ar' = set_converged 2 (set_dv (dv (snd ar')) (snd ar))
             /\ dv_of (snd ar') (heap (store net')) = link_vector (costs (snd ar)))
          (routers net) (routers net')
  /\ NoDup (locs (routers net'))
  /\ (forall l, In l (locs (routers net')) -> dict_mem l (heap (store net)) = false)
  /\ (forall l, dict_mem l (heap (store net)) = true ->
        deref (heap (store net')) l = deref (heap (store net)) l)
  /\ (forall q, queue_contents (queues (store net')) q
                = if existsb (fun ar : address * Router =>
                                String.eqb q (in_queue (snd ar))) (routers net)
                  then [] else queue_contents (queues (store net)) q)
  /\ log (store net') = log (store net).
Proof.
  cbn zeta. unfold Network_reset.
  destruct (reset_sweep (routers net) (store net)) as (H1 & H2 & H3 & H4 & H5 & H6).
  cbn zeta in *.
  destruct (each_router Router_reset (routers net) (store net)) as [rs' st'].
  cbn [fst snd routers store] in *.
  split; [assumption|]. split; [assumption|]. split; [|split; [|split]].
  - intros l Hl. now apply H3.
  - intros l Hl. now apply H4.
  - assumption.
  - assumption.
Qed.

(** X4: [Network.reset] on any network.  The routers stay filed as they
    were and keep their address, link costs and queues; each has counter 2
    and a new dict that holds [(dst, cost)] for its link costs.  The new
    dicts are distinct objects that did not exist before, and every dict that
    existed is left as it was.  A queue that some router drains is empty
    afterwards, every other queue holds what it held, and nothing is
    printed. *)
Theorem reset_state (net : Network) :
  let net' := Network_reset net in
  Forall2 (fun ar ar' : address * Router =>
             fst ar' = fst ar
             /\ snd ar' = set_converged 2 (set_dv (dv (snd ar')) (snd ar))
             /\ dv_of (snd ar') (heap (store net')) = link_vector (costs (snd ar)))
          (routers net) (routers net')
  /\ NoDup (locs (routers net'))
  /\ (forall l, In l (locs (routers net')) -> dict_mem l (heap (store net)) = false)
  /\ (forall l, dict_mem l (heap (store net)) = true ->
        deref (heap (store net')) l = deref (heap (store net)) l)
  /\ (forall q, queue_contents (queues (store net')) q
                = if existsb (fun ar : address * Router =>
                                String.eqb q (in_queue (snd ar))) (routers net)
                  then [] else queue_contents (queues (store net)) q)
  /\ log (store net') = log (store net).
Proof.
  exact (Network_reset_spec net).
Qed.

Lemma reset_state_witness :
  NoDup (locs (routers (Network_reset Line.settled)))
  /\ log (store (Network_reset Line.settled)) = log (store Line.settled).
Proof.
  destruct (reset_state Line.settled) as (_ & H & _ & _ & _ & Hl). split; assumption.
Defined.

Lemma reset_vector_at net a :
  vector_at a (Network_reset net)
  = match dict_get a (routers net) with
    | Some r => link_vector (costs r)
    | None => []
    end.
Proof.
  destruct (Network_reset_spec net) as (HF & _). cbn zeta in HF.
  pose proof (Forall2_dict_get
    (fun r r' => r' = set_converged 2 (set_dv (dv r') r)
                 /\ dv_of r' (heap (store (Network_reset net))) = link_vector (costs r))
    _ _ HF a) as H.
  unfold vector_at.
  destruct (dict_get a (routers net)) as [r|],
           (dict_get a (routers (Network_reset net))) as [r'|]; try contradiction.
  - apply H.
  - reflexivity.
Qed.

Lemma same_wiring_costs rs rs' a :
  same_wiring rs rs' ->
  option_map costs (dict_get a rs') = option_map costs (dict_get a rs).
Proof.
  intros Hw.
  pose proof (Forall2_dict_get (fun r r' => exists c, r' = set_converged c r) _ _ Hw a) as H.
  destruct (dict_get a rs) as [r|], (dict_get a rs') as [r'|]; try contradiction; auto.
  destruct H as [c ->]. reflexivity.
Qed.

Lemma reachable_wiring net net' :
  clos_refl_trans Network operation net net' -> same_wiring (routers net) (routers net').
Proof.
  induction 1 as [x y Hop|x|x y z _ IH1 _ IH2].
  - now apply operation_wiring.
  - apply same_wiring_refl.
  - eapply same_wiring_trans; eauto.
Qed.

(** X5: whatever sends, routes, steps, runs and messages a constructed
    network has been through, [Network.reset] gives every address the vector
    the constructor gave it, and leaves every router with counter 2 and an
    empty inbound queue. *)
Theorem reset_restores_construction (addrs : list address) (edges : topology)
  (net' : Network) :
  clos_refl_trans Network operation (Network_init addrs edges) net' ->
  forall a,
    vector_at a (Network_reset net') = vector_at a (Network_init addrs edges)
    /\ forall r', dict_get a (routers (Network_reset net')) = Some r' ->
         converged r' = 2
         /\ queue_contents (queues (store (Network_reset net'))) (in_queue r') = [].
Proof.
  intros Hreach a. apply reachable_wiring in Hreach.
  split.
  - rewrite reset_vector_at.
    pose proof (same_wiring_costs _ _ a Hreach) as Hc.
    destruct (Network_init_as_built addrs edges) as (Hb & _). cbn zeta in Hb.
    unfold vector_at.
    destruct (dict_get a (routers (Network_init addrs edges))) as [r0|] eqn:E0,
             (dict_get a (routers net')) as [r1|]; cbn [option_map] in Hc;
      try discriminate; [|reflexivity].
    injection Hc as ->.
    destruct (Hb a r0 (dict_get_In _ _ _ E0)) as (_ & _ & Hd).
    unfold dv_of. now rewrite Hd.
  - intros r' Hr'.
    destruct (Network_reset_spec net') as (HF & _ & _ & _ & Hq & _). cbn zeta in *.
    pose proof (Forall2_dict_get
      (fun r r' => r' = set_converged 2 (set_dv (dv r') r)
                   /\ dv_of r' (heap (store (Network_reset net'))) = link_vector (costs r))
      _ _ HF a) as H.
    rewrite Hr' in H.
    destruct (dict_get a (routers net')) as [r|] eqn:Er; [|contradiction].
    destruct H as [E _]. split; [rewrite E; reflexivity|].
    rewrite Hq.
    replace (existsb _ (routers net')) with true; [reflexivity|].
    symmetry. apply existsb_exists. exists (a, r).
    split; [now apply dict_get_In|]. cbn [snd]. rewrite E. cbn.
    apply String.eqb_refl.
Qed.

Lemma reset_restores_construction_witness :
  clos_refl_trans Network operation Line.net0 Line.settled
  /\ vector_at "A"%string (Network_reset Line.settled) = vector_at "A"%string Line.net0.
Proof.
  assert (H : clos_refl_trans Network operation Line.net0 Line.settled).
  { apply rt_step. apply op_run with (fuel := 3%nat) (steps := 3%nat). reflexivity. }
  split; [exact H|].
  apply (reset_restores_construction ["A"; "B"; "C"]%string Line.edges Line.settled H).
Defined.

(* ================================================================= *)
(** ** Changing the cost of any link *)

Lemma Router_change_cost_spec (self : Router) (dst : address) (cost : Z) (h : dict loc DV) :
  let old := match dict_get dst (dv_of self h) with
             | Some e => e
             | None => (dst, inf)
             end in
  exists self' h',
    Router_change_cost self dst cost h = Ok (self', h')
    /\ self' = set_converged (if cost <? cost_of old then 2 else converged self)
                 (set_costs (dict_set dst cost (costs self)) self)
    /\ dict_get dst (dv_of self' h')
       = Some (if cost <? cost_of old then (dst, cost) else old)
    /\ (forall k, k <> dst -> dict_get k (dv_of self' h') = dict_get k (dv_of self h))
    /\ (forall l, l <> dv self -> deref h' l = deref h l).
Proof.
  cbn zeta. unfold Router_change_cost, dv_of.
  set (l := dv self).
  set (h1 := if dict_mem dst (deref h l) then h
             else heap_store l (dict_set dst (dst, inf) (deref h l)) h).
  assert (H1 : dict_get dst (deref h1 l)
               = Some match dict_get dst (deref h l) with Some e => e | None => (dst, inf) end
               /\ (forall k, k <> dst -> dict_get k (deref h1 l) = dict_get k (deref h l))
               /\ (forall l', l' <> l -> deref h1 l' = deref h l')).
  { unfold h1, dict_mem. destruct (dict_get dst (deref h l)) as [e|] eqn:E.
    - auto.
    - rewrite deref_store_eq, dict_get_set_eq. split; [reflexivity|]. split.
      + intros k Hk. apply dict_get_set_neq. congruence.
      + intros l' Hl'. apply deref_store_neq. congruence. }
  destruct H1 as (Hd & Hk & Hl). rewrite Hd.
  set (old := match dict_get dst (deref h l) with Some e => e | None => (dst, inf) end) in *.
  destruct (cost <? cost_of old); eexists _, _; (split; [reflexivity|]).
  - cbn [dv set_costs set_converged]. fold l. rewrite deref_store_eq.
    split; [reflexivity|]. split; [apply dict_get_set_eq|]. split.
    + intros k Hne. rewrite dict_get_set_neq by congruence. auto.
    + intros l' Hl'. rewrite deref_store_neq by congruence. auto.
  - cbn [dv set_costs set_converged]. fold l.
    split; [now destruct self|]. auto.
Qed.

(** X6: the body of menu choice 4 on any router, for any destination
    (a neighbour or not) and any cost: it never raises.  The link-cost table
    gets the new cost under [dst]; address, queues and channels stay as they
    were, so a destination that had no channel still has none.  With [old]
    the router's entry for [dst], or [(dst, inf)] when there was none, the
    entry for [dst] ends as [(dst, cost)] and the counter at 2 when the new
    cost is strictly below the cost of [old]; otherwise the entry ends as
    [old] and the counter is kept.  No other entry and no other dict
    changes. *)
Theorem change_cost_any (self : Router) (dst : address) (cost : Z) (h : dict loc DV) :
  let old := match dict_get dst (dv_of self h) with
             | Some e => e
             | None => (dst, inf)
             end in
  exists self' h',
    Router_change_cost self dst cost h = Ok (self', h')
    /\ self' = set_converged (if cost <? cost_of old then 2 else converged self)
                 (set_costs (dict_set dst cost (costs self)) self)
    /\ dict_get dst (dv_of self' h')
       = Some (if cost <? cost_of old then (dst, cost) else old)
    /\ (forall k, k <> dst -> dict_get k (dv_of self' h') = dict_get k (dv_of self h))
    /\ (forall l, l <> dv self -> deref h' l = deref h l).
Proof. exact (Router_change_cost_spec self dst cost h). Qed.

Lemma change_cost_any_witness :
  exists self' h',
    Router_change_cost Line.routerA "C"%string 3 Line.heap0 = Ok (self', h')
    /\ dict_get "C"%string (dv_of self' h') = Some ("C"%string, 3).
Proof.
  destruct (change_cost_any Line.routerA "C"%string 3 Line.heap0)
    as (self' & h' & H1 & _ & H3 & _).
  exists self', h'. split; [exact H1|exact H3].
Defined.

(** X7: a link cost set by menu choice 4 is the one [reset] installs.
    When the change of the cost from [src] to [dst] goes through on a router
    whose link-cost table has distinct keys, then after [Network.reset] the
    vector of [src] holds [(dst, cost)] for [dst], whether or not the change
    itself touched the vector. *)
Theorem cost_change_then_reset (net : Network) (src dst : address) (cost : Z)
  (net' : Network) (r : Router) :
  dict_get src (routers net) = Some r ->
  NoDup (dict_keys (costs r)) ->
  change_link_cost src dst cost net = Ok net' ->
  dict_get dst (vector_at src (Network_reset net')) = Some (dst, cost).
Proof.
  intros Hr Hnd Hc. unfold change_link_cost in Hc. rewrite Hr in Hc.
  destruct (Router_change_cost_spec r dst cost (heap (store net)))
    as (r' & h' & Hrc & -> & _).
  rewrite Hrc in Hc. cbn [bind] in Hc. injection Hc as <-.
  rewrite reset_vector_at. cbn [routers]. rewrite dict_get_set_eq.
  cbn [costs set_converged set_costs].
  rewrite link_vector_get by (now apply NoDup_dict_set).
  now rewrite dict_get_set_eq.
Qed.

Lemma cost_change_then_reset_witness :
  exists net',
    change_link_cost "A"%string "B"%string 9 Line.net0 = Ok net'
    /\ dict_get "B"%string (vector_at "A"%string (Network_reset net'))
       = Some ("B"%string, 9).
Proof.
  eexists. split; [vm_compute; reflexivity|].
  refine (cost_change_then_reset Line.net0 "A"%string "B"%string 9 _ Line.routerA
            _ _ _).
  - vm_compute. reflexivity.
  - apply NoDup_distinct. vm_compute. reflexivity.
  - vm_compute. reflexivity.
Defined.

(* ================================================================= *)
(** ** What [run_until_converged] returns and leaves *)

Lemma step_n_snoc fuel n : forall net net1 net2,
  step_n fuel n net = Ok net1 -> step fuel net1 = Ok net2 ->
  step_n fuel (S n) net = Ok net2.
Proof.
  induction n as [|n IH]; intros net net1 net2; cbn [step_n].
  - intros [= ->] H. rewrite H. reflexivity.
  - destruct (step fuel net) as [net0| |]; cbn [bind]; try discriminate.
    intros H1 H2. apply (IH _ _ _ H1 H2).
Qed.

Lemma run_loop_spec n : forall fuel net steps steps' net',
  run_loop n fuel net steps = Ok (steps', net') ->
  exists k,
    steps' = (steps + k)%nat
    /\ step_n fuel k net = Ok net'
    /\ is_stable net' = true
    /\ forall m, (m < k)%nat ->
         exists netm, step_n fuel m net = Ok netm /\ is_stable netm = false.
Proof.
  induction n as [|n IH]; intros fuel net steps steps' net'; cbn [run_loop];
    destruct (is_stable net) eqn:Hst; try discriminate;
    try (intros [= <- <-]; exists 0%nat; cbn [step_n];
         repeat split; auto; try lia; intros m Hm; lia).
  destruct (step fuel net) as [net1| |] eqn:Hs; cbn [bind]; try discriminate.
  intros Hr. apply IH in Hr as (k & -> & Hk & Hstab & Hmin).
  exists (S k). cbn [step_n]. rewrite Hs. cbn [bind].
  split; [lia|]. split; [assumption|]. split; [assumption|].
  intros [|m] Hm.
  - exists net. split; [reflexivity|assumption].
  - destruct (Hmin m) as (netm & H1 & H2); [lia|].
    exists netm. cbn [step_n]. rewrite Hs. cbn [bind]. auto.
Qed.

(** X8: when [run_until_converged] returns [steps], the network it
    leaves is the one after exactly [steps] calls of [step]; it is stable;
    the network was not stable after any smaller number of steps; and a
    second call returns 0 and leaves the network as it is. *)
Theorem run_until_converged_result (fuel : nat) (net : Network) (steps : nat)
  (net' : Network) :
  run_until_converged fuel net = Ok (steps, net') ->
  step_n fuel steps net = Ok net'
  /\ is_stable net' = true
  /\ (forall m, (m < steps)%nat ->
        exists netm, step_n fuel m net = Ok netm /\ is_stable netm = false)
  /\ forall fuel', run_until_converged fuel' net' = Ok (0%nat, net').
Proof.
  unfold run_until_converged. intros Hr.
  apply run_loop_spec in Hr as (k & Hk & Hn & Hst & Hmin).
  cbn in Hk. subst k. repeat split; auto.
  intros fuel'. destruct fuel'; cbn [run_loop]; now rewrite Hst.
Qed.

Lemma run_until_converged_result_witness :
  run_until_converged 3 Line.net0 = Ok (3%nat, Line.settled)
  /\ step_n 3 3 Line.net0 = Ok Line.settled
  /\ is_stable Line.settled = true.
Proof.
  assert (H : run_until_converged 3 Line.net0 = Ok (3%nat, Line.settled)) by reflexivity.
  split; [exact H|].
  destruct (run_until_converged_result 3 Line.net0 3 Line.settled H) as (H1 & H2 & _).
  split; assumption.
Defined.

Lemma run_loop_drains n : forall fuel net steps steps' net',
  run_loop n fuel net steps = Ok (steps', net') ->
  ready net -> no_dv_pending (store net) ->
  no_dv_pending (store net') /\ ready net'.
Proof.
  induction n as [|n IH]; intros fuel net steps steps' net'; cbn [run_loop];
    destruct (is_stable net); try discriminate;
    try (intros [= _ <-]; auto).
  destruct (step fuel net) as [net1| |] eqn:Hs; cbn [bind]; try discriminate.
  intros Hr Hready _. destruct (step_drains _ _ _ Hready Hs) as [H1 H2]. eauto.
Qed.

(** X9: on a network wired as the constructor wires it, in which no
    distance-vector packet is waiting, [run_until_converged] leaves no
    distance-vector packet waiting in any queue, and the wiring as it was. *)
Theorem run_until_converged_drains (fuel : nat) (net : Network) (steps : nat)
  (net' : Network) :
  ready net -> no_dv_pending (store net) ->
  run_until_converged fuel net = Ok (steps, net') ->
  no_dv_pending (store net') /\ ready net'.
Proof. intros Hr Hp Hrun. eapply run_loop_drains; eauto. Qed.

Lemma run_until_converged_drains_witness :
  run_until_converged 3 Line.net0 = Ok (3%nat, Line.settled)
  /\ no_dv_pending (store Line.settled).
Proof.
  assert (H : run_until_converged 3 Line.net0 = Ok (3%nat, Line.settled))
    by (vm_compute; reflexivity).
  split; [exact H|].
  refine (proj1 (run_until_converged_drains 3 Line.net0 3 Line.settled _ _ H)).
  - apply (Network_init_ready ["A"; "B"; "C"]%string Line.edges).
    apply endpoints_b. vm_compute. reflexivity.
  - apply no_dv_pending_forallb. vm_compute. reflexivity.
Defined.

(* ================================================================= *)
(** ** The range of the counter *)

Lemma step_counters fuel net net' :
  step fuel net = Ok net' -> counters_follow (routers net) (routers net').
Proof.
  unfold step, Network_route, Network_send_dv, counters_follow.
  pose proof (send_sweep_all_sent (routers net) (store net)) as Hs.
  destruct (each_router Router_send_dv (routers net) (store net)) as [rs1 st1].
  cbn [fst routers store] in *. subst rs1.
  destruct (each_router_r _ _ _) as [[rs2 st2]| |] eqn:Hr; cbn [bind]; try discriminate.
  intros [= <-]. cbn [routers].
  apply (each_router_r_Forall2 (Router_route fuel)
           (fun r r' => exists c, r' = set_converged c r
                                  /\ (c = converged r \/ c = 2))) in Hr.
  2:{ intros r s r' s'. apply Router_route_counter. }
  clear -Hr. remember (all_sent (routers net)) as rs1 eqn:E.
  revert E. generalize (routers net) as rs.
  induction Hr as [|[a1 r1] [a2 r2] xs ys [Hk (c & Hc & Hcc)] _ IH]; intros rs E;
    destruct rs as [|[a r] rs]; cbn [all_sent map] in E; try discriminate;
    constructor.
  - injection E as -> -> ->. cbn [fst snd] in *. split; [assumption|].
    exists c. split.
    + rewrite Hc. destruct (after_send_wiring r) as [c0 ->]. apply set_converged_twice.
    + assumption.
  - injection E as _ _ ->. now apply IH.
Qed.

Lemma after_send_range r :
  0 <= converged r <= 2 -> 0 <= converged (after_send r) <= 2.
Proof.
  unfold after_send. destruct (Z.eqb_spec (converged r) 0); cbn [converged set_converged]; lia.
Qed.

Lemma counters_follow_range rs rs' :
  counters_follow rs rs' ->
  (forall a r, In (a, r) rs -> 0 <= converged r <= 2) ->
  forall a r, In (a, r) rs' -> 0 <= converged r <= 2.
Proof.
  intros Hf Hrange a r' Hin.
  apply (Forall2_In_r _ _ _ Hf) in Hin as ([a0 r] & Hin & Hk & c & Hc & Hcc).
  cbn [fst snd] in *. subst a0. rewrite Hc. cbn [converged set_converged].
  destruct Hcc as [-> | ->]; [|lia].
  apply after_send_range. eauto.
Qed.

Lemma route_sweep_range fuel rs st rs' st' :
  each_router_r (Router_route fuel) rs st = Ok (rs', st') ->
  (forall a r, In (a, r) rs -> 0 <= converged r <= 2) ->
  forall a r, In (a, r) rs' -> 0 <= converged r <= 2.
Proof.
  intros Hr Hrange a r' Hin.
  apply (each_router_r_Forall2 (Router_route fuel)
           (fun r r' => exists c, r' = set_converged c r
                                  /\ (c = converged r \/ c = 2))) in Hr.
  2:{ intros r s r1 s1. apply Router_route_counter. }
  apply (Forall2_In_r _ _ _ Hr) in Hin as ([a0 r] & Hin & Hk & c & Hc & Hcc).
  cbn [fst snd] in *. subst a0. rewrite Hc. cbn [converged set_converged].
  destruct Hcc as [-> | ->]; [eauto|lia].
Qed.

Lemma all_sent_range rs :
  (forall a r, In (a, r) rs -> 0 <= converged r <= 2) ->
  forall a r, In (a, r) (all_sent rs) -> 0 <= converged r <= 2.
Proof.
  intros Hrange a r Hin. unfold all_sent in Hin.
  apply in_map_iff in Hin as ([a0 r0] & [= <- <-] & Hin).
  apply after_send_range. eauto.
Qed.

Lemma run_loop_range n : forall fuel net steps steps' net',
  run_loop n fuel net steps = Ok (steps', net') ->
  counters_ok net -> counters_ok net'.
Proof.
  induction n as [|n IH]; intros fuel net steps steps' net'; cbn [run_loop];
    destruct (is_stable net); try discriminate;
    try (now intros [= _ <-]).
  destruct (step fuel net) as [net1| |] eqn:Hs; cbn [bind]; try discriminate.
  intros Hr Hok. apply (IH _ _ _ _ _ Hr).
  apply step_counters in Hs. intros a r. now apply (counters_follow_range _ _ Hs).
Qed.

Lemma counters_kept :
  (forall addrs edges, counters_ok (Network_init addrs edges))
  /\ (forall net, counters_ok (Network_reset net))
  /\ (forall net net', counters_ok net -> operation net net' -> counters_ok net')
  /\ (forall net src dst cost net',
        counters_ok net -> change_link_cost src dst cost net = Ok net' ->
        counters_ok net').
Proof.
  split; [|split; [|split]].
  - intros addrs edges a r Hin.
    destruct (Network_init_as_built addrs edges) as (Hb & _). cbn zeta in Hb.
    destruct (Hb a r Hin) as (-> & _). cbn [converged]. lia.
  - intros net a r' Hin.
    destruct (Network_reset_spec net) as (HF & _). cbn zeta in HF.
    apply (Forall2_In_r _ _ _ HF) in Hin as (ar & _ & _ & E & _).
    cbn [snd] in E. rewrite E. cbn [converged set_converged]. lia.
  - intros net net' Hok Hop.
    destruct Hop as [n|fuel n n' H|fuel n n' H|fuel n k n' H|s d m n n' H].
    + unfold counters_ok, Network_send_dv.
      pose proof (send_sweep_all_sent (routers n) (store n)) as Hs.
      destruct (each_router Router_send_dv (routers n) (store n)) as [rs1 st1].
      cbn [fst routers] in *. subst. now apply all_sent_range.
    + unfold Network_route in H.
      destruct (each_router_r _ _ _) as [[rs2 st2]| |] eqn:Hr; cbn [bind] in H;
        try discriminate.
      injection H as <-. unfold counters_ok. cbn [routers].
      eapply route_sweep_range; eauto.
    + apply step_counters in H. intros a r.
      now apply (counters_follow_range _ _ H).
    + eapply run_loop_range; eauto.
    + unfold send_message in H. destruct (dict_mem s _); [|discriminate].
      injection H as <-. exact Hok.
  - intros net src dst cost net' Hok Hc. unfold change_link_cost in Hc.
    destruct (dict_get src (routers net)) as [r|] eqn:Er; [|discriminate].
    destruct (Router_change_cost r dst cost _) as [[r' h']| |] eqn:Hr; cbn [bind] in Hc;
      try discriminate.
    injection Hc as <-. intros a r0 Hin. cbn [routers] in Hin.
    apply In_dict_set in Hin as [[= -> ->]|Hin]; [|eauto].
    unfold Router_change_cost in Hr.
    destruct (dict_get dst _) as [e|]; [|discriminate].
    destruct (cost <? cost_of e); injection Hr as <- _;
      cbn [converged set_converged set_costs]; [lia|].
    apply (Hok src r). now apply dict_get_In.
Qed.

Lemma main_loop_keeps (P : Network -> Prop) :
  (forall net, P net -> P (Network_reset net)) ->
  (forall net net', P net -> operation net net' -> P net') ->
  (forall net src dst cost net',
     P net -> change_link_cost src dst cost net = Ok net' -> P net') ->
  forall fuel choices net net',
    P net -> main_loop fuel choices net = Ok net' -> P net'.
Proof.
  intros Hreset Hop Hcost fuel.
  induction choices as [|c choices IH]; intros net net' Hok; cbn [main_loop].
  - now intros [= <-].
  - assert (Hstep : forall net1, choose fuel c net = Ok net1 -> P net1).
    { destruct c; cbn [choose]; intros net1 H.
      - destruct (run_until_converged fuel net) as [[k n1]| |] eqn:E; cbn [bind] in H;
          try discriminate.
        injection H as <-. apply (Hop net); [assumption|]. eapply op_run; eauto.
      - apply (Hop net); [assumption|]. eapply op_step; eauto.
      - injection H as <-. now apply Hreset.
      - apply (Hop net); [assumption|]. eapply op_message; eauto.
      - eapply Hcost; eauto.
      - apply (Hop net); [assumption|]. eapply op_route; eauto.
      - injection H as <-. apply (Hop net); [assumption|]. constructor.
      - injection H as <-. exact Hok.
      - injection H as <-. exact Hok.
      - injection H as <-. exact Hok.
      - injection H as <-. exact Hok. }
    destruct c; try (now intros [= <-]);
      (destruct (choose fuel _ net) as [net1| |] eqn:E; cbn [bind]; try discriminate;
       intros H; apply (IH net1 net'); [now apply Hstep|exact H]).
Qed.

(** X10: at every point of every session of [main], whatever the choices
    typed, the counter of every router is 0, 1 or 2. *)
Theorem session_counters (fuel : nat) (addrs : list address) (edges : topology)
  (choices : list choice) (net' : Network) :
  main fuel addrs edges choices = Ok net' -> counters_ok net'.
Proof.
  destruct counters_kept as (Hinit & Hreset & Hop & Hcost).
  unfold main. apply (main_loop_keeps counters_ok); auto.
Qed.

Lemma session_counters_witness :
  main 3 ["A"; "B"; "C"]%string Line.edges
       [RunUntilConverged; SendMessage "A"%string "Z"%string "hi"%string; Exit]
  = Ok Line.settled_msg
  /\ counters_ok Line.settled_msg.
Proof.
  assert (H : main 3 ["A"; "B"; "C"]%string Line.edges
                [RunUntilConverged; SendMessage "A"%string "Z"%string "hi"%string; Exit]
              = Ok Line.settled_msg) by (vm_compute; reflexivity).
  split; [exact H|]. exact (session_counters _ _ _ _ _ H).
Defined.

(** X11: when some router has counter 2 (as every router has after
    construction and [reset], and a router has after a change of its
    vector), [run_until_converged] returns at least 2. *)
Theorem two_rounds_after_change (fuel : nat) (net : Network) (steps : nat)
  (net' : Network) (a : address) (r : Router) :
  run_until_converged fuel net = Ok (steps, net') ->
  In (a, r) (routers net) -> converged r = 2 ->
  (2 <= steps)%nat.
Proof.
  unfold run_until_converged. intros Hr Hin Hc.
  apply run_loop_spec in Hr as (k & Hk & Hn & Hst & _). cbn in Hk. subst k.
  assert (Hzero : forall a r, In (a, r) (routers net') -> converged r = 0).
  { intros a0 r0 Hi. unfold is_stable in Hst.
    rewrite forallb_forall in Hst. specialize (Hst _ Hi). cbn [snd] in Hst. lia. }
  destruct steps as [|[|steps]]; [| |lia]; exfalso; cbn [step_n] in Hn.
  - injection Hn as <-. specialize (Hzero _ _ Hin). lia.
  - destruct (step fuel net) as [net1| |] eqn:Hs; cbn [bind] in Hn; try discriminate.
    injection Hn as ->. apply step_counters in Hs.
    apply (Forall2_In_l _ _ _ Hs) in Hin as ([a' r'] & Hin' & _ & c & E & Hcc).
    cbn [fst snd] in *. specialize (Hzero _ _ Hin'). rewrite E in Hzero.
    cbn [converged set_converged] in Hzero. subst c.
    destruct Hcc as [Hcc|Hcc]; [|discriminate].
    unfold after_send in Hcc. rewrite Hc in Hcc. cbn in Hcc. discriminate.
Qed.

Lemma two_rounds_after_change_witness :
  run_until_converged 3 Line.net0 = Ok (3%nat, Line.settled)
  /\ In ("A"%string, Line.routerA) (routers Line.net0)
  /\ converged Line.routerA = 2
  /\ (2 <= 3)%nat.
Proof.
  assert (H : run_until_converged 3 Line.net0 = Ok (3%nat, Line.settled))
    by (vm_compute; reflexivity).
  assert (Hin : In ("A"%string, Line.routerA) (routers Line.net0)) by (now left).
  split; [exact H|]. split; [exact Hin|]. split; [reflexivity|].
  exact (two_rounds_after_change 3 Line.net0 3 Line.settled "A"%string Line.routerA
           H Hin eq_refl).
Defined.

(* ================================================================= *)
(** ** What the learning pass stores *)

Lemma learn_loop_spec src (tbl : DV) es : forall (d : DV) (c : Z) d' c',
  for_each (learn_body src) tbl (d, c) = Ok (d', c') ->
  NoDup (dict_keys tbl) ->
  dict_get src d = Some es ->
  (forall k, dict_mem k d = true -> dict_get k d' = dict_get k d)
  /\ (forall dst nh cost, In (dst, (nh, cost)) tbl -> dict_mem dst d = false ->
        dict_get dst d' = Some (nh, cost_of es + cost))
  /\ c' = (if existsb (fun item : address * entry => negb (dict_mem (fst item) d)) tbl
           then 2 else c).
Proof.
  induction tbl as [|[k0 [nh0 c0]] tbl IH]; intros d c d' c' Hrun Hnd Hsrc.
  - injection Hrun as <- <-. repeat split; auto. intros ? ? ? [].
  - inversion Hnd as [|? ? Hk0 Hnd']; subst.
    assert (Hother : forall dst e, In (dst, e) tbl -> dst <> k0).
    { intros dst e Hin ->. apply Hk0. unfold dict_keys.
      change k0 with (fst (k0, e)). now apply in_map. }
    cbn [for_each] in Hrun. unfold learn_body at 1 in Hrun.
    cbn [existsb fst].
    destruct (dict_mem k0 d) eqn:Hm; cbn [bind negb orb] in Hrun |- *.
    + destruct (IH _ _ _ _ Hrun Hnd' Hsrc) as (Hold & Hnew & Hc).
      split; [assumption|]. split; [|assumption].
      intros dst nh cost [[= <- <- <-]|Hin] Hd; [congruence|eauto].
    + rewrite Hsrc in Hrun. cbn [bind] in Hrun.
      assert (Hks : src <> k0).
      { intros <-. apply dict_mem_false in Hm. congruence. }
      assert (Hsrc1 : dict_get src (dict_set k0 (nh0, cost_of es + c0) d) = Some es).
      { rewrite dict_get_set_neq; auto. }
      destruct (IH _ _ _ _ Hrun Hnd' Hsrc1) as (Hold & Hnew & Hc).
      split; [|split].
      * intros k Hk. rewrite Hold.
        -- apply dict_get_set_neq. intros <-. congruence.
        -- rewrite dict_mem_set, Hk. apply orb_true_r.
      * intros dst nh cost [[= <- <- <-]|Hin] Hd.
        -- rewrite Hold; [apply dict_get_set_eq|].
           rewrite dict_mem_set. cbn [keqb EqKey_string].
           now rewrite String.eqb_refl.
        -- apply Hnew; [assumption|].
           rewrite dict_mem_set, Hd. cbn [keqb EqKey_string].
           rewrite orb_false_r. apply String.eqb_neq. eauto.
      * rewrite Hc. now destruct (existsb _ tbl).
Qed.

(** X12: the entry the learning pass of [update_dv] leaves.  The router
    takes from the neighbour [src] a table that lists [dst], a destination
    the router had no entry for (and which is neither [src] nor the router
    itself), as [(nh, cost)].  After the update the entry for [dst] has the
    advertised next hop [nh], not [src], and the cost of the router's entry
    for [src] before the update ([inf] when it had none) plus [cost], cut
    down to [inf] when that is more; and the counter is 2. *)
Theorem learned_entry (self : Router) (src : address) (dv_table : loc)
  (h : dict loc DV) (self' : Router) (h' : dict loc DV)
  (dst nh : address) (cost : Z) :
  update_dv self src dv_table h = Ok (self', h') ->
  NoDup (dict_keys (dv_of self h)) ->
  NoDup (dict_keys (deref h dv_table)) ->
  nonneg (deref h dv_table) ->
  dict_get dst (deref h dv_table) = Some (nh, cost) ->
  dict_mem dst (dv_of self h) = false ->
  dst <> src -> dst <> addr self -> src <> addr self ->
  let to_src := match dict_get src (dv_of self h) with
                | Some e => cost_of e
                | None => inf
                end in
  dict_get dst (dv_of self' h') = Some (nh, Z.min inf (to_src + cost))
  /\ converged self' = 2.
Proof.
  intros Hu Hnd HndT HposT Hdst Habsent Hds Hda Hsa. cbn zeta.
  assert (Htl : dv_table <> dv self).
  { intros ->. unfold dv_of in Habsent. apply dict_mem_false in Habsent. congruence. }
  apply update_dv_inv in Hu as (d2 & c2 & d4 & c4 & Hl & Hr & -> & ->).
  cbn zeta in *.
  set (l := dv self) in *. set (a := addr self) in *.
  rewrite with_src_other in Hl by auto.
  rewrite deref_store_neq, with_src_other in Hr by auto.
  set (T := deref h dv_table) in *.
  set (d1 := deref (with_src l src h) l) in *.
  assert (Hd1 : exists es, dict_get src d1 = Some es
                 /\ cost_of es = match dict_get src (dv_of self h) with
                                 | Some e => cost_of e | None => inf end
                 /\ dict_mem dst d1 = false /\ NoDup (dict_keys d1)).
  { unfold d1. rewrite with_src_own. fold (dv_of self h).
    destruct (dict_get src (dv_of self h)) as [e|] eqn:E.
    - replace (dict_mem src (dv_of self h)) with true
        by (symmetry; apply dict_mem_true; eauto).
      exists e. auto.
    - replace (dict_mem src (dv_of self h)) with false
        by (symmetry; now apply dict_mem_false).
      exists (src, inf). rewrite dict_get_set_eq. split; [reflexivity|].
      change (deref h l) with (dv_of self h).
      split; [reflexivity|]. split; [|now apply NoDup_dict_set].
      rewrite dict_mem_set, Habsent. cbn [keqb EqKey_string].
      rewrite orb_false_r. now apply String.eqb_neq. }
  destruct Hd1 as (es & Hes & Hces & Hd1abs & Hnd1). rewrite <- Hces.
  pose proof (learn_loop_NoDup _ _ _ _ _ _ Hl Hnd1) as Hnd2.
  destruct (learn_loop_spec _ _ _ _ _ _ _ Hl HndT Hes) as (Hold & Hnew & Hc2).
  specialize (Hnew dst nh cost (dict_get_In _ _ _ Hdst) Hd1abs).
  assert (Hc2' : c2 = 2).
  { rewrite Hc2. replace (existsb _ T) with true; [reflexivity|].
    symmetry. apply existsb_exists. exists (dst, (nh, cost)).
    split; [now apply dict_get_In|]. cbn [fst]. now rewrite Hd1abs. }
  set (d3 := upper_bound a d2) in *.
  assert (Hes3 : dict_get src d3 = Some (clamp_entry a src es)).
  { unfold d3. rewrite upper_bound_get by assumption.
    rewrite Hold; [now rewrite Hes|]. apply dict_mem_true. eauto. }
  assert (Hdst3 : dict_get dst d3 = Some (clamp_entry a dst (nh, cost_of es + cost)))
    by (unfold d3; rewrite upper_bound_get by assumption; now rewrite Hnew).
  assert (Hpos : src = a \/ forall e, In (src, e) T -> 0 <= cost_of e).
  { right. intros e He. apply (nonneg_In _ HposT HndT _ _ He). }
  destruct (relax_loop_spec _ _ _ _ _ _ _ _ Hr HndT Hes3 Hpos) as (_ & _ & Hin & _).
  destruct (Hin dst (nh, cost) (dict_get_In _ _ _ Hdst) Hda) as (ed & Hed & Hd4).
  rewrite Hdst3 in Hed. injection Hed as <-.
  pose proof (HposT _ _ Hdst) as Hcost. change (cost_of (nh, cost)) with cost in *.
  pose proof (relax_loop_NoDup _ _ _ _ _ _ _ Hr (upper_bound_NoDup a _ Hnd2)) as Hnd4.
  split.
  - unfold dv_of. cbn [dv set_converged]. fold l. rewrite deref_store_eq.
    rewrite upper_bound_get by assumption. rewrite Hd4.
    unfold clamp_entry, inf.
    rewrite (proj2 (String.eqb_neq dst a) Hda), (proj2 (String.eqb_neq src a) Hsa).
    unfold cost_of, next_hop_of, inf. cbn [fst snd option_map].
    destruct es as [nhs cs]. cbn [fst snd].
    destruct (Z.gtb_spec cs 16); cbn [fst snd];
      destruct (Z.gtb_spec (cs + cost) 16); cbn [fst snd];
      match goal with |- context [?x <? ?y] => destruct (Z.ltb_spec x y) end;
      try lia; cbn [fst snd];
      match goal with |- context [?x >? ?y] => destruct (Z.gtb_spec x y) end;
      try lia; f_equal; f_equal; lia.
  - cbn [converged set_converged].
    apply relax_loop_refines in Hr as [_ [->| [-> _]]]; auto.
Qed.

Lemma learned_entry_witness :
  update_dv Line.routerA "B"%string 1%nat Line.heap0 = Ok (Line.routerA, Line.heap1)
  /\ dict_get "C"%string (deref Line.heap0 1%nat) = Some ("C"%string, 5)
  /\ dict_mem "C"%string (dv_of Line.routerA Line.heap0) = false
  /\ dict_get "C"%string (dv_of Line.routerA Line.heap1) = Some ("C"%string, 6).
Proof.
  split; [vm_compute; reflexivity|]. split; [reflexivity|]. split; [reflexivity|].
  apply (learned_entry Line.routerA "B"%string 1%nat Line.heap0 Line.routerA Line.heap1
           "C"%string "C"%string 5).
  - vm_compute. reflexivity.
  - apply NoDup_distinct. vm_compute. reflexivity.
  - apply NoDup_distinct. vm_compute. reflexivity.
  - apply nonneg_forallb. vm_compute. reflexivity.
  - reflexivity.
  - reflexivity.
  - discriminate.
  - discriminate.
  - discriminate.
Defined.

(* ================================================================= *)
(** ** Taking the same advertisement again *)

Lemma clamp_entry_cost a k e :
  cost_of (clamp_entry a k e)
  = if String.eqb k a then 0 else Z.min inf (cost_of e).
Proof.
  unfold clamp_entry, cost_of, inf.
  destruct (String.eqb k a); [reflexivity|].
  destruct (Z.gtb_spec (snd e) 16); cbn [snd]; lia.
Qed.

Lemma clamp_entry_twice a k e :
  clamp_entry a k (clamp_entry a k e) = clamp_entry a k e.
Proof.
  unfold clamp_entry, cost_of, next_hop_of, inf.
  destruct (String.eqb k a); [reflexivity|].
  destruct (Z.gtb_spec (snd e) 16) as [H|H]; cbn [fst snd].
  - reflexivity.
  - destruct (Z.gtb_spec (snd e) 16); [lia|reflexivity].
Qed.

Lemma dict_set_same {K V : Type} `{EqKey K} (k : K) (v : V) (d : dict K V) :
  dict_get k d = Some v -> dict_set k v d = d.
Proof.
  induction d as [|[k' v'] d IH]; cbn [dict_get dict_set]; [discriminate|].
  destruct (keqb_spec k k') as [->|Hne].
  - now intros [= ->].
  - intros Hg. now rewrite IH.
Qed.

Lemma bound_fold_fixed a (items d : DV) :
  (forall k e, In (k, e) items -> dict_get k d = Some e) ->
  bounded d -> self_route_ok a d ->
  fold_left (bound_body a) items d = d.
Proof.
  intros Hitems Hb Hs. induction items as [|[k [nh c]] items IH]; cbn [fold_left].
  - reflexivity.
  - assert (Hk : dict_get k d = Some (nh, c)) by (apply Hitems; now left).
    assert (Hstep : bound_body a d (k, (nh, c)) = d).
    { unfold bound_body. pose proof (Hb _ _ Hk) as Hle. cbn [cost_of snd] in Hle.
      destruct (Z.gtb_spec c inf) as [Hgt|_]; [lia|].
      destruct (String.eqb_spec k a) as [->|Hne]; [|reflexivity].
      apply dict_set_same. rewrite Hk. f_equal. apply (Hs _ Hk). }
    rewrite Hstep. apply IH. intros k' e' Hin. apply Hitems. now right.
Qed.

Lemma upper_bound_fixed a (d : DV) :
  NoDup (dict_keys d) -> bounded d -> self_route_ok a d -> upper_bound a d = d.
Proof.
  intros Hnd Hb Hs. unfold upper_bound. apply bound_fold_fixed; auto.
  intros k e Hin. now apply NoDup_dict_get.
Qed.

Lemma learn_loop_none src (tbl d : DV) (c : Z) :
  (forall item, In item tbl -> dict_mem (fst item) d = true) ->
  for_each (learn_body src) tbl (d, c) = Ok (d, c).
Proof.
  induction tbl as [|[k [nh c0]] tbl IH]; intros Hall; cbn [for_each]; [reflexivity|].
  pose proof (Hall (k, (nh, c0)) (or_introl eq_refl)) as Hk. cbn [fst] in Hk.
  unfold learn_body at 1. rewrite Hk. cbn [bind].
  apply IH. intros item Hin. apply Hall. now right.
Qed.

Lemma relax_loop_none a src (tbl d : DV) (c : Z) es :
  dict_get src d = Some es ->
  (forall y et, In (y, et) tbl -> y <> a ->
     exists ed, dict_get y d = Some ed /\ cost_of ed <= cost_of es + cost_of et) ->
  for_each (relax_body a src) tbl (d, c) = Ok (d, c).
Proof.
  intros Hes. induction tbl as [|[k [nh c0]] tbl IH]; intros Hall; cbn [for_each];
    [reflexivity|].
  assert (IH' : for_each (relax_body a src) tbl (d, c) = Ok (d, c)).
  { apply IH. intros y et Hin. apply Hall. now right. }
  unfold relax_body at 1.
  destruct (String.eqb_spec k a) as [->|Hne]; cbn [bind]; [assumption|].
  destruct (Hall k (nh, c0) (or_introl eq_refl) Hne) as (ed & Hed & Hle).
  rewrite Hes, Hed. change (cost_of (nh, c0)) with c0 in Hle.
  destruct (Z.ltb_spec (cost_of es + c0) (cost_of ed)); [lia|]. cbn [bind]. assumption.
Qed.

(** X13: an advertisement applied a second time changes nothing.  When
    [update_dv] has applied the table of another router, applying the same
    table again right away returns the router and the heap of dicts exactly
    as the first call left them: every entry and the counter. *)
Theorem update_dv_idempotent (self : Router) (src : address) (dv_table : loc)
  (h : dict loc DV) (self' : Router) (h' : dict loc DV) :
  update_dv self src dv_table h = Ok (self', h') ->
  dv_table <> dv self ->
  NoDup (dict_keys (dv_of self h)) ->
  NoDup (dict_keys (deref h dv_table)) ->
  nonneg (deref h dv_table) ->
  update_dv self' src dv_table h' = Ok (self', h').
Proof.
  intros Hu Htl Hnd HndT HposT.
  pose proof (update_dv_mem _ _ _ _ _ _ Hu) as Hmem.
  pose proof (update_dv_NoDup _ _ _ _ _ _ Hu Hnd) as Hnd'.
  pose proof (update_dv_own_entry _ _ _ _ _ _ Hu) as (Ea & Hself & _).
  pose proof (update_dv_capped _ _ _ _ _ _ Hu) as Hb.
  pose proof (update_dv_frame _ _ _ _ _ _ Hu) as (k & Ek & Hframe).
  apply update_dv_inv in Hu as (d2 & c2 & d4 & c4 & Hl & Hr & E1 & E2).
  cbn zeta in *.
  set (l := dv self) in *. set (a := addr self) in *.
  rewrite with_src_other in Hl by auto.
  rewrite deref_store_neq, with_src_other in Hr by auto.
  set (T := deref h dv_table) in *.
  assert (Hd' : dv_of self' h' = upper_bound a d4).
  { unfold dv_of. rewrite E1, E2. cbn [dv set_converged]. fold l. apply deref_store_eq. }
  assert (Hl' : dict_get l h' = Some (dv_of self' h')).
  { rewrite Hd', E2. unfold heap_store. apply dict_get_set_eq. }
  assert (Edv : dv self' = l) by (rewrite E1; reflexivity).
  assert (HT' : deref h' dv_table = T) by (apply Hframe; assumption).
  (* the entry for the neighbour after the first update *)
  pose proof (with_src_mem l src h) as Hsrc1.
  apply dict_mem_true in Hsrc1 as [e0 He0].
  pose proof (with_src_NoDup l src h Hnd) as Hnd1.
  pose proof (learn_loop_NoDup _ _ _ _ _ _ Hl Hnd1) as Hnd2.
  destruct (learn_loop_spec _ _ _ _ _ _ _ Hl HndT He0) as (Hold & _ & _).
  assert (Hes3 : dict_get src (upper_bound a d2) = Some (clamp_entry a src e0)).
  { rewrite upper_bound_get by assumption.
    rewrite Hold; [now rewrite He0|]. apply dict_mem_true. eauto. }
  assert (Hpos : src = a \/ forall e, In (src, e) T -> 0 <= cost_of e).
  { right. intros e1 He1. apply (nonneg_In _ HposT HndT _ _ He1). }
  destruct (relax_loop_spec _ _ _ _ _ _ _ _ Hr HndT Hes3 Hpos) as (Hs4 & _ & Hin & _).
  pose proof (relax_loop_NoDup _ _ _ _ _ _ _ Hr (upper_bound_NoDup a _ Hnd2)) as Hnd4.
  assert (Hes' : dict_get src (dv_of self' h') = Some (clamp_entry a src e0)).
  { rewrite Hd', upper_bound_get, Hs4 by assumption. cbn [option_map].
    now rewrite clamp_entry_twice. }
  (* the second update *)
  rewrite update_dv_unfold. cbn zeta. rewrite Edv.
  assert (Hw : with_src l src h' = h').
  { unfold with_src. change (deref h' l) with (deref h' (dv self)).
    replace (deref h' (dv self)) with (dv_of self' h')
      by (unfold dv_of; now rewrite Edv).
    replace (dict_mem src (dv_of self' h')) with true; [reflexivity|].
    symmetry. apply dict_mem_true. eauto. }
  rewrite Hw, HT'.
  replace (deref h' l) with (dv_of self' h') by (unfold dv_of; now rewrite Edv).
  rewrite learn_loop_none.
  2:{ intros [y et] Hy. cbn [fst]. rewrite Hmem. fold T.
      replace (dict_mem y T) with true; [now rewrite orb_true_r|].
      symmetry. eapply In_dict_mem; eauto. }
  cbn [bind].
  replace (addr self') with a by (rewrite E1; reflexivity).
  rewrite (upper_bound_fixed a _ Hnd' Hb) by (now rewrite <- Ea).
  assert (Hstore : heap_store l (dv_of self' h') h' = h').
  { unfold heap_store. now apply dict_set_same. }
  rewrite Hstore, HT'.
  replace (deref h' l) with (dv_of self' h') by (unfold dv_of; now rewrite Edv).
  rewrite (relax_loop_none a src T _ _ _ Hes').
  2:{ intros y et Hy Hya. destruct (Hin _ _ Hy Hya) as (ed & Hed & Hd4).
      rewrite Hd', upper_bound_get, Hd4 by assumption. cbn [option_map].
      eexists. split; [reflexivity|].
      rewrite (clamp_entry_cost a y). rewrite (proj2 (String.eqb_neq y a) Hya).
      set (c3 := cost_of (clamp_entry a src e0)).
      destruct (Z.ltb_spec (c3 + cost_of et) (cost_of ed));
        unfold cost_of in *; cbn [snd]; lia. }
  cbn [bind].
  rewrite (upper_bound_fixed a _ Hnd' Hb) by (now rewrite <- Ea).
  rewrite Hstore. now rewrite set_converged_same.
Qed.

Lemma update_dv_idempotent_witness :
  update_dv Line.routerA "B"%string 1%nat Line.heap0 = Ok (Line.routerA, Line.heap1)
  /\ update_dv Line.routerA "B"%string 1%nat Line.heap1 = Ok (Line.routerA, Line.heap1).
Proof.
  assert (H : update_dv Line.routerA "B"%string 1%nat Line.heap0
              = Ok (Line.routerA, Line.heap1)) by (vm_compute; reflexivity).
  split; [exact H|].
  apply (update_dv_idempotent Line.routerA "B"%string 1%nat Line.heap0 _ _ H).
  - discriminate.
  - apply NoDup_distinct. vm_compute. reflexivity.
  - apply NoDup_distinct. vm_compute. reflexivity.
  - apply nonneg_forallb. vm_compute. reflexivity.
Defined.

(* ================================================================= *)
(** ** Every packet is accounted for *)

Lemma pending_set (qs : dict address (list Packet)) q ps :
  (pending (dict_set q ps qs) + List.length (queue_contents qs q)
   = pending qs + List.length ps)%nat.
Proof.
  unfold pending, queue_contents.
  induction qs as [|[q' ps'] qs IH]; cbn [dict_set dict_get map snd].
  - cbn. lia.
  - cbn [keqb EqKey_string].
    destruct (String.eqb q q'); cbn [map snd]; rewrite !list_sum_cons; lia.
Qed.

Lemma consumed_emit e st :
  consumed (emit e st) = (consumed st + if is_final e then 1 else 0)%nat.
Proof.
  unfold consumed, emit. cbn [log]. rewrite filter_app, length_app. cbn [filter].
  destruct (is_final e); reflexivity.
Qed.

Lemma accounted_take st q p rest :
  queue_contents (queues st) q = p :: rest ->
  (accounted (set_queue q rest st) + 1 = accounted st)%nat.
Proof.
  intros Hq. unfold accounted, consumed, set_queue. cbn [queues log].
  pose proof (pending_set (queues st) q rest) as H. rewrite Hq in H.
  cbn [List.length] in H. lia.
Qed.

Lemma accounted_put st q p :
  accounted (queue_put q p st) = (accounted st + 1)%nat.
Proof.
  unfold accounted, consumed, queue_put. cbn [queues log].
  pose proof (pending_set (queues st) q (queue_contents (queues st) q ++ [p])) as H.
  rewrite length_app in H. cbn [List.length] in H. lia.
Qed.

Lemma route_packet_accounted self p st self' st' :
  route_packet self p st = Ok (self', st') ->
  accounted st' = (accounted st + 1)%nat.
Proof.
  unfold route_packet.
  destruct (String.eqb (pkt_dst p) (addr self)).
  - destruct p as [s d t|s d m]; cbn [read_packet].
    + destruct (update_dv self s t _) as [[r1 h1]| |]; cbn [bind]; try discriminate.
      intros [= _ <-]. unfold accounted, consumed. cbn [queues log set_heap emit].
      rewrite filter_app, length_app. cbn. lia.
    + intros [= _ <-]. unfold accounted. rewrite consumed_emit. cbn [queues emit is_final].
      lia.
  - destruct (dict_get (pkt_dst p) _) as [e|].
    + destruct (dict_get (next_hop_of e) _) as [q|]; [|discriminate].
      intros [= _ <-]. unfold accounted. rewrite consumed_emit.
      cbn [queues emit is_final].
      pose proof (accounted_put st q p) as H. unfold accounted in H.
      cbn [queues queue_put] in *. lia.
    + intros [= _ <-]. unfold accounted. rewrite consumed_emit. cbn [queues emit is_final].
      lia.
Qed.

Lemma Router_route_accounted fuel : forall self st self' st',
  Router_route fuel self st = Ok (self', st') ->
  accounted st' = accounted st
  /\ queue_contents (queues st') (in_queue self) = [].
Proof.
  induction fuel as [|fuel IH]; intros self st self' st'; cbn [Router_route];
    destruct (queue_contents (queues st) (in_queue self)) as [|p rest] eqn:Hq;
    try discriminate; try (intros [= <- <-]; auto).
  destruct (route_packet self p _) as [[r1 st1]| |] eqn:Hp; cbn [bind]; try discriminate.
  intros Hr.
  pose proof (route_packet_counter _ _ _ _ _ Hp) as (c & -> & _).
  apply route_packet_accounted in Hp.
  apply IH in Hr as [Hr Hempty]. cbn [in_queue set_converged] in Hempty.
  pose proof (accounted_take _ _ _ _ Hq). split; [lia|assumption].
Qed.

Lemma route_sweep_accounted fuel : forall rs st rs' st',
  each_router_r (Router_route fuel) rs st = Ok (rs', st') ->
  accounted st' = accounted st.
Proof.
  induction rs as [|[a r] rs IH]; intros st rs' st'; cbn [each_router_r].
  - now intros [= _ <-].
  - destruct (Router_route fuel r st) as [[r1 st1]| |] eqn:Hr; cbn [bind]; try discriminate.
    destruct (each_router_r _ rs st1) as [[rs1 st2]| |] eqn:Hrs; cbn [bind];
      try discriminate.
    intros [= _ <-]. apply Router_route_accounted in Hr as [Hr _].
    apply IH in Hrs. congruence.
Qed.

(** X14: [Network.route] neither loses nor duplicates a packet.  The
    number of packets waiting in the queues plus the number of packets read
    or dropped so far, counted by the lines printed for them, is the same
    after the call as before it. *)
Theorem route_accounts_for_every_packet (fuel : nat) (net net' : Network) :
  Network_route fuel net = Ok net' ->
  accounted (store net') = accounted (store net).
Proof.
  unfold Network_route.
  destruct (each_router_r _ _ _) as [[rs st]| |] eqn:Hr; cbn [bind]; try discriminate.
  intros [= <-]. cbn [store]. eapply route_sweep_accounted; eauto.
Qed.

Lemma route_accounts_for_every_packet_witness :
  Network_route 1 Line.settled_msg = Ok Line.settled_next
  /\ accounted (store Line.settled_next) = accounted (store Line.settled_msg).
Proof.
  assert (H : Network_route 1 Line.settled_msg = Ok Line.settled_next)
    by (vm_compute; reflexivity).
  split; [exact H|]. exact (route_accounts_for_every_packet 1 _ _ H).
Defined.

Lemma send_fold_accounted a l outs : forall st,
  accounted (fold_left (fun st' (dq : address * address) =>
                          queue_put (snd dq) (DVPacket a (fst dq) l) st') outs st)
  = (accounted st + List.length outs)%nat.
Proof.
  induction outs as [|[k q] outs IH]; intros st; cbn [fold_left List.length fst snd].
  - lia.
  - rewrite IH, accounted_put. lia.
Qed.

Lemma send_sweep_accounted : forall rs st,
  accounted (snd (each_router Router_send_dv rs st))
  = (accounted st + advertisements rs)%nat.
Proof.
  unfold advertisements.
  induction rs as [|[a r] rs IH]; intros st; cbn [each_router map snd].
  - cbn. lia.
  - destruct (Router_send_dv r st) as [r1 st1] eqn:Hr.
    specialize (IH st1). destruct (each_router Router_send_dv rs st1) as [rs2 st2].
    cbn [snd] in *. rewrite IH, list_sum_cons.
    assert (accounted st1
            = (accounted st
               + if (converged r =? 0)%Z then 0 else List.length (out_queues r))%nat).
    { unfold Router_send_dv in Hr. destruct (converged r =? 0).
      - injection Hr as _ <-. lia.
      - injection Hr as _ <-. apply send_fold_accounted. }
    lia.
Qed.

(** X15: over one [step] the number of packets waiting, read or dropped
    grows by the number of advertisements of the round exactly: one for
    every channel of every router whose counter was not 0. *)
Theorem step_accounts_for_every_packet (fuel : nat) (net net' : Network) :
  step fuel net = Ok net' ->
  accounted (store net') = (accounted (store net) + advertisements (routers net))%nat.
Proof.
  unfold step, Network_route, Network_send_dv.
  pose proof (send_sweep_accounted (routers net) (store net)) as Hs.
  destruct (each_router Router_send_dv (routers net) (store net)) as [rs1 st1].
  cbn [snd routers store] in *.
  destruct (each_router_r _ _ _) as [[rs2 st2]| |] eqn:Hr; cbn [bind]; try discriminate.
  intros [= <-]. cbn [store]. apply route_sweep_accounted in Hr. congruence.
Qed.

Lemma step_accounts_for_every_packet_witness :
  step 4 Line.net0 = Ok Round.first
  /\ accounted (store Round.first) = (accounted (store Line.net0) + 4)%nat.
Proof.
  assert (H : step 4 Line.net0 = Ok Round.first) by (vm_compute; reflexivity).
  split; [exact H|]. exact (step_accounts_for_every_packet 4 _ _ H).
Defined.

(* ================================================================= *)
(** ** Draining one queue *)

(** X16: a call of [Router.route] that returns.  The router is as it was
    apart from the counter, which is the one it had or 2; no dict other than
    the router's own has changed; the router's inbound queue is empty; and
    every packet is still waiting somewhere or has been read or dropped. *)
Theorem route_one_router (fuel : nat) (self : Router) (st : Store)
  (self' : Router) (st' : Store) :
  Router_route fuel self st = Ok (self', st') ->
  (exists c, self' = set_converged c self /\ (c = converged self \/ c = 2))
  /\ (forall l, l <> dv self -> deref (heap st') l = deref (heap st) l)
  /\ queue_contents (queues st') (in_queue self) = []
  /\ accounted st' = accounted st.
Proof.
  intros Hr. split; [eapply Router_route_counter; eauto|]. split.
  - apply (Router_route_vector (fun _ _ => True)) in Hr; auto. apply Hr.
  - apply Router_route_accounted in Hr as [H1 H2]. auto.
Qed.

Lemma route_one_router_witness :
  exists st',
    Router_route 1 Line.routerA Line.store_msg = Ok (Line.routerA, st')
    /\ queue_contents (queues st') "A"%string = [].
Proof.
  eexists. split; [vm_compute; reflexivity|].
  refine (proj1 (proj2 (proj2 (route_one_router 1 Line.routerA Line.store_msg
                                 Line.routerA _ _)))).
  vm_compute. reflexivity.
Defined.

(** X17: when no distance-vector packet is waiting, [Network.route]
    changes no router (no counter) and no dict: delivering, forwarding and
    dropping application messages leaves the routing state alone.  No
    distance-vector packet is waiting afterwards either. *)
Theorem messages_leave_routing_state (fuel : nat) (net net' : Network) :
  no_dv_pending (store net) ->
  Network_route fuel net = Ok net' ->
  routers net' = routers net
  /\ heap (store net') = heap (store net)
  /\ no_dv_pending (store net').
Proof.
  unfold Network_route. intros Hp.
  destruct (each_router_r _ _ _) as [[rs st]| |] eqn:Hr; cbn [bind]; try discriminate.
  intros [= <-]. cbn [routers store].
  eapply each_router_http; eauto.
Qed.

Lemma messages_leave_routing_state_witness :
  no_dv_pending (store Line.settled_msg)
  /\ Network_route 1 Line.settled_msg = Ok Line.settled_next
  /\ routers Line.settled_next = routers Line.settled_msg.
Proof.
  assert (Hp : no_dv_pending (store Line.settled_msg))
    by (apply no_dv_pending_forallb; vm_compute; reflexivity).
  assert (H : Network_route 1 Line.settled_msg = Ok Line.settled_next)
    by (vm_compute; reflexivity).
  split; [exact Hp|]. split; [exact H|].
  exact (proj1 (messages_leave_routing_state 1 _ _ Hp H)).
Defined.



(* ================================================================= *)
(** ** Shortest paths: what one update does *)

Lemma walk_app cs a b d k1 k2 :
  walk cs a b k1 -> walk cs b d k2 -> walk cs a d (k1 + k2).
Proof.
  induction 1 as [a|a b0 b c k Hc _ IH]; intros H2.
  - exact H2.
  - rewrite <- Z.add_assoc. econstructor; eauto.
Qed.

Lemma learn_loop_quiet src (tbl : DV) : forall (d : DV) (c : Z) d' c',
  for_each (learn_body src) tbl (d, c) = Ok (d', c') ->
  c' <> 2 -> d' = d /\ c' = c.
Proof.
  induction tbl as [|[k0 [nh0 c0]] tbl IH]; intros d c d' c' Hrun Hc.
  - injection Hrun as <- <-. auto.
  - cbn [for_each] in Hrun. unfold learn_body at 1 in Hrun.
    destruct (dict_mem k0 d); cbn [bind] in Hrun; [eauto|].
    destruct (dict_get src d) as [es|]; [|discriminate]. cbn [bind] in Hrun.
    apply learn_loop_refines with (a := src) in Hrun as [_ [->|[-> _]]]; congruence.
Qed.

Lemma relax_loop_quiet a src (tbl : DV) : forall (d : DV) (c : Z) d' c',
  for_each (relax_body a src) tbl (d, c) = Ok (d', c') ->
  c' <> 2 -> d' = d /\ c' = c.
Proof.
  induction tbl as [|[k0 [nh0 c0]] tbl IH]; intros d c d' c' Hrun Hc.
  - injection Hrun as <- <-. auto.
  - cbn [for_each] in Hrun. unfold relax_body at 1 in Hrun.
    destruct (String.eqb k0 a); cbn [bind] in Hrun; [eauto|].
    destruct (dict_get src d) as [es|]; [|discriminate].
    destruct (dict_get k0 d) as [ed|]; [|discriminate].
    destruct (cost_of es + c0 <? cost_of ed); cbn [bind] in Hrun; [|eauto].
    apply relax_loop_refines in Hrun as [_ [->|[-> _]]]; congruence.
Qed.

(** An update that does not leave the counter at 2 has only clamped *)
Lemma update_dv_quiet self src tbl h self' h' :
  update_dv self src tbl h = Ok (self', h') ->
  converged self' <> 2 ->
  dict_mem src (dv_of self h) = true ->
  dv_of self' h' = upper_bound (addr self) (upper_bound (addr self) (dv_of self h))
  /\ converged self' = converged self.
Proof.
  intros Hu Hc Hsrc.
  apply update_dv_inv in Hu as (d2 & c2 & d4 & c4 & Hl & Hr & -> & ->).
  cbn zeta in *. cbn [converged set_converged] in *.
  apply relax_loop_quiet in Hr as [-> ->]; [|assumption].
  apply learn_loop_quiet in Hl as [-> ->]; [|assumption].
  unfold dv_of. cbn [dv set_converged]. rewrite deref_store_eq.
  rewrite with_src_own. unfold dv_of in Hsrc. rewrite Hsrc. auto.
Qed.

(** After an update from a neighbour's table, every destination of the table
    is known at a cost within the cost [c] to the neighbour plus the clamped
    cost in the table *)
Lemma update_dv_relaxes self src tbl h self' h' c :
  update_dv self src tbl h = Ok (self', h') ->
  tbl <> dv self ->
  NoDup (dict_keys (dv_of self h)) -> NoDup (dict_keys (deref h tbl)) ->
  nonneg (deref h tbl) ->
  0 <= c ->
  (exists e, dict_get src (dv_of self h) = Some e /\ cost_of e <= c) ->
  forall y e, dict_get y (deref h tbl) = Some e ->
    exists e', dict_get y (dv_of self' h') = Some e'
               /\ cost_of e' <= c + cost_of (clamp_entry src y e).
Proof.
  intros Hu Htl Hnd HndT HposT Hc (e0 & He0 & Hle0) y e Hy.
  apply update_dv_inv in Hu as (d2 & c2 & d4 & c4 & Hl & Hr & -> & ->).
  cbn zeta in *.
  set (l := dv self) in *. set (a := addr self) in *.
  rewrite with_src_other in Hl by auto.
  rewrite deref_store_neq, with_src_other in Hr by auto.
  set (T := deref h tbl) in *.
  assert (Hd1 : deref (with_src l src h) l = dv_of self h).
  { rewrite with_src_own. fold (dv_of self h).
    replace (dict_mem src (dv_of self h)) with true; [reflexivity|].
    symmetry. apply dict_mem_true. eauto. }
  rewrite Hd1 in Hl.
  pose proof (learn_loop_NoDup _ _ _ _ _ _ Hl Hnd) as Hnd2.
  destruct (learn_loop_spec _ _ _ _ _ _ _ Hl HndT He0) as (Hold & _ & _).
  pose proof (learn_loop_mem _ _ _ _ _ _ Hl) as Hmem2.
  set (d3 := upper_bound a d2) in *.
  assert (Hes3 : dict_get src d3 = Some (clamp_entry a src e0)).
  { unfold d3. rewrite upper_bound_get by assumption.
    rewrite Hold; [now rewrite He0|]. apply dict_mem_true. eauto. }
  assert (Hle3 : cost_of (clamp_entry a src e0) <= c).
  { rewrite clamp_entry_cost. unfold inf. destruct (String.eqb src a); lia. }
  assert (Hpos : src = a \/ forall e, In (src, e) T -> 0 <= cost_of e).
  { right. intros e1 He1. apply (nonneg_In _ HposT HndT _ _ He1). }
  destruct (relax_loop_spec _ _ _ _ _ _ _ _ Hr HndT Hes3 Hpos) as (Hs4 & _ & Hin & _).
  pose proof (relax_loop_NoDup _ _ _ _ _ _ _ Hr (upper_bound_NoDup a _ Hnd2)) as Hnd4.
  pose proof (relax_loop_mem _ _ _ _ _ _ _ Hr) as Hmem4.
  pose proof (HposT _ _ Hy) as Hey.
  unfold dv_of. cbn [dv set_converged]. fold l. rewrite deref_store_eq.
  rewrite upper_bound_get by assumption.
  destruct (String.eqb_spec y a) as [->|Hya].
  - (* the router's own address *)
    assert (Hm : dict_mem a d4 = true).
    { rewrite Hmem4. unfold d3. rewrite upper_bound_mem_eq, Hmem2.
      replace (dict_mem a T) with true; [apply orb_true_r|].
      symmetry. apply dict_mem_true. eauto. }
    apply dict_mem_true in Hm as [e4 ->]. cbn [option_map].
    eexists. split; [reflexivity|].
    rewrite !clamp_entry_cost, String.eqb_refl.
    unfold inf. destruct (String.eqb a src); lia.
  - destruct (Hin y e (dict_get_In _ _ _ Hy) Hya) as (ed & Hed & Hd4).
    destruct (String.eqb_spec y src) as [->|Hys].
    + (* the neighbour itself *)
      rewrite Hs4. cbn [option_map]. eexists. split; [reflexivity|].
      rewrite (clamp_entry_cost src src), String.eqb_refl.
      rewrite (clamp_entry_cost a src (clamp_entry a src e0)).
      rewrite (proj2 (String.eqb_neq src a) Hya). unfold inf. lia.
    + rewrite Hd4. cbn [option_map]. eexists. split; [reflexivity|].
      rewrite (clamp_entry_cost a y), (clamp_entry_cost src y).
      rewrite (proj2 (String.eqb_neq y a) Hya), (proj2 (String.eqb_neq y src) Hys).
      set (c3 := cost_of (clamp_entry a src e0)) in *.
      unfold inf.
      destruct (Z.ltb_spec (c3 + cost_of e) (cost_of ed));
        unfold cost_of in *; cbn [snd]; lia.
Qed.

(** A clamped vector is relaxed against itself *)
Lemma clamped_relaxes_itself a (d : DV) c :
  bounded d -> self_route_ok a d -> nonneg d -> 0 <= c ->
  forall y e, dict_get y d = Some e -> cost_of e <= c + cost_of (clamp_entry a y e).
Proof.
  intros Hb Hs Hp Hc y e Hy. rewrite clamp_entry_cost.
  pose proof (Hb _ _ Hy) as H1. pose proof (Hp _ _ Hy) as H2. unfold inf in *.
  destruct (String.eqb_spec y a) as [->|Hne].
  - rewrite (Hs _ Hy). cbn. lia.
  - lia.
Qed.

Lemma reaches_set cs a (d : DV) k e :
  reaches cs a d -> 0 <= cost_of e -> (cost_of e < inf -> walk cs a k (cost_of e)) ->
  reaches cs a (dict_set k e d).
Proof.
  intros [Hp Hw] He Hwe. split.
  - now apply nonneg_set.
  - intros y e' Hy. rewrite dict_get_set in Hy. cbn [keqb EqKey_string] in Hy.
    destruct (String.eqb_spec y k) as [->|Hne]; [|eauto].
    injection Hy as <-. assumption.
Qed.

Lemma learn_loop_walks cs a src (tbl : DV) : forall (d : DV) (c : Z) d' c',
  for_each (learn_body src) tbl (d, c) = Ok (d', c') ->
  reaches cs a d ->
  (forall y e, In (y, e) tbl ->
     0 <= cost_of e /\ (cost_of e < inf -> walk cs src y (cost_of e))) ->
  reaches cs a d'.
Proof.
  induction tbl as [|[k0 [nh0 c0]] tbl IH]; intros d c d' c' Hrun Hd HT.
  - now injection Hrun as <- <-.
  - cbn [for_each] in Hrun. unfold learn_body at 1 in Hrun.
    assert (HT' : forall y e, In (y, e) tbl ->
              0 <= cost_of e /\ (cost_of e < inf -> walk cs src y (cost_of e))).
    { intros y e Hin. apply HT. now right. }
    destruct (dict_mem k0 d); cbn [bind] in Hrun; [eauto|].
    destruct (dict_get src d) as [es|] eqn:Hes; [|discriminate]. cbn [bind] in Hrun.
    apply (IH _ _ _ _ Hrun); [|assumption].
    destruct (HT k0 (nh0, c0) (or_introl eq_refl)) as [Hc0 Hw0].
    destruct Hd as [Hp Hw]. pose proof (Hp _ _ Hes) as Hes0.
    change (cost_of (nh0, c0)) with c0 in *.
    apply reaches_set; [split; assumption| |]; change (cost_of (nh0, cost_of es + c0))
      with (cost_of es + c0).
    + lia.
    + intros Hlt. apply walk_app with src; [apply (Hw _ _ Hes)|apply Hw0]; lia.
Qed.

Lemma relax_loop_walks cs a src (tbl : DV) : forall (d : DV) (c : Z) d' c',
  for_each (relax_body a src) tbl (d, c) = Ok (d', c') ->
  reaches cs a d ->
  (forall y e, In (y, e) tbl ->
     0 <= cost_of e /\ (cost_of e < inf -> walk cs src y (cost_of e))) ->
  reaches cs a d'.
Proof.
  induction tbl as [|[k0 [nh0 c0]] tbl IH]; intros d c d' c' Hrun Hd HT.
  - now injection Hrun as <- <-.
  - cbn [for_each] in Hrun. unfold relax_body at 1 in Hrun.
    assert (HT' : forall y e, In (y, e) tbl ->
              0 <= cost_of e /\ (cost_of e < inf -> walk cs src y (cost_of e))).
    { intros y e Hin. apply HT. now right. }
    destruct (String.eqb k0 a); cbn [bind] in Hrun; [eauto|].
    destruct (dict_get src d) as [es|] eqn:Hes; [|discriminate].
    destruct (dict_get k0 d) as [ed|]; [|discriminate].
    destruct (cost_of es + c0 <? cost_of ed); cbn [bind] in Hrun; [|eauto].
    apply (IH _ _ _ _ Hrun); [|assumption].
    destruct (HT k0 (nh0, c0) (or_introl eq_refl)) as [Hc0 Hw0].
    destruct Hd as [Hp Hw]. pose proof (Hp _ _ Hes) as Hes0.
    change (cost_of (nh0, c0)) with c0 in *.
    apply reaches_set; [split; assumption| |]; change (cost_of (src, cost_of es + c0))
      with (cost_of es + c0).
    + lia.
    + intros Hlt. apply walk_app with src; [apply (Hw _ _ Hes)|apply Hw0]; lia.
Qed.

Lemma upper_bound_walks cs a (d : DV) :
  NoDup (dict_keys d) -> reaches cs a d -> reaches cs a (upper_bound a d).
Proof.
  intros Hnd [Hp Hw]. split; [now apply upper_bound_nonneg|].
  intros y e. rewrite upper_bound_get by assumption.
  destruct (dict_get y d) as [e0|] eqn:E; [|discriminate]. cbn [option_map].
  intros [= <-]. unfold clamp_entry.
  destruct (String.eqb_spec y a) as [->|Hne].
  - intros _. cbn. constructor.
  - destruct (cost_of e0 >? inf); [cbn; unfold inf; lia|]. eauto.
Qed.

Lemma with_src_walks cs a l src h :
  reaches cs a (deref h l) -> reaches cs a (deref (with_src l src h) l).
Proof.
  intros Hd. rewrite with_src_own. destruct (dict_mem src (deref h l)); [assumption|].
  apply reaches_set; [assumption|cbn; unfold inf; lia|cbn; unfold inf; lia].
Qed.

Lemma reaches_items cs src (T : DV) :
  NoDup (dict_keys T) -> reaches cs src T ->
  forall y e, In (y, e) T ->
    0 <= cost_of e /\ (cost_of e < inf -> walk cs src y (cost_of e)).
Proof.
  intros Hnd [Hp Hw] y e Hin. apply (NoDup_dict_get _ _ _ Hnd) in Hin. split; eauto.
Qed.

(** An update keeps the costs of a vector costs of walks *)
Lemma update_dv_walks cs self src tbl h self' h' :
  update_dv self src tbl h = Ok (self', h') ->
  NoDup (dict_keys (dv_of self h)) ->
  reaches cs (addr self) (dv_of self h) ->
  (tbl <> dv self -> NoDup (dict_keys (deref h tbl)) /\ reaches cs src (deref h tbl)) ->
  (tbl = dv self -> src = addr self) ->
  reaches cs (addr self) (dv_of self' h').
Proof.
  intros Hu Hnd Hd HT Halias.
  apply update_dv_inv in Hu as (d2 & c2 & d4 & c4 & Hl & Hr & -> & ->).
  cbn zeta in *.
  set (l := dv self) in *. set (a := addr self) in *.
  pose proof (with_src_walks cs a l src h Hd) as Hd1.
  pose proof (with_src_NoDup l src h Hnd) as Hnd1.
  pose proof (learn_loop_NoDup _ _ _ _ _ _ Hl Hnd1) as Hnd2.
  assert (Hd2 : reaches cs a d2).
  { apply (learn_loop_walks cs a _ _ _ _ _ _ Hl Hd1).
    destruct (Nat.eq_dec tbl l) as [->|Hne].
    - rewrite (Halias eq_refl) in *. now apply reaches_items.
    - rewrite with_src_other by auto. destruct (HT Hne). now apply reaches_items. }
  pose proof (upper_bound_walks cs a d2 Hnd2 Hd2) as Hd3.
  pose proof (upper_bound_NoDup a d2 Hnd2) as Hnd3.
  assert (Hd4 : reaches cs a d4).
  { apply (relax_loop_walks cs a _ _ _ _ _ _ Hr Hd3).
    destruct (Nat.eq_dec tbl l) as [->|Hne].
    - rewrite deref_store_eq, (Halias eq_refl) in *. now apply reaches_items.
    - rewrite deref_store_neq, with_src_other by auto.
      destruct (HT Hne). now apply reaches_items. }
  pose proof (relax_loop_NoDup _ _ _ _ _ _ _ Hr Hnd3) as Hnd4.
  unfold dv_of. cbn [dv set_converged]. fold l. rewrite deref_store_eq.
  now apply upper_bound_walks.
Qed.

(* ================================================================= *)
(** ** Every operation is a sequence of moves *)

Lemma send_sweep_moves : forall post pre st,
  clos_refl_trans Network move
    (mkNetwork (pre ++ post) st)
    (mkNetwork (pre ++ fst (each_router Router_send_dv post st))
               (snd (each_router Router_send_dv post st))).
Proof.
  induction post as [|[a r] post IH]; intros pre st; cbn [each_router].
  - apply rt_refl.
  - pose proof (move_send pre a r post st) as Hm.
    destruct (Router_send_dv r st) as [r1 st1]. cbn [fst snd] in Hm.
    specialize (IH (pre ++ [(a, r1)]) st1).
    destruct (each_router Router_send_dv post st1) as [post1 st2]. cbn [fst snd] in *.
    rewrite <- !app_assoc in IH. cbn [app] in IH.
    eapply rt_trans; [apply rt_step; exact Hm|exact IH].
Qed.

Lemma Router_route_moves fuel : forall r st r' st',
  Router_route fuel r st = Ok (r', st') ->
  forall pre a post,
    clos_refl_trans Network move
      (mkNetwork (pre ++ (a, r) :: post) st) (mkNetwork (pre ++ (a, r') :: post) st').
Proof.
  induction fuel as [|fuel IH]; intros r st r' st'; cbn [Router_route];
    destruct (queue_contents (queues st) (in_queue r)) as [|p rest] eqn:Hq;
    try discriminate; try (intros [= <- <-] pre a post; apply rt_refl).
  destruct (route_packet r p _) as [[r1 st1]| |] eqn:Hp; cbn [bind]; try discriminate.
  intros Hr pre a post.
  eapply rt_trans; [apply rt_step; eapply move_packet; eauto|].
  now apply IH.
Qed.

Lemma route_sweep_moves fuel : forall post pre st post' st',
  each_router_r (Router_route fuel) post st = Ok (post', st') ->
  clos_refl_trans Network move (mkNetwork (pre ++ post) st) (mkNetwork (pre ++ post') st').
Proof.
  induction post as [|[a r] post IH]; intros pre st post' st'; cbn [each_router_r].
  - intros [= <- <-]. apply rt_refl.
  - destruct (Router_route fuel r st) as [[r1 st1]| |] eqn:Hr; cbn [bind]; try discriminate.
    destruct (each_router_r _ post st1) as [[post1 st2]| |] eqn:Hrs; cbn [bind];
      try discriminate.
    intros [= <- <-].
    eapply rt_trans; [eapply Router_route_moves; eauto|].
    specialize (IH (pre ++ [(a, r1)]) _ _ _ Hrs).
    rewrite <- !app_assoc in IH. exact IH.
Qed.

Lemma Network_send_dv_moves net : clos_refl_trans Network move net (Network_send_dv net).
Proof.
  unfold Network_send_dv. pose proof (send_sweep_moves (routers net) [] (store net)) as H.
  destruct (each_router Router_send_dv (routers net) (store net)) as [rs st].
  destruct net. exact H.
Qed.

Lemma Network_route_moves fuel net net' :
  Network_route fuel net = Ok net' -> clos_refl_trans Network move net net'.
Proof.
  unfold Network_route.
  destruct (each_router_r _ _ _) as [[rs st]| |] eqn:Hr; cbn [bind]; try discriminate.
  intros [= <-]. apply (route_sweep_moves fuel _ []) in Hr. destruct net. exact Hr.
Qed.

Lemma step_moves fuel net net' :
  step fuel net = Ok net' -> clos_refl_trans Network move net net'.
Proof.
  unfold step. intros H. eapply rt_trans; [apply Network_send_dv_moves|].
  eapply Network_route_moves; eauto.
Qed.

Lemma run_loop_moves n : forall fuel net steps steps' net',
  run_loop n fuel net steps = Ok (steps', net') -> clos_refl_trans Network move net net'.
Proof.
  induction n as [|n IH]; intros fuel net steps steps' net'; cbn [run_loop];
    destruct (is_stable net); try discriminate;
    try (intros [= _ <-]; apply rt_refl).
  destruct (step fuel net) as [net1| |] eqn:Hs; cbn [bind]; try discriminate.
  intros Hr. eapply rt_trans; [eapply step_moves; eauto|eauto].
Qed.

Lemma operation_moves net net' :
  operation net net' -> clos_refl_trans Network move net net'.
Proof.
  intros [n|fuel n n' H|fuel n n' H|fuel n k n' H|s d m n n' H].
  - apply Network_send_dv_moves.
  - eapply Network_route_moves; eauto.
  - eapply step_moves; eauto.
  - eapply run_loop_moves; eauto.
  - apply rt_step. eapply move_message; eauto.
Qed.

Lemma reachable_moves net net' :
  clos_refl_trans Network operation net net' -> clos_refl_trans Network move net net'.
Proof.
  induction 1 as [x y Hop|x|x y z _ IH1 _ IH2].
  - now apply operation_moves.
  - apply rt_refl.
  - eapply rt_trans; eauto.
Qed.

Lemma moves_keep (P : Network -> Prop) :
  (forall net net', P net -> move net net' -> P net') ->
  forall net net', clos_refl_trans Network move net net' -> P net -> P net'.
Proof.
  intros Hstep net net' H. induction H as [x y Hm|x|x y z _ IH1 _ IH2]; eauto.
Qed.

(* ================================================================= *)
(** ** Replacing one router of the list *)

Lemma NoDup_map_eq {X Y : Type} (f : X -> Y) (l : list X) x y :
  NoDup (map f l) -> In x l -> In y l -> f x = f y -> x = y.
Proof.
  induction l as [|z l IH]; cbn [map In]; [tauto|].
  intros Hnd Hx Hy Hf. inversion Hnd as [|? ? Hz Hnd']; subst.
  destruct Hx as [->|Hx], Hy as [->|Hy]; auto.
  - exfalso. apply Hz. rewrite Hf. now apply in_map.
  - exfalso. apply Hz. rewrite <- Hf. now apply in_map.
Qed.

Lemma keys_In_eq (rs : dict address Router) a r r' :
  NoDup (dict_keys rs) -> In (a, r) rs -> In (a, r') rs -> r = r'.
Proof.
  intros Hnd H1 H2.
  assert (E : (a, r) = (a, r')) by (eapply (NoDup_map_eq fst); eauto).
  congruence.
Qed.

Lemma locs_In_eq (rs : dict address Router) a r b r' :
  NoDup (locs rs) -> In (a, r) rs -> In (b, r') rs -> dv r = dv r' -> a = b /\ r = r'.
Proof.
  intros Hnd H1 H2 E.
  assert (E' : (a, r) = (b, r')).
  { eapply (NoDup_map_eq (fun ar : address * Router => dv (snd ar))); eauto. }
  split; congruence.
Qed.

Lemma replaced_keys (pre post : dict address Router) a r r' :
  dict_keys (pre ++ (a, r') :: post) = dict_keys (pre ++ (a, r) :: post).
Proof. unfold dict_keys. now rewrite !map_app. Qed.

Lemma replaced_locs (pre post : dict address Router) a r r' :
  dv r' = dv r -> locs (pre ++ (a, r') :: post) = locs (pre ++ (a, r) :: post).
Proof. intros E. unfold locs. rewrite !map_app. cbn [map snd]. now rewrite E. Qed.

Lemma replaced_In (pre post : dict address Router) a r r' b rb :
  NoDup (dict_keys (pre ++ (a, r) :: post)) ->
  In (b, rb) (pre ++ (a, r') :: post) ->
  (b = a /\ rb = r') \/ (b <> a /\ In (b, rb) (pre ++ (a, r) :: post)).
Proof.
  intros Hnd Hin.
  assert (Hother : In (b, rb) (pre ++ post) -> b <> a /\ In (b, rb) (pre ++ (a, r) :: post)).
  { intros H. split.
    - intros ->. unfold dict_keys in Hnd. rewrite map_app in Hnd. cbn [map fst] in Hnd.
      apply NoDup_remove_2 in Hnd. apply Hnd. rewrite <- map_app.
      change a with (fst (a, rb)). now apply in_map.
    - apply in_app_iff in H as [H|H]; apply in_app_iff; [now left|right; now right]. }
  apply in_app_iff in Hin as [Hin|[[= <- <-]|Hin]].
  - right. apply Hother. apply in_app_iff. now left.
  - now left.
  - right. apply Hother. apply in_app_iff. now right.
Qed.

Lemma replaced_same_wiring (pre post : dict address Router) a r c :
  same_wiring (pre ++ (a, r) :: post) (pre ++ (a, set_converged c r) :: post).
Proof.
  apply Forall2_app; [apply same_wiring_refl|].
  constructor; [|apply same_wiring_refl]. split; [reflexivity|]. now exists c.
Qed.

Lemma same_wiring_keys rs rs' : same_wiring rs rs' -> dict_keys rs' = dict_keys rs.
Proof.
  induction 1 as [|x y xs ys [Hk _] _ IH]; cbn [dict_keys map]; [reflexivity|].
  unfold dict_keys in IH. now rewrite Hk, IH.
Qed.

Lemma same_wiring_locs rs rs' : same_wiring rs rs' -> locs rs' = locs rs.
Proof.
  induction 1 as [|x y xs ys [_ [c Hc]] _ IH]; cbn [locs map]; [reflexivity|].
  unfold locs in IH. now rewrite Hc, IH.
Qed.

(* ================================================================= *)
(** ** Shortest paths: the invariant *)

Lemma same_wiring_In_l rs rs' : same_wiring rs rs' ->
  forall a r, In (a, r) rs -> exists r' c, In (a, r') rs' /\ r' = set_converged c r.
Proof.
  intros Hw a r Hin.
  apply (Forall2_In_l _ _ _ Hw) in Hin as ([a' r'] & Hin & Hk & c & Hc).
  cbn [fst snd] in *. subst. eauto.
Qed.

Lemma relaxed_against_wiring rv rx h cv cx :
  relaxed_against rv rx h ->
  relaxed_against (set_converged cv rv) (set_converged cx rx) h.
Proof. exact (fun H => H). Qed.

(** A move that leaves the vectors alone keeps the invariant *)
Lemma invariant_quiet cs rs st rs' st' :
  invariant cs (mkNetwork rs st) ->
  same_wiring rs rs' ->
  heap st' = heap st ->
  (forall q p, In p (queue_contents (queues st') q) -> is_http p = false ->
     In p (queue_contents (queues st) q)
     \/ exists s r, p = DVPacket s q (dv r) /\ In (s, r) rs
                    /\ dict_mem q (out_queues r) = true) ->
  (forall q p, In p (queue_contents (queues st) q) -> is_http p = false ->
     In p (queue_contents (queues st') q)) ->
  (forall v rv rv', In (v, rv) rs -> In (v, rv') rs' -> converged rv' <> 2 ->
     converged rv <> 2
     \/ forall x, dict_mem x (out_queues rv) = true ->
          In (DVPacket v x (dv rv)) (queue_contents (queues st') x)) ->
  invariant cs (mkNetwork rs' st').
Proof.
  intros (Hw & Hv & Hp & Hn & Hk & Ha) Hsw Hh Hnew Hkeep Hcnt.
  cbn [routers store] in *.
  pose proof (same_wiring_In _ _ Hsw) as Hback.
  pose proof (same_wiring_In_l _ _ Hsw) as Hforth.
  destruct Hw as (Hw1 & Hw2 & Hw3).
  unfold invariant. cbn [routers store]. rewrite Hh.
  split; [|split; [|split; [|split; [|split]]]].
  - split; [|split].
    + now rewrite (same_wiring_keys _ _ Hsw).
    + now rewrite (same_wiring_locs _ _ Hsw).
    + intros a r' Hin. destruct (Hback _ _ Hin) as (r & c & Hin0 & ->).
      apply (Hw3 _ _ Hin0).
  - intros a r' Hin. destruct (Hback _ _ Hin) as (r & c & Hin0 & ->).
    apply (Hv _ _ Hin0).
  - intros q p Hin Hhttp.
    assert (Hok : exists s r, p = DVPacket s q (dv r) /\ In (s, r) rs
                              /\ dict_mem q (out_queues r) = true).
    { destruct (Hnew _ _ Hin Hhttp) as [Hold|Hok]; [|assumption]. now apply Hp. }
    destruct Hok as (s & r & -> & Hin0 & Hm).
    destruct (Hforth _ _ Hin0) as (r' & c & Hin' & ->).
    exists s, (set_converged c r). auto.
  - intros a r' Hin. destruct (Hback _ _ Hin) as (r & c & Hin0 & ->).
    apply (Hn _ _ Hin0).
  - intros a r' Hin. destruct (Hback _ _ Hin) as (r & c & Hin0 & ->).
    apply (Hk _ _ Hin0).
  - intros v rv' x rx' Hinv Hinx Hout Hc.
    destruct (Hback _ _ Hinv) as (rv & cv & Hinv0 & Ev).
    destruct (Hback _ _ Hinx) as (rx & cx & Hinx0 & Ex).
    assert (Hout0 : dict_mem x (out_queues rv) = true) by (now rewrite Ev in Hout).
    assert (Edv : dv rv' = dv rv) by (now rewrite Ev).
    rewrite Edv.
    destruct (Hcnt _ _ _ Hinv0 Hinv Hc) as [Hc0|Hsent].
    + destruct (Ha _ _ _ _ Hinv0 Hinx0 Hout0 Hc0) as [Hpend|Hrel].
      * left. now apply Hkeep.
      * right. rewrite Ev, Ex, Hh. now apply relaxed_against_wiring.
    + left. now apply Hsent.
Qed.

Lemma invariant_send cs pre a r post st :
  invariant cs (mkNetwork (pre ++ (a, r) :: post) st) ->
  invariant cs (mkNetwork (pre ++ (a, fst (Router_send_dv r st)) :: post)
                          (snd (Router_send_dv r st))).
Proof.
  intros Hinv.
  destruct (Router_send_dv_spec r st) as (Hr & Hh & _ & Hq).
  destruct (after_send_wiring r) as [c Hc].
  pose proof Hinv as (Hw & _). cbn [routers] in Hw. destruct Hw as (Hw1 & Hw2 & Hw3).
  assert (Hin0 : In (a, r) (pre ++ (a, r) :: post)) by (apply in_elt).
  destruct (Hw3 _ _ Hin0) as (Ha & Hiq & _ & _ & Hout).
  apply (invariant_quiet cs (pre ++ (a, r) :: post) st); auto.
  - rewrite Hr, Hc. apply replaced_same_wiring.
  - intros q p Hin Hhttp. rewrite Hq in Hin. apply in_app_iff in Hin as [Hin|Hin]; [now left|].
    right. destruct (converged r =? 0); [contradiction|].
    apply In_sent_to in Hin as (k & -> & Hk).
    pose proof (Hout _ _ Hk) as ->. exists a, r. rewrite Ha.
    split; [reflexivity|]. split; [assumption|]. now apply In_dict_mem with q.
  - intros q p Hin _. rewrite Hq. apply in_app_iff. now left.
  - intros v rv rv' Hv Hv' Hcv.
    destruct (replaced_In pre post a r _ v rv' Hw1 Hv') as [[-> ->]|[Hne Hv'']].
    + assert (rv = r) as -> by (eapply keys_In_eq; eauto).
      rewrite Hr in Hcv. unfold after_send in Hcv.
      destruct (Z.eqb_spec (converged r) 0) as [E|E]; [left; lia|right].
      intros x Hx. rewrite Hq.
      apply in_app_iff. right. rewrite <- Ha. apply sent_to_In.
      apply dict_mem_true in Hx as [q Hx]. apply dict_get_In in Hx.
      now rewrite <- (Hout _ _ Hx) in Hx.
    + left. assert (rv' = rv) as -> by (eapply keys_In_eq; eauto). assumption.
Qed.

Lemma invariant_message cs src dst msg net net' :
  send_message src dst msg net = Ok net' -> invariant cs net -> invariant cs net'.
Proof.
  unfold send_message. destruct (dict_mem src _); [|discriminate].
  intros [= <-] Hinv. destruct net as [rs st]. cbn [routers store] in *.
  pose proof Hinv as ((Hw1 & _) & _). cbn [routers] in Hw1.
  apply (invariant_quiet cs rs st); auto.
  - apply same_wiring_refl.
  - intros q p Hin Hhttp. left. rewrite queue_contents_put in Hin.
    destruct (String.eqb_spec q src) as [->|Hne]; [|assumption].
    apply in_app_iff in Hin as [Hin|[<-|[]]]; [assumption|discriminate].
  - intros q p Hin _. rewrite queue_contents_put.
    destruct (String.eqb_spec q src) as [->|Hne]; [|assumption].
    apply in_app_iff. now left.
  - intros v rv rv' Hv Hv' Hc. left.
    assert (rv' = rv) as -> by (eapply keys_In_eq; eauto). assumption.
Qed.

Lemma route_packet_message self p st self' st' :
  is_http p = true ->
  route_packet self p st = Ok (self', st') ->
  self' = self /\ heap st' = heap st
  /\ (forall q p', In p' (queue_contents (queues st) q) ->
                   In p' (queue_contents (queues st') q))
  /\ (forall q p', In p' (queue_contents (queues st') q) -> is_http p' = false ->
                   In p' (queue_contents (queues st) q)).
Proof.
  intros Hhttp. destruct p as [s d t|s d m]; [discriminate|].
  unfold route_packet. cbn [pkt_dst pkt_src read_packet].
  destruct (String.eqb d (addr self)).
  - intros [= <- <-]. cbn [heap queues emit]. auto.
  - destruct (dict_get d _) as [e|].
    + destruct (dict_get (next_hop_of e) _) as [q0|]; [|discriminate].
      intros [= <- <-]. cbn [heap emit].
      change (queues (emit _ ?s)) with (queues s).
      split; [reflexivity|]. split; [reflexivity|]. split.
      * intros q p' Hin. rewrite queue_contents_put.
        destruct (String.eqb_spec q q0) as [->|Hne]; [|assumption].
        apply in_app_iff. now left.
      * intros q p' Hin Hdv. rewrite queue_contents_put in Hin.
        destruct (String.eqb_spec q q0) as [->|Hne]; [|assumption].
        apply in_app_iff in Hin as [Hin|[<-|[]]]; [assumption|discriminate].
    + intros [= <- <-]. cbn [heap queues emit]. auto.
Qed.

Lemma invariant_take_message cs pre a r post st p rest r' st' :
  is_http p = true ->
  queue_contents (queues st) (in_queue r) = p :: rest ->
  route_packet r p (set_queue (in_queue r) rest st) = Ok (r', st') ->
  invariant cs (mkNetwork (pre ++ (a, r) :: post) st) ->
  invariant cs (mkNetwork (pre ++ (a, r') :: post) st').
Proof.
  intros Hhttp Hq Hp Hinv.
  apply (route_packet_message _ _ _ _ _ Hhttp) in Hp as (-> & Hh & Hfw & Hbw).
  cbn [heap set_queue] in Hh.
  pose proof Hinv as ((Hw1 & _) & _). cbn [routers] in Hw1.
  apply (invariant_quiet cs (pre ++ (a, r) :: post) st); auto.
  - apply same_wiring_refl.
  - intros q p' Hin Hdv. left. apply Hbw in Hin; [|assumption].
    cbn [queues set_queue] in Hin. rewrite queue_contents_set in Hin.
    destruct (String.eqb_spec q (in_queue r)) as [->|Hne]; [|assumption].
    rewrite Hq. now right.
  - intros q p' Hin Hdv. apply Hfw. cbn [queues set_queue].
    rewrite queue_contents_set.
    destruct (String.eqb_spec q (in_queue r)) as [->|Hne]; [|assumption].
    rewrite Hq in Hin. destruct Hin as [<-|Hin]; [congruence|assumption].
  - intros v rv rv' Hv Hv' Hc. left.
    assert (rv' = rv) as -> by (eapply keys_In_eq; eauto). assumption.
Qed.

Lemma refines_lowers a (d d' : DV) :
  refines a d d' -> nonneg d ->
  forall y e, dict_get y d = Some e ->
    exists e', dict_get y d' = Some e' /\ cost_of e' <= cost_of e.
Proof.
  intros [Hk Hc] Hp y e Hy.
  assert (Hm : dict_mem y d' = true) by (apply Hk, dict_mem_true; eauto).
  apply dict_mem_true in Hm as [e' He']. exists e'. split; [assumption|].
  destruct (Hc _ _ _ Hy He') as [Hne Heq].
  destruct (String.eqb_spec y a) as [->|Hya]; [|auto].
  pose proof (Hp _ _ Hy). destruct (Heq eq_refl); lia.
Qed.

(** The facts about one update that the invariant needs *)
Lemma update_dv_facts cs self src tbl h self' h' c :
  update_dv self src tbl h = Ok (self', h') ->
  NoDup (dict_keys (dv_of self h)) -> reaches cs (addr self) (dv_of self h) ->
  NoDup (dict_keys (deref h tbl)) -> reaches cs src (deref h tbl) ->
  (tbl = dv self -> src = addr self) ->
  0 <= c ->
  (exists e, dict_get src (dv_of self h) = Some e /\ cost_of e <= c) ->
  let d := dv_of self h in
  let d' := dv_of self' h' in
  (exists k, self' = set_converged k self /\ (k = converged self \/ k = 2))
  /\ (forall l, l <> dv self -> deref h' l = deref h l)
  /\ NoDup (dict_keys d') /\ reaches cs (addr self) d'
  /\ bounded d' /\ self_route_ok (addr self) d'
  /\ (forall y e, dict_get y d = Some e ->
        exists e', dict_get y d' = Some e' /\ cost_of e' <= cost_of e)
  /\ (tbl <> dv self -> forall y e, dict_get y (deref h tbl) = Some e ->
        exists e', dict_get y d' = Some e'
                   /\ cost_of e' <= c + cost_of (clamp_entry src y e))
  /\ (converged self' <> 2 ->
        converged self <> 2
        /\ forall y, dict_get y d'
             = option_map (fun e => clamp_entry (addr self) y (clamp_entry (addr self) y e))
                          (dict_get y d)).
Proof.
  intros Hu Hnd Hd HndT HT Halias Hc Hsrc. cbn zeta.
  pose proof (update_dv_counter _ _ _ _ _ _ Hu) as Hcnt.
  pose proof (update_dv_frame _ _ _ _ _ _ Hu) as (_ & _ & Hframe).
  pose proof (update_dv_NoDup _ _ _ _ _ _ Hu Hnd) as Hnd'.
  pose proof (update_dv_own_entry _ _ _ _ _ _ Hu) as (Ea & Hself & _).
  pose proof (update_dv_capped _ _ _ _ _ _ Hu) as Hb.
  pose proof (update_dv_refines _ _ _ _ _ _ Hu Hnd) as [Href _].
  split; [assumption|]. split; [assumption|]. split; [assumption|].
  split; [|split; [assumption|split; [now rewrite <- Ea|split; [|split]]]].
  - apply (update_dv_walks cs _ _ _ _ _ _ Hu); auto.
  - apply (refines_lowers _ _ _ Href). apply Hd.
  - intros Htl. apply (update_dv_relaxes _ _ _ _ _ _ c Hu); auto. apply HT.
  - intros Hc2. destruct Hsrc as (e & He & _).
    destruct (update_dv_quiet _ _ _ _ _ _ Hu Hc2) as [Eq Ec].
    { apply dict_mem_true. eauto. }
    split; [congruence|]. intros y. rewrite Eq.
    rewrite !upper_bound_get by (try apply upper_bound_NoDup; assumption).
    now destruct (dict_get y (dv_of self h)).
Qed.

(** What an update does inside a network that satisfies the invariant:
    [c] is the cost of the link to the sender of the advertisement *)
Lemma update_in_network cs rs st a r s rs_ r' h' :
  links_ok cs ->
  invariant cs (mkNetwork rs st) ->
  In (a, r) rs -> In (s, rs_) rs ->
  dict_mem a (out_queues rs_) = true ->
  update_dv r s (dv rs_) (heap st) = Ok (r', h') ->
  exists c k,
    dict_get s (costs r) = Some c /\ 0 <= c
    /\ r' = set_converged k r /\ (k = converged r \/ k = 2)
    /\ NoDup (dict_keys (dv_of r h')) /\ reaches cs a (dv_of r h')
    /\ bounded (dv_of r h') /\ self_route_ok a (dv_of r h')
    /\ (forall y e, dict_get y (dv_of r (heap st)) = Some e ->
          exists e', dict_get y (dv_of r h') = Some e' /\ cost_of e' <= cost_of e)
    /\ (s <> a -> forall y e, dict_get y (dv_of rs_ (heap st)) = Some e ->
          exists e', dict_get y (dv_of r h') = Some e'
                     /\ cost_of e' <= c + cost_of (clamp_entry s y e))
    /\ (k <> 2 ->
          converged r <> 2
          /\ forall y, dict_get y (dv_of r h')
               = option_map (fun e => clamp_entry a y (clamp_entry a y e))
                            (dict_get y (dv_of r (heap st))))
    /\ (forall b rb, In (b, rb) rs -> b <> a -> dv_of rb h' = dv_of rb (heap st)).
Proof.
  intros [Hpos Hsym] Hinv Hr Hs Hsout Hu.
  destruct Hinv as ((Hw1 & Hw2 & Hw3) & Hv & Hp & Hn & Hk & Ha).
  cbn [routers store] in *.
  destruct (Hw3 _ _ Hr) as (Ea & Eq & Hcosts & Houts & Hkq).
  destruct (Hw3 _ _ Hs) as (Es & _ & _ & Houts_s & _).
  assert (Hlink : dict_mem (s, a) cs = true) by (rewrite <- Houts_s; exact Hsout).
  apply Hsym in Hlink. apply dict_mem_true in Hlink as [c Hc].
  assert (Hc0 : 0 <= c) by (eapply Hpos; eauto).
  assert (Hcr : dict_get s (costs r) = Some c) by (rewrite Hcosts; exact Hc).
  destruct (Hv _ _ Hr) as [Hnd Hnn]. destruct (Hv _ _ Hs) as [HndT HnnT].
  assert (Hreach : reaches cs (addr r) (dv_of r (heap st))).
  { rewrite Ea. split; [assumption|apply (Hk _ _ Hr)]. }
  assert (HreachT : reaches cs s (deref (heap st) (dv rs_))).
  { split; [assumption|apply (Hk _ _ Hs)]. }
  assert (Halias : dv rs_ = dv r -> s = addr r).
  { intros E. destruct (locs_In_eq _ _ _ _ _ Hw2 Hs Hr E) as [-> _]. now rewrite Ea. }
  destruct (update_dv_facts cs r s (dv rs_) (heap st) r' h' c Hu Hnd Hreach HndT HreachT
              Halias Hc0 (Hn _ _ Hr _ _ Hcr))
    as (Hcnt & Hframe & Hnd' & Hreach' & Hb' & Hself' & Hlow & Hrel & Hquiet).
  cbn zeta in *. rewrite Ea in *.
  destruct Hcnt as (k & -> & Hk2).
  change (dv_of (set_converged k r) h') with (dv_of r h') in *.
  cbn [converged set_converged] in Hquiet.
  exists c, k.
  split; [assumption|]. split; [assumption|]. split; [reflexivity|].
  split; [assumption|]. split; [assumption|]. split; [assumption|].
  split; [assumption|]. split; [assumption|]. split; [assumption|].
  split; [|split; [assumption|]].
  - intros Hsa. apply Hrel. intros E. apply Halias in E. congruence.
  - intros b rb Hb Hne. unfold dv_of. apply Hframe. intros E.
    destruct (locs_In_eq _ _ _ _ _ Hw2 Hb Hr E). contradiction.
Qed.

(** Taking a distance-vector packet from the queue keeps the invariant *)
Lemma invariant_update cs pre a r post st s rs_ rest r' h' lg :
  links_ok cs ->
  invariant cs (mkNetwork (pre ++ (a, r) :: post) st) ->
  In (s, rs_) (pre ++ (a, r) :: post) ->
  dict_mem a (out_queues rs_) = true ->
  queue_contents (queues st) a = DVPacket s a (dv rs_) :: rest ->
  update_dv r s (dv rs_) (heap st) = Ok (r', h') ->
  invariant cs (mkNetwork (pre ++ (a, r') :: post)
                          (mkStore h' (dict_set a rest (queues st)) lg)).
Proof.
  intros Hlinks Hinv Hs Hsout Hq Hu.
  set (rs := pre ++ (a, r) :: post) in *.
  assert (Hr : In (a, r) rs) by apply in_elt.
  destruct (update_in_network cs rs st a r s rs_ r' h' Hlinks Hinv Hr Hs Hsout Hu)
    as (c & k & Hcr & Hc0 & -> & Hk2 & Hnd' & Hreach' & Hb' & Hself' & Hlow & Hrel
        & Hquiet & Hother).
  destruct Hlinks as [Hpos Hsym].
  destruct Hinv as ((Hw1 & Hw2 & Hw3) & Hv & Hp & Hn & Hk & Ha).
  cbn [routers store] in *.
  destruct (Hw3 _ _ Hr) as (Ea & Eq & Hcosts & Houts & Hkq).
  destruct (Hw3 _ _ Hs) as (Es & _ & _ & Houts_s & _).
  assert (Hcases : forall b rb, In (b, rb) (pre ++ (a, set_converged k r) :: post) ->
            (b = a /\ rb = set_converged k r) \/ (b <> a /\ In (b, rb) rs)).
  { intros b rb Hb. eapply replaced_In; eauto. }
  assert (Hnewq : forall q p, In p (queue_contents (dict_set a rest (queues st)) q) ->
            In p (queue_contents (queues st) q)).
  { intros q p Hin. rewrite queue_contents_set in Hin.
    destruct (String.eqb_spec q a) as [->|Hne]; [|assumption].
    rewrite Hq. now right. }
  unfold invariant. cbn [routers store heap queues].
  split; [|split; [|split; [|split; [|split]]]].
  - (* wiring *)
    split; [|split].
    + now rewrite (replaced_keys pre post a r).
    + now rewrite (replaced_locs pre post a r).
    + intros b rb Hb. destruct (Hcases _ _ Hb) as [[-> ->]|[Hne Hb0]]; [|now apply Hw3].
      apply (Hw3 _ _ Hr).
  - (* vectors *)
    intros b rb Hb. destruct (Hcases _ _ Hb) as [[-> ->]|[Hne Hb0]].
    + split; [assumption|apply Hreach'].
    + rewrite (Hother _ _ Hb0 Hne). apply (Hv _ _ Hb0).
  - (* packets *)
    intros q p Hin Hdv. apply Hnewq in Hin.
    destruct (Hp _ _ Hin Hdv) as (s1 & r1 & -> & Hin1 & Hm1).
    destruct (String.eqb_spec s1 a) as [->|Hne].
    + assert (r1 = r) as -> by (eapply keys_In_eq; eauto).
      exists a, (set_converged k r). split; [reflexivity|]. split; [apply in_elt|assumption].
    + exists s1, r1. split; [reflexivity|]. split; [|assumption].
      unfold rs in Hin1. apply in_app_iff in Hin1 as [H|[[= E _]|H]];
        [apply in_app_iff; now left|congruence|apply in_app_iff; right; now right].
  - (* neighbours *)
    intros b rb Hb y c1 Hy. destruct (Hcases _ _ Hb) as [[-> ->]|[Hne Hb0]].
    + destruct (Hn _ _ Hr _ _ Hy) as (e & He & Hle).
      destruct (Hlow _ _ He) as (e' & He' & Hle'). exists e'. split; [assumption|lia].
    + rewrite (Hother _ _ Hb0 Hne). apply (Hn _ _ Hb0 _ _ Hy).
  - (* walks *)
    intros b rb Hb. destruct (Hcases _ _ Hb) as [[-> ->]|[Hne Hb0]].
    + apply Hreach'.
    + rewrite (Hother _ _ Hb0 Hne). apply (Hk _ _ Hb0).
  - (* advertised *)
    intros v rv' x rx' Hv' Hx' Hout Hcv.
    unfold relaxed_against. cbn [heap queues].
    destruct (Hcases _ _ Hx') as [[-> ->]|[Hxa Hx0]].
    + (* the receiver is the updated router *)
      destruct (Hcases _ _ Hv') as [[-> ->]|[Hva Hv0]].
      * right. split; [assumption|]. split; [now rewrite <- Ea in Hself'|].
        intros c1 Hc1 y e Hy. exists e. split; [assumption|].
        cbn [addr set_converged costs] in *. rewrite Ea in *.
        assert (Hc1' : 0 <= c1) by (rewrite Hcosts in Hc1; eapply Hpos; eauto).
        exact (clamped_relaxes_itself a _ c1 Hb' Hself' (proj1 Hreach') Hc1' y e Hy).
      * destruct (String.eqb_spec v s) as [->|Hvs].
        -- assert (rv' = rs_) as -> by (eapply keys_In_eq; eauto).
           right. split; [assumption|]. split; [now rewrite <- Ea in Hself'|].
           intros c1 Hc1 y e Hy. rewrite Es in *. cbn [costs set_converged] in Hc1.
           assert (c1 = c) as -> by congruence.
           change (dv_of (set_converged k r) h') with (dv_of r h').
           rewrite (Hother _ _ Hv0 Hva) in Hy.
           apply (Hrel Hva _ _ Hy).
        -- destruct (Ha v rv' a r Hv0 Hr Hout Hcv) as [Hpend|(_ & _ & Hold)].
           ++ left. rewrite queue_contents_set, String.eqb_refl.
              rewrite Hq in Hpend. destruct Hpend as [[= E _]|Hin]; [congruence|assumption].
           ++ right. split; [assumption|]. split; [now rewrite <- Ea in Hself'|].
              intros c1 Hc1 y e Hy. rewrite (Hother _ _ Hv0 Hva) in Hy.
              destruct (Hold c1 Hc1 y e Hy) as (e1 & He1 & Hle1).
              destruct (Hlow _ _ He1) as (e' & He' & Hle').
              exists e'. split; [assumption|lia].
    + (* the receiver is another router *)
      assert (Hqx : queue_contents (dict_set a rest (queues st)) x
                    = queue_contents (queues st) x).
      { rewrite queue_contents_set. now rewrite (proj2 (String.eqb_neq x a) Hxa). }
      rewrite Hqx.
      destruct (Hcases _ _ Hv') as [[-> ->]|[Hva Hv0]].
      * cbn [converged set_converged] in Hcv. destruct (Hquiet Hcv) as [Hc2 Hget].
        destruct (Ha a r x rx' Hr Hx0 Hout Hc2) as [Hpend|(Hb0 & Hs0 & Hold)].
        -- left. exact Hpend.
        -- right. unfold relaxed_against. rewrite (Hother _ _ Hx0 Hxa).
           split; [assumption|]. split; [assumption|].
           intros c1 Hc1 y e' Hy'.
           change (dv_of (set_converged k r) h') with (dv_of r h') in Hy'.
           cbn [addr set_converged] in *. rewrite Ea in *.
           rewrite Hget in Hy'.
           destruct (dict_get y (dv_of r (heap st))) as [e|] eqn:E; [|discriminate].
           injection Hy' as <-.
           destruct (Hold c1 Hc1 y e E) as (e1 & He1 & Hle1).
           exists e1. split; [assumption|]. now rewrite !clamp_entry_twice.
      * destruct (Ha v rv' x rx' Hv0 Hx0 Hout Hcv) as [Hpend|Hrelold].
        -- left. exact Hpend.
        -- right. unfold relaxed_against in *.
           rewrite (Hother _ _ Hx0 Hxa), (Hother _ _ Hv0 Hva). assumption.
Qed.

(** Every move keeps the invariant *)
Lemma invariant_move cs net net' :
  links_ok cs -> invariant cs net -> move net net' -> invariant cs net'.
Proof.
  intros Hlinks Hinv Hm.
  destruct Hm as [pre a r post st|pre a r post st p rest r' st' Hq Hp|s d m net net' Hs].
  - now apply invariant_send.
  - destruct (is_http p) eqn:Hhttp; [eapply invariant_take_message; eauto|].
    pose proof Hinv as ((_ & _ & Hw3) & _ & Hpk & _). cbn [routers store] in *.
    destruct (Hw3 a r (in_elt _ _ _)) as (Ea & Eq & _).
    rewrite Eq in *.
    destruct (Hpk a p) as (s & rs_ & -> & Hs & Hout); [rewrite Hq; now left|assumption|].
    unfold route_packet in Hp. cbn [pkt_dst] in Hp.
    rewrite Ea, String.eqb_refl in Hp. cbn [read_packet] in Hp.
    cbn [heap emit set_queue] in Hp.
    destruct (update_dv r s (dv rs_) (heap st)) as [[r1 h1]| |] eqn:Hu; cbn [bind] in Hp;
      try discriminate.
    injection Hp as <- <-. unfold set_heap. cbn [queues log emit set_queue].
    eapply invariant_update; eauto.
  - eapply invariant_message; eauto.
Qed.

Lemma invariant_reachable cs net net' :
  links_ok cs -> invariant cs net ->
  clos_refl_trans Network operation net net' -> invariant cs net'.
Proof.
  intros Hlinks Hinv Hreach. apply reachable_moves in Hreach.
  revert Hinv. apply moves_keep; [|assumption].
  intros n n' Hn Hm. eapply invariant_move; eauto.
Qed.

(* ================================================================= *)
(** ** Shortest paths: the constructed network *)

Lemma link_costs_mem edges s d c :
  In (s, d, c) edges -> dict_mem (s, d) (link_costs edges) = true.
Proof.
  unfold link_costs.
  assert (H : forall cs0 : dict (address * address) Z,
            In (s, d, c) edges \/ dict_mem (s, d) cs0 = true ->
            dict_mem (s, d)
              (fold_left (fun cs (e : address * address * Z) =>
                            dict_set (fst (fst e), snd (fst e)) (snd e) cs) edges cs0)
            = true).
  { induction edges as [|[[s0 d0] c0] edges IH]; cbn [fold_left fst snd In]; intros cs0.
    - intros [[]|H]; assumption.
    - intros [[[= -> -> ->]|Hin]|Hm]; apply IH.
      + right. rewrite dict_mem_set, keqb_refl. reflexivity.
      + now left.
      + right. rewrite dict_mem_set, Hm. apply orb_true_r. }
  intros Hin. apply H. now left.
Qed.

Lemma link_costs_links_ok edges :
  (forall e, In e edges -> 0 <= snd e) ->
  (forall s d c, In (s, d, c) edges -> exists c', In (d, s, c') edges) ->
  links_ok (link_costs edges).
Proof.
  intros Hpos Hsym. split.
  - intros [s d] c Hk. apply dict_get_In, In_link_costs in Hk. apply (Hpos _ Hk).
  - intros a d Hm. apply dict_mem_true in Hm as [c Hc].
    apply dict_get_In, In_link_costs in Hc.
    destruct (Hsym _ _ _ Hc) as [c' Hc']. eapply link_costs_mem; eauto.
Qed.

Lemma Network_init_invariant addrs edges :
  (forall x, endpoint x edges -> In x addrs) ->
  (forall e, In e edges -> 0 <= snd e) ->
  invariant (link_costs edges) (Network_init addrs edges).
Proof.
  intros Hend Hpos.
  destruct (Network_init_as_built addrs edges) as (Hb & Hnd & _ & _). cbn zeta in *.
  destruct (Network_init_ok addrs edges Hend Hpos) as (Hlocs & _).
  pose proof (Network_init_queues addrs edges) as Hq.
  set (net := Network_init addrs edges) in *.
  set (cs := link_costs edges) in *.
  assert (Hfacts : forall a r, In (a, r) (routers net) ->
            addr r = a /\ in_queue r = a /\ converged r = 2
            /\ (forall d, dict_get d (costs r) = dict_get (a, d) cs)
            /\ (forall d, dict_mem d (out_queues r) = dict_mem (a, d) cs)
            /\ (forall k q, In (k, q) (out_queues r) -> k = q)
            /\ NoDup (dict_keys (dv_of r (heap (store net))))
            /\ forall y, dict_get y (dv_of r (heap (store net)))
                         = option_map (fun c => (y, c)) (dict_get (a, y) cs)).
  { intros a r Hin. destruct (Hb _ _ Hin) as (E & _ & Hd).
    assert (Hc : forall d, dict_get d (costs r) = dict_get (a, d) cs).
    { intros d. rewrite E. cbn [costs]. rewrite links_from_get by apply link_costs_NoDup.
      fold cs. now destruct (dict_get (a, d) cs). }
    rewrite E at 1 2 3. cbn [addr in_queue converged].
    split; [reflexivity|]. split; [reflexivity|]. split; [reflexivity|].
    split; [assumption|]. split; [|split; [|split]].
    - intros d. rewrite E. cbn [out_queues]. unfold dict_mem.
      rewrite links_from_get by apply link_costs_NoDup.
      fold cs. now destruct (dict_get (a, d) cs).
    - intros k q Hkq. rewrite E in Hkq. cbn [out_queues] in Hkq.
      apply In_links_from in Hkq as (c & _ & ->). reflexivity.
    - unfold dv_of. rewrite Hd. apply NoDup_dict_of_list.
    - intros y. unfold dv_of. rewrite Hd.
      rewrite link_vector_get, Hc; [reflexivity|].
      rewrite E. cbn [costs]. apply links_from_NoDup. }
  assert (Hcost : forall a y c, dict_get (a, y) cs = Some c -> 0 <= c).
  { intros a y c Hc. apply dict_get_In, In_link_costs in Hc. apply (Hpos _ Hc). }
  split; [|split; [|split; [|split; [|split]]]].
  - split; [assumption|]. split; [assumption|].
    intros a r Hin. destruct (Hfacts _ _ Hin) as (H1 & H2 & _ & H4 & H5 & H6 & _). auto.
  - intros a r Hin. destruct (Hfacts _ _ Hin) as (_ & _ & _ & _ & _ & _ & H7 & H8).
    split; [assumption|]. intros y e Hy. rewrite H8 in Hy.
    destruct (dict_get (a, y) cs) as [c|] eqn:Hc; [|discriminate].
    injection Hy as <-. cbn. eauto.
  - intros q p Hin. rewrite Hq in Hin. contradiction.
  - intros a r Hin y c Hy. destruct (Hfacts _ _ Hin) as (_ & _ & _ & H4 & _ & _ & _ & H8).
    rewrite H4 in Hy. exists (y, c). rewrite H8, Hy. split; [reflexivity|cbn; lia].
  - intros a r Hin y e Hy _. destruct (Hfacts _ _ Hin) as (_ & _ & _ & _ & _ & _ & _ & H8).
    rewrite H8 in Hy. destruct (dict_get (a, y) cs) as [c|] eqn:Hc; [|discriminate].
    injection Hy as <-. cbn [cost_of snd]. replace c with (c + 0) by lia.
    econstructor; [eassumption|constructor].
  - intros v rv x rx Hv _ _ Hc. destruct (Hfacts _ _ Hv) as (_ & _ & H3 & _). congruence.
Qed.

(* ================================================================= *)
(** ** Shortest paths: the stable network *)

Lemma stable_counters net :
  is_stable net = true -> forall a r, In (a, r) (routers net) -> converged r = 0.
Proof.
  unfold is_stable. intros Hst a r Hin. rewrite forallb_forall in Hst.
  specialize (Hst _ Hin). cbn [snd] in Hst. lia.
Qed.

Lemma stable_relaxed cs net :
  links_ok cs -> invariant cs net ->
  is_stable net = true -> no_dv_pending (store net) ->
  forall v rv x rx, In (v, rv) (routers net) -> In (x, rx) (routers net) ->
    dict_mem (x, v) cs = true -> relaxed_against rv rx (heap (store net)).
Proof.
  intros [_ Hsym] ((_ & _ & Hw3) & _ & _ & _ & _ & Ha) Hst Hnp v rv x rx Hv Hx Hlink.
  destruct (Hw3 _ _ Hv) as (_ & _ & _ & Hout & _).
  destruct (Ha v rv x rx Hv Hx) as [Hpend|Hrel].
  - rewrite Hout. now apply Hsym.
  - rewrite (stable_counters _ Hst _ _ Hv). discriminate.
  - apply no_dv_pending_spec with (q := x) (p := DVPacket v x (dv rv)) in Hnp;
      [discriminate|assumption].
  - assumption.
Qed.

Lemma stable_costs cs net :
  links_ok cs -> invariant cs net ->
  is_stable net = true -> no_dv_pending (store net) ->
  (forall a d, dict_mem (a, d) cs = true -> dict_mem d (routers net) = true) ->
  forall x y k, walk cs x y k ->
  forall rx, In (x, rx) (routers net) -> (exists v, dict_mem (x, v) cs = true) ->
    exists e, dict_get y (dv_of rx (heap (store net))) = Some e /\ cost_of e <= k.
Proof.
  intros Hlinks Hinv Hst Hnp Hclosed.
  pose proof (stable_relaxed cs net Hlinks Hinv Hst Hnp) as Hrel.
  destruct Hlinks as [Hpos Hsym].
  destruct Hinv as ((_ & _ & Hw3) & Hv & _ & Hn & _ & _).
  assert (Hrouter : forall a d, dict_mem (a, d) cs = true ->
            exists rd, In (d, rd) (routers net)).
  { intros a d Hm. apply Hclosed in Hm. apply dict_mem_true in Hm as [rd Hd].
    exists rd. now apply dict_get_In. }
  induction 1 as [x|x b y c k Hc Hwalk IH]; intros rx Hx [v Hlink].
  - (* the router itself *)
    destruct (Hrouter _ _ Hlink) as [rv Hrv].
    destruct (Hrel v rv x rx Hrv Hx Hlink) as (_ & Hself & Hle).
    destruct (Hw3 _ _ Hx) as (Ex & _ & Hcx & _).
    destruct (Hw3 _ _ Hrv) as (Ev & _ & Hcv & _).
    apply dict_mem_true in Hlink as [c Hc].
    pose proof (Hsym _ _ (proj2 (dict_mem_true _ _) (ex_intro _ c Hc))) as Hback.
    apply dict_mem_true in Hback as [c' Hc'].
    destruct (Hn _ _ Hrv x c') as (e & He & _); [now rewrite Hcv|].
    assert (Hcx' : dict_get (addr rv) (costs rx) = Some c) by (rewrite Ev, Hcx; exact Hc).
    destruct (Hle c Hcx' x e He) as (e' & He' & _).
    exists e'. split; [assumption|]. rewrite Ex in Hself. rewrite (Hself _ He'). cbn. lia.
  - (* through the neighbour [b] *)
    assert (Hm : dict_mem (x, b) cs = true) by (apply dict_mem_true; eauto).
    destruct (Hrouter _ _ Hm) as [rb Hrb].
    destruct (IH rb Hrb) as (e & He & Hek); [exists x; now apply Hsym|].
    destruct (Hrel b rb x rx Hrb Hx Hm) as (_ & _ & Hle).
    destruct (Hw3 _ _ Hx) as (_ & _ & Hcx & _).
    destruct (Hw3 _ _ Hrb) as (Eb & _).
    assert (Hcx' : dict_get (addr rb) (costs rx) = Some c) by (rewrite Eb, Hcx; exact Hc).
    destruct (Hle c Hcx' y e He) as (e' & He' & Hbound).
    exists e'. split; [assumption|].
    destruct (Hv _ _ Hrb) as [_ Hnn]. pose proof (Hnn _ _ He) as He0.
    rewrite clamp_entry_cost in Hbound. rewrite Eb in Hbound. unfold inf in *.
    destruct (String.eqb y b); lia.
Qed.

Lemma vector_at_In net x rx :
  NoDup (dict_keys (routers net)) -> In (x, rx) (routers net) ->
  vector_at x net = dv_of rx (heap (store net)).
Proof.
  intros Hnd Hin. unfold vector_at. now rewrite (NoDup_dict_get _ _ _ Hnd Hin).
Qed.

Lemma same_wiring_mem rs rs' a :
  same_wiring rs rs' -> dict_mem a rs' = dict_mem a rs.
Proof.
  intros Hw. pose proof (same_wiring_keys _ _ Hw) as Hk.
  destruct (dict_mem a rs) eqn:E.
  - apply dict_mem_keys. rewrite Hk. now apply dict_mem_keys.
  - destruct (dict_mem a rs') eqn:E'; [|reflexivity].
    apply dict_mem_keys in E'. rewrite Hk in E'. apply dict_mem_keys in E'. congruence.
Qed.

Lemma endpoint_has_link edges x :
  (forall s d c, In (s, d, c) edges -> exists c', In (d, s, c') edges) ->
  endpoint x edges -> exists v, dict_mem (x, v) (link_costs edges) = true.
Proof.
  intros Hsym ([[s d] c] & Hin & [E|E]); cbn [fst snd] in E; subst x.
  - exists d. eapply link_costs_mem; eauto.
  - destruct (Hsym _ _ _ Hin) as [c' Hin']. exists s. eapply link_costs_mem; eauto.
Qed.

Lemma reachable_routers addrs edges net' :
  (forall a, endpoint a edges -> In a addrs) ->
  clos_refl_trans Network operation (Network_init addrs edges) net' ->
  (forall a d, dict_mem (a, d) (link_costs edges) = true ->
               dict_mem d (routers net') = true)
  /\ (forall x, In x addrs -> exists rx, In (x, rx) (routers net')).
Proof.
  intros Hend Hreach. apply reachable_wiring in Hreach.
  destruct (Network_init_as_built addrs edges) as (_ & _ & _ & Hmem). cbn zeta in Hmem.
  assert (Hin : forall x, In x addrs -> dict_mem x (routers net') = true).
  { intros x Hx. rewrite (same_wiring_mem _ _ x Hreach), Hmem.
    apply existsb_exists. exists x. split; [assumption|apply String.eqb_refl]. }
  split.
  - intros a d Hm. apply Hin, Hend. apply dict_mem_true in Hm as [c Hc].
    apply dict_get_In, In_link_costs in Hc. exists (a, d, c). split; [assumption|now right].
  - intros x Hx. apply Hin in Hx. apply dict_mem_true in Hx as [rx Hrx].
    exists rx. now apply dict_get_In.
Qed.

(** X19: no router ever believes in a path that does not exist.  The
    topology has non-negative costs and a line back for every line.  In
    every state the constructed network reaches by sends, routes, steps,
    runs and messages, every cost of every vector is non-negative, and a
    cost below [inf] that router [x] holds for [y] is the total cost of a
    walk from [x] to [y] along the links. *)
Theorem costs_are_walk_costs (addrs : list address) (edges : topology)
  (net' : Network) (x y : address) (e : entry) :
  (forall e, In e edges -> 0 <= snd e) ->
  (forall s d c, In (s, d, c) edges -> exists c', In (d, s, c') edges) ->
  (forall a, endpoint a edges -> In a addrs) ->
  clos_refl_trans Network operation (Network_init addrs edges) net' ->
  dict_get y (vector_at x net') = Some e ->
  0 <= cost_of e
  /\ (cost_of e < inf -> walk (link_costs edges) x y (cost_of e)).
Proof.
  intros Hpos Hsym Hend Hreach Hy.
  pose proof (invariant_reachable _ _ _ (link_costs_links_ok _ Hpos Hsym)
                (Network_init_invariant _ _ Hend Hpos) Hreach)
    as ((Hnd & _) & Hv & _ & _ & Hk & _).
  unfold vector_at in Hy.
  destruct (dict_get x (routers net')) as [rx|] eqn:Hx; [|discriminate].
  apply dict_get_In in Hx. split.
  - apply (proj2 (Hv _ _ Hx) _ _ Hy).
  - apply (Hk _ _ Hx _ _ Hy).
Qed.

Lemma costs_are_walk_costs_witness :
  dict_get "C"%string (vector_at "A"%string Line.settled) = Some ("C"%string, 6)
  /\ walk (link_costs Line.edges) "A"%string "C"%string 6.
Proof.
  assert (H : dict_get "C"%string (vector_at "A"%string Line.settled)
              = Some ("C"%string, 6)) by (vm_compute; reflexivity).
  split; [exact H|].
  refine (proj2 (costs_are_walk_costs ["A"; "B"; "C"]%string Line.edges Line.settled
                   "A"%string "C"%string ("C"%string, 6) _ _ _ Line_reachable H) _).
  - apply edges_nonneg_b. vm_compute. reflexivity.
  - apply edges_symmetric_b. vm_compute. reflexivity.
  - apply endpoints_b. vm_compute. reflexivity.
  - vm_compute. reflexivity.
Defined.

(** X20: a converged network holds the costs of the cheapest paths.
    The topology has non-negative costs and a line back for every line; the
    network has been through any sends, routes, steps, runs and messages, is
    stable, and has no distance-vector packet waiting.  Then a router [x]
    with at least one link has, for every destination [y] it can reach by a
    walk of cost [k], an entry of cost at most [k]; and every entry it has
    costs between 0 and [inf], and when the cost is below [inf] there is a
    walk from [x] to [y] of exactly that cost.  So the cost stored is the
    cost of a cheapest walk, or [inf] when the cheapest walk costs [inf] or
    more. *)
Theorem stable_costs_are_shortest (addrs : list address) (edges : topology)
  (net' : Network) (x y : address) :
  (forall e, In e edges -> 0 <= snd e) ->
  (forall s d c, In (s, d, c) edges -> exists c', In (d, s, c') edges) ->
  (forall a, endpoint a edges -> In a addrs) ->
  clos_refl_trans Network operation (Network_init addrs edges) net' ->
  is_stable net' = true ->
  no_dv_pending (store net') ->
  endpoint x edges ->
  (forall k, walk (link_costs edges) x y k ->
     exists e, dict_get y (vector_at x net') = Some e /\ cost_of e <= k)
  /\ (forall e, dict_get y (vector_at x net') = Some e ->
        0 <= cost_of e <= inf
        /\ (cost_of e < inf -> walk (link_costs edges) x y (cost_of e))).
Proof.
  intros Hpos Hsym Hend Hreach Hst Hnp Hx.
  pose proof (link_costs_links_ok _ Hpos Hsym) as Hlinks.
  pose proof (invariant_reachable _ _ _ Hlinks (Network_init_invariant _ _ Hend Hpos) Hreach)
    as Hinv.
  destruct (reachable_routers _ _ _ Hend Hreach) as [Hclosed Hrouters].
  destruct (Hrouters x (Hend _ Hx)) as [rx Hrx].
  destruct (endpoint_has_link _ _ Hsym Hx) as [v Hv].
  pose proof Hinv as ((Hnd & _) & Hvec & _ & _ & Hk & _).
  rewrite (vector_at_In _ _ _ Hnd Hrx).
  split.
  - intros k Hw. eapply stable_costs; eauto.
  - intros e Hy. split; [split|].
    + apply (proj2 (Hvec _ _ Hrx) _ _ Hy).
    + assert (Hm : dict_mem v (routers net') = true) by (eapply Hclosed; eauto).
      apply dict_mem_true in Hm as [rv Hrv]. apply dict_get_In in Hrv.
      destruct (stable_relaxed _ _ Hlinks Hinv Hst Hnp v rv x rx Hrv Hrx Hv) as (Hb & _).
      apply (Hb _ _ Hy).
    + apply (Hk _ _ Hrx _ _ Hy).
Qed.

Lemma stable_costs_are_shortest_witness :
  is_stable Line.settled = true
  /\ walk (link_costs Line.edges) "A"%string "C"%string (1 + (5 + 0))
  /\ exists e, dict_get "C"%string (vector_at "A"%string Line.settled) = Some e
               /\ cost_of e <= 1 + (5 + 0).
Proof.
  assert (Hw : walk (link_costs Line.edges) "A"%string "C"%string (1 + (5 + 0))).
  { apply walk_cons with (b := "B"%string); [reflexivity|].
    apply walk_cons with (b := "C"%string); [reflexivity|]. constructor. }
  split; [reflexivity|]. split; [exact Hw|].
  refine (proj1 (stable_costs_are_shortest ["A"; "B"; "C"]%string Line.edges Line.settled
                   "A"%string "C"%string _ _ _ Line_reachable _ _ _) _ Hw).
  - apply edges_nonneg_b. vm_compute. reflexivity.
  - apply edges_symmetric_b. vm_compute. reflexivity.
  - apply endpoints_b. vm_compute. reflexivity.
  - reflexivity.
  - apply no_dv_pending_forallb. vm_compute. reflexivity.
  - exists ("A"%string, "B"%string, 1). split; [now left|now left].
Defined.

(* ================================================================= *)
(** ** Costs never rise *)

Lemma no_worse_refl net : no_worse net net.
Proof. intros x y e Hy. exists e. split; [assumption|lia]. Qed.

Lemma no_worse_trans n1 n2 n3 : no_worse n1 n2 -> no_worse n2 n3 -> no_worse n1 n3.
Proof.
  intros H12 H23 x y e Hy. destruct (H12 _ _ _ Hy) as (e2 & He2 & Hle2).
  destruct (H23 _ _ _ He2) as (e3 & He3 & Hle3). exists e3. split; [assumption|lia].
Qed.

Lemma no_worse_wiring rs st rs' st' :
  same_wiring rs rs' ->
  (forall a r, In (a, r) rs -> forall y e, dict_get y (dv_of r (heap st)) = Some e ->
     exists e', dict_get y (dv_of r (heap st')) = Some e' /\ cost_of e' <= cost_of e) ->
  no_worse (mkNetwork rs st) (mkNetwork rs' st').
Proof.
  intros Hw Hlow x y e. unfold vector_at. cbn [routers store].
  pose proof (Forall2_dict_get (fun r r' => exists c, r' = set_converged c r) _ _ Hw x) as H.
  destruct (dict_get x rs) as [r|] eqn:Er; [|discriminate].
  destruct (dict_get x rs') as [r'|]; [|contradiction].
  destruct H as [c ->]. intros Hy.
  apply (Hlow _ _ (dict_get_In _ _ _ Er) _ _ Hy).
Qed.

Lemma move_no_worse cs net net' :
  links_ok cs -> invariant cs net -> move net net' -> no_worse net net'.
Proof.
  intros Hlinks Hinv Hm.
  assert (Hsame : forall rs st rs' st', same_wiring rs rs' -> heap st' = heap st ->
            no_worse (mkNetwork rs st) (mkNetwork rs' st')).
  { intros rs st rs' st' Hw Hh. apply no_worse_wiring; [assumption|].
    intros a r _ y e Hy. rewrite Hh. exists e. split; [assumption|lia]. }
  destruct Hm as [pre a r post st|pre a r post st p rest r' st' Hq Hp|s d m net net' Hs].
  - destruct (Router_send_dv_spec r st) as (Hr & Hh & _).
    destruct (after_send_wiring r) as [c Hc].
    apply Hsame; [|assumption]. rewrite Hr, Hc. apply replaced_same_wiring.
  - destruct (is_http p) eqn:Hhttp.
    + apply (route_packet_message _ _ _ _ _ Hhttp) in Hp as (-> & Hh & _).
      apply Hsame; [apply same_wiring_refl|exact Hh].
    + pose proof Hinv as ((Hw1 & _ & Hw3) & _ & Hpk & _). cbn [routers store] in *.
      destruct (Hw3 a r (in_elt _ _ _)) as (Ea & Eq & _).
      rewrite Eq in *.
      destruct (Hpk a p) as (s & rs_ & -> & Hs & Hout); [rewrite Hq; now left|assumption|].
      unfold route_packet in Hp. cbn [pkt_dst] in Hp.
      rewrite Ea, String.eqb_refl in Hp. cbn [read_packet] in Hp.
      cbn [heap emit set_queue] in Hp.
      destruct (update_dv r s (dv rs_) (heap st)) as [[r1 h1]| |] eqn:Hu; cbn [bind] in Hp;
        try discriminate.
      injection Hp as <- <-.
      destruct (update_in_network cs _ st a r s rs_ r1 h1 Hlinks Hinv (in_elt _ _ _)
                  Hs Hout Hu)
        as (c & k & _ & _ & -> & _ & _ & _ & _ & _ & Hlow & _ & _ & Hother).
      apply no_worse_wiring; [apply replaced_same_wiring|].
      intros b rb Hb y e Hy. cbn [heap set_heap].
      destruct (String.eqb_spec b a) as [->|Hne].
      * assert (rb = r) as -> by (eapply keys_In_eq; eauto; apply in_elt).
        now apply Hlow.
      * rewrite (Hother _ _ Hb Hne). exists e. split; [assumption|lia].
  - unfold send_message in Hs. destruct (dict_mem s _); [|discriminate].
    injection Hs as <-. destruct net as [rs st].
    apply Hsame; [apply same_wiring_refl|reflexivity].
Qed.

Lemma moves_no_worse cs net net' :
  links_ok cs -> clos_refl_trans Network move net net' ->
  invariant cs net -> invariant cs net' /\ no_worse net net'.
Proof.
  intros Hlinks H. induction H as [x y Hm|x|x y z _ IH1 _ IH2]; intros Hinv.
  - split; [eapply invariant_move; eauto|eapply move_no_worse; eauto].
  - split; [assumption|apply no_worse_refl].
  - destruct (IH1 Hinv) as [Hy H1]. destruct (IH2 Hy) as [Hz H2].
    split; [assumption|eapply no_worse_trans; eauto].
Qed.

(** X21: between two states of a run of sends, routes, steps, runs and
    messages on a network built from a topology with non-negative costs and
    a line back for every line, no router forgets a destination and no cost
    rises. *)
Theorem costs_never_rise (addrs : list address) (edges : topology)
  (net1 net2 : Network) (x y : address) (e : entry) :
  (forall e, In e edges -> 0 <= snd e) ->
  (forall s d c, In (s, d, c) edges -> exists c', In (d, s, c') edges) ->
  (forall a, endpoint a edges -> In a addrs) ->
  clos_refl_trans Network operation (Network_init addrs edges) net1 ->
  clos_refl_trans Network operation net1 net2 ->
  dict_get y (vector_at x net1) = Some e ->
  exists e', dict_get y (vector_at x net2) = Some e' /\ cost_of e' <= cost_of e.
Proof.
  intros Hpos Hsym Hend Hreach1 Hreach2 Hy.
  pose proof (link_costs_links_ok _ Hpos Hsym) as Hlinks.
  pose proof (invariant_reachable _ _ _ Hlinks (Network_init_invariant _ _ Hend Hpos) Hreach1)
    as Hinv.
  apply reachable_moves in Hreach2.
  destruct (moves_no_worse _ _ _ Hlinks Hreach2 Hinv) as [_ Hnw].
  apply (Hnw _ _ _ Hy).
Qed.

Lemma costs_never_rise_witness :
  dict_get "B"%string (vector_at "A"%string Line.net0) = Some ("B"%string, 1)
  /\ exists e', dict_get "B"%string (vector_at "A"%string Line.settled) = Some e'
                /\ cost_of e' <= 1.
Proof.
  assert (H : dict_get "B"%string (vector_at "A"%string Line.net0)
              = Some ("B"%string, 1)) by (vm_compute; reflexivity).
  split; [exact H|].
  refine (costs_never_rise ["A"; "B"; "C"]%string Line.edges Line.net0 Line.settled
            "A"%string "B"%string ("B"%string, 1) _ _ _ _ Line_reachable H).
  - apply edges_nonneg_b. vm_compute. reflexivity.
  - apply edges_symmetric_b. vm_compute. reflexivity.
  - apply endpoints_b. vm_compute. reflexivity.
  - apply rt_refl.
Defined.

(* ================================================================= *)
(** ** A bound on the number of rounds *)

Lemma run_loop_bounded U C : inf <= C -> forall m net steps,
  network_ok U C net -> (measure U C net <= m)%nat ->
  exists n fuel k net',
    run_loop n fuel net steps = Ok ((steps + k)%nat, net')
    /\ is_stable net' = true /\ (k <= m)%nat /\ network_ok U C net'.
Proof.
  intros HC.
  assert (Hstable : forall m net steps, is_stable net = true -> network_ok U C net ->
            exists n fuel k net',
              run_loop n fuel net steps = Ok ((steps + k)%nat, net')
              /\ is_stable net' = true /\ (k <= m)%nat /\ network_ok U C net').
  { intros m net steps Hst Hok. exists 0%nat, 0%nat, 0%nat, net.
    cbn [run_loop]. rewrite Hst, Nat.add_0_r.
    split; [reflexivity|]. split; [reflexivity|]. split; [lia|assumption]. }
  induction m as [|m IH]; intros net steps Hok Hm;
    destruct (is_stable net) eqn:Hst; auto;
    destruct (round_lowers U C net Hok HC) as (f0 & net1 & Hstep & Hok1 & Hlt);
    specialize (Hlt Hst); [lia|].
  destruct (IH net1 (S steps) Hok1) as (n1 & f1 & k1 & net' & Hrun & Hst' & Hk1 & Hok');
    [lia|].
  exists (S n1), (Nat.max f0 f1), (S k1), net'.
  split; [|split; [assumption|split; [lia|assumption]]].
  cbn [run_loop]. rewrite Hst.
  rewrite (step_mono f0 (Nat.max f0 f1) net net1) by (auto; lia). cbn [bind].
  rewrite (run_loop_mono n1 f1 net1 (S steps) _ Hrun n1 (Nat.max f0 f1)) by lia.
  now rewrite Nat.add_succ_r.
Qed.

Lemma weight_bound C (d : DV) u :
  capped C d -> (weight C d u <= Z.to_nat C + 2)%nat.
Proof.
  intros Hc. unfold weight. destruct (dict_get u d) as [e|] eqn:E; [|lia].
  pose proof (Hc _ _ E). lia.
Qed.

Lemma potential_bound U C (d : DV) :
  capped C d -> (potential U C d <= List.length U * (Z.to_nat C + 2))%nat.
Proof.
  intros Hc. unfold potential. induction U as [|u U IH]; cbn [map List.length].
  - cbn. lia.
  - rewrite list_sum_cons. pose proof (weight_bound C d u Hc). lia.
Qed.

Lemma dict_set_length {K V : Type} `{EqKey K} (k : K) (v : V) (d : dict K V) :
  (List.length (dict_set k v d) <= S (List.length d))%nat.
Proof.
  induction d as [|[k' v'] d IH]; cbn [dict_set List.length]; [lia|].
  destruct (keqb k k'); cbn [List.length]; lia.
Qed.

Lemma make_routers_length cs : forall addrs rs st,
  (List.length (fst (make_routers cs addrs rs st))
   <= List.length addrs + List.length rs)%nat.
Proof.
  induction addrs as [|a addrs IH]; intros rs st; cbn [make_routers List.length].
  - cbn. lia.
  - destruct (Router_init a _ a _ st) as [r st1].
    specialize (IH (dict_set a r rs) st1).
    pose proof (dict_set_length a r rs). lia.
Qed.

Lemma Network_init_measure addrs edges :
  (forall x, endpoint x edges -> In x addrs) ->
  (forall e, In e edges -> 0 <= snd e) ->
  (measure addrs (cost_cap edges) (Network_init addrs edges) <= round_bound addrs edges)%nat.
Proof.
  intros Hend Hpos.
  destruct (Network_init_ok addrs edges Hend Hpos) as (_ & _ & Hheap & _).
  destruct (Network_init_as_built addrs edges) as (Hb & _). cbn zeta in Hb.
  assert (Hlen : (List.length (routers (Network_init addrs edges)) <= List.length addrs)%nat).
  { unfold Network_init.
    pose proof (make_routers_length (link_costs edges) addrs []
                  (mkStore [] (dict_of_list (map (fun a => (a, @nil Packet)) addrs)) []))
      as H.
    destruct (make_routers _ _ _ _) as [rs st]. cbn [fst routers List.length] in *. lia. }
  unfold measure, net_measure, round_bound.
  set (net := Network_init addrs edges) in *.
  set (B := (3 * (List.length addrs * (Z.to_nat (cost_cap edges) + 2)) + 2)%nat).
  assert (Hone : forall a r, In (a, r) (routers net) ->
            (router_measure addrs (cost_cap edges) (heap (store net)) r <= B)%nat).
  { intros a r Hin. unfold router_measure, B.
    destruct (Hb _ _ Hin) as (E & _). rewrite E at 2. cbn [converged].
    pose proof (potential_bound addrs (cost_cap edges) (dv_of r (heap (store net)))) as Hp.
    specialize (Hp (proj1 (proj2 (proj2 (Hheap (dv r)))))). lia. }
  revert Hone Hlen. generalize (routers net) as rs.
  induction rs as [|[a r] rs IH]; intros Hone Hlen; cbn [map List.length] in *.
  - cbn. lia.
  - rewrite list_sum_cons. cbn [snd].
    pose proof (Hone a r (or_introl eq_refl)).
    assert (list_sum (map (fun ar : address * Router =>
              router_measure addrs (cost_cap edges) (heap (store net)) (snd ar)) rs)
            <= List.length rs * B)%nat.
    { clear -Hone. induction rs as [|[a' r'] rs IH]; cbn [map List.length].
      - cbn. lia.
      - rewrite list_sum_cons. cbn [snd].
        pose proof (Hone a' r' (or_intror (or_introl eq_refl))).
        assert (list_sum (map (fun ar : address * Router =>
                  router_measure addrs (cost_cap edges) (heap (store net)) (snd ar)) rs)
                <= List.length rs * B)%nat.
        { apply IH. intros a0 r0 [E|Hin]; apply (Hone a0 r0); [now left|right; now right]. }
        lia. }
    nia.
Qed.

(** X22: the number [run_until_converged] returns on a freshly built
    network with non-negative link costs is at most
    [n * (3 * n * (C + 2) + 2)], where [n] is the number of addresses and
    [C] the largest link cost, or [inf] when no link costs more. *)
Theorem rounds_bounded (addrs : list address) (edges : topology) (fuel steps : nat)
  (net' : Network) :
  (forall a, endpoint a edges -> In a addrs) ->
  (forall e, In e edges -> 0 <= snd e) ->
  run_until_converged fuel (Network_init addrs edges) = Ok (steps, net') ->
  (steps <= round_bound addrs edges)%nat.
Proof.
  intros Hend Hpos Hrun.
  pose proof (Network_init_ok addrs edges Hend Hpos) as Hok.
  destruct (run_loop_bounded addrs (cost_cap edges) (cost_cap_inf edges)
              _ (Network_init addrs edges) 0%nat Hok (Network_init_measure _ _ Hend Hpos))
    as (n & f & k & net1 & Hrun1 & _ & Hk & _).
  unfold run_until_converged in Hrun.
  pose proof (run_loop_mono _ _ _ _ _ Hrun (Nat.max n fuel) (Nat.max f fuel)) as H1.
  pose proof (run_loop_mono _ _ _ _ _ Hrun1 (Nat.max n fuel) (Nat.max f fuel)) as H2.
  rewrite H1 in H2 by lia. specialize (H2 ltac:(lia) ltac:(lia)).
  injection H2 as -> _. cbn. lia.
Qed.

Lemma rounds_bounded_witness :
  run_until_converged 3 Line.net0 = Ok (3%nat, Line.settled)
  /\ (3 <= round_bound ["A"; "B"; "C"]%string Line.edges)%nat.
Proof.
  assert (H : run_until_converged 3 Line.net0 = Ok (3%nat, Line.settled))
    by (vm_compute; reflexivity).
  split; [exact H|].
  apply (rounds_bounded ["A"; "B"; "C"]%string Line.edges 3 3 Line.settled).
  - apply endpoints_b. vm_compute. reflexivity.
  - apply edges_nonneg_b. vm_compute. reflexivity.
  - exact H.
Defined.

(* ================================================================= *)
(** ** Sessions that never raise *)

Lemma link_vector_sound U C (cs : dict address Z) :
  NoDup (dict_keys cs) ->
  (forall k c, dict_get k cs = Some c -> 0 <= c <= C /\ In k U) ->
  sound U C (link_vector cs).
Proof.
  intros Hnd Hcs.
  assert (Hentry : forall k e, dict_get k (link_vector cs) = Some e ->
            exists c, dict_get k cs = Some c /\ e = (k, c)).
  { intros k e. rewrite link_vector_get by assumption.
    destruct (dict_get k cs) as [c|]; [|discriminate]. intros [= <-]. eauto. }
  split; [apply NoDup_dict_of_list|]. split; [|split].
  - intros k e Hk. destruct (Hentry _ _ Hk) as (c & Hc & ->). apply (Hcs _ _ Hc).
  - intros k e Hk. destruct (Hentry _ _ Hk) as (c & Hc & ->). apply (Hcs _ _ Hc).
  - intros k Hk. apply dict_mem_true in Hk as [e Hk].
    destruct (Hentry _ _ Hk) as (c & Hc & _). apply (Hcs _ _ Hc).
Qed.

Lemma reset_sweep_heap : forall rs st l,
  dict_mem l (heap (snd (each_router Router_reset rs st))) = true ->
  dict_mem l (heap st) = true \/ In l (locs (fst (each_router Router_reset rs st))).
Proof.
  induction rs as [|[a r] rs IH]; intros st l; cbn [each_router].
  - cbn [fst snd]. now left.
  - destruct (Router_reset_spec r st) as (Hr & Hh & _). cbn zeta in *.
    destruct (Router_reset r st) as [r1 st1]. cbn [fst snd] in *.
    specialize (IH st1 l).
    destruct (each_router Router_reset rs st1) as [rs2 st2]. cbn [fst snd locs map] in *.
    intros Hm. destruct (IH Hm) as [H1|H2]; [|right; now right].
    rewrite Hh, dict_mem_heap_store in H1. apply orb_true_iff in H1 as [E|H1]; [|now left].
    apply Nat.eqb_eq in E. right. left. rewrite Hr. cbn. congruence.
Qed.

Lemma same_wiring_costs_ok U C rs rs' :
  same_wiring rs rs' -> costs_ok U C rs -> costs_ok U C rs'.
Proof.
  intros Hw Hc a r' Hin. destruct (same_wiring_In _ _ Hw _ _ Hin) as (r & c & Hin0 & ->).
  apply (Hc _ _ Hin0).
Qed.

Lemma Network_reset_ok U C net :
  0 <= C -> session_ok U C net -> session_ok U C (Network_reset net).
Proof.
  intros HC [(Hnd & Hwire & Hheap & Hdv) Hcosts].
  pose proof (reset_sweep_heap (routers net) (store net)) as Hnew.
  unfold session_ok, network_ok, net_ok, Network_reset.
  destruct (reset_sweep (routers net) (store net)) as (HF & Hnd' & Hfresh & Hold & _ & Hq).
  cbn zeta in *.
  destruct (each_router Router_reset (routers net) (store net)) as [rs' st'].
  cbn [fst snd routers store] in *.
  assert (Hback : forall a r', In (a, r') rs' ->
            exists r, In (a, r) (routers net)
                      /\ r' = set_converged 2 (set_dv (dv r') r)
                      /\ dv_of r' (heap st') = link_vector (costs r)).
  { intros a r' Hin. apply (Forall2_In_r _ _ _ HF) in Hin as ([a0 r] & Hin & Hk & E & Hd).
    cbn [fst snd] in *. subst a0. eauto. }
  split; [split; [exact Hnd'|split; [|split]]|].
  - intros a r' Hin. destruct (Hback _ _ Hin) as (r & Hin0 & E & _).
    destruct (Hwire _ _ Hin0) as [Hw _]. rewrite E. split; [exact Hw|cbn; lia].
  - intros l. destruct (dict_mem l (heap st')) eqn:Hm.
    + destruct (Hnew l Hm) as [H1|H2].
      * destruct (Hold l H1) as [_ ->]. apply Hheap.
      * unfold locs in H2. apply in_map_iff in H2 as ([a r'] & <- & Hin). cbn [snd].
        destruct (Hback _ _ Hin) as (r & Hin0 & _ & Hd). unfold dv_of in Hd. rewrite Hd.
        destruct (Hcosts _ _ Hin0) as [Hndc Hc]. now apply link_vector_sound.
    + unfold deref. apply dict_mem_false in Hm. rewrite Hm. now apply sound_empty.
  - intros q p Hin. rewrite Hq in Hin.
    destruct (existsb _ (routers net)); [contradiction|]. now apply Hdv.
  - intros a r' Hin. destruct (Hback _ _ Hin) as (r & Hin0 & E & _).
    rewrite E. apply (Hcosts _ _ Hin0).
Qed.

Lemma Network_init_session_ok addrs edges :
  (forall x, endpoint x edges -> In x addrs) ->
  (forall e, In e edges -> 0 <= snd e) ->
  session_ok addrs (cost_cap edges) (Network_init addrs edges).
Proof.
  intros Hend Hpos. split; [now apply Network_init_ok|].
  destruct (Network_init_as_built addrs edges) as (Hb & _). cbn zeta in Hb.
  intros a r Hin. destruct (Hb _ _ Hin) as (E & _). rewrite E. cbn [costs].
  split; [apply links_from_NoDup|].
  intros k c Hk. apply dict_get_In, In_links_from in Hk as (c' & Hk & ->).
  apply In_link_costs in Hk. split; [split|].
  - apply (Hpos _ Hk).
  - apply (cost_cap_edge _ _ Hk).
  - apply Hend. exists (a, k, c'). split; [assumption|now right].
Qed.

Lemma choose_ok U C c net :
  inf <= C -> session_ok U C net -> is_quiet c = true ->
  exists fuel net',
    (forall fuel', (fuel <= fuel')%nat -> choose fuel' c net = Ok net')
    /\ session_ok U C net'.
Proof.
  intros HC [Hok Hcosts] Hquiet.
  assert (Hsame : exists fuel net',
            (forall fuel', (fuel <= fuel')%nat -> Ok net = Ok net')
            /\ session_ok U C net').
  { exists 0%nat, net. split; [reflexivity|split; assumption]. }
  destruct c; try discriminate; cbn [choose]; try exact Hsame.
  - (* run until converged *)
    destruct (run_loop_bounded U C HC _ net 0%nat Hok (le_n _))
      as (n & f & k & net' & Hrun & _ & _ & Hok').
    exists (Nat.max n f), net'. split.
    + intros fuel' Hle. unfold run_until_converged.
      rewrite (run_loop_mono _ _ _ _ _ Hrun fuel' fuel') by lia. reflexivity.
    + split; [assumption|].
      apply (same_wiring_costs_ok U C (routers net)); [|assumption].
      eapply run_loop_wiring; eauto.
  - (* one step *)
    destruct (round_lowers U C net Hok HC) as (f & net' & Hstep & Hok' & _).
    exists f, net'. split.
    + intros fuel' Hle. eapply step_mono; eauto.
    + split; [assumption|].
      apply (same_wiring_costs_ok U C (routers net)); [|assumption].
      eapply step_wiring; eauto.
  - (* reset *)
    exists 0%nat, (Network_reset net). split; [reflexivity|].
    apply Network_reset_ok; [unfold inf in HC; lia|split; assumption].
  - (* route *)
    destruct (route_sweep U C (pending (queues (store net))) _ _ Hok HC)
      as (rs' & st' & Hroute & Hok' & _); [intros q; apply pending_bound|].
    exists (pending (queues (store net))), (mkNetwork rs' st'). split.
    + intros fuel' Hle. unfold Network_route.
      rewrite (each_router_r_mono _ _ Hle _ _ _ Hroute). reflexivity.
    + split; [assumption|].
      apply (same_wiring_costs_ok U C (routers net)); [|assumption].
      eapply route_sweep_wiring; eauto.
  - (* send *)
    destruct (send_sweep U C _ _ Hok) as (st' & Hsend & _ & Hok').
    exists 0%nat, (Network_send_dv net). split; [reflexivity|].
    unfold Network_send_dv. rewrite Hsend. split; [assumption|].
    apply (same_wiring_costs_ok U C (routers net)); [apply all_sent_wiring|assumption].
Qed.

Lemma main_loop_ok U C choices : inf <= C ->
  forallb is_quiet choices = true ->
  forall net, session_ok U C net ->
    exists fuel net',
      (forall fuel', (fuel <= fuel')%nat -> main_loop fuel' choices net = Ok net')
      /\ session_ok U C net'.
Proof.
  intros HC. induction choices as [|c choices IH]; intros Hq net Hok.
  - exists 0%nat, net. split; [reflexivity|assumption].
  - cbn [forallb] in Hq. apply andb_true_iff in Hq as [Hc Hq].
    destruct (choose_ok U C c net HC Hok Hc) as (f1 & net1 & Hrun1 & Hok1).
    destruct (IH Hq net1 Hok1) as (f2 & net2 & Hrun2 & Hok2).
    destruct c; try discriminate;
      try (exists (Nat.max f1 f2), net2; split; [|assumption];
           intros fuel' Hle; cbn [main_loop];
           rewrite (Hrun1 fuel') by lia; cbn [bind]; apply Hrun2; lia).
    exists 0%nat, net. split; [reflexivity|assumption].
Qed.

(** X23: a session of [main] on a topology with non-negative costs in
    which choices 3 (send a message) and 4 (change a link cost) are not used
    never raises, and every call of [run_until_converged] and [route] in it
    returns: with enough fuel for the loops the session reaches a network,
    and more fuel gives the same one. *)
Theorem session_never_raises (addrs : list address) (edges : topology)
  (choices : list choice) :
  (forall a, endpoint a edges -> In a addrs) ->
  (forall e, In e edges -> 0 <= snd e) ->
  forallb is_quiet choices = true ->
  exists fuel net',
    forall fuel', (fuel <= fuel')%nat -> main fuel' addrs edges choices = Ok net'.
Proof.
  intros Hend Hpos Hq.
  destruct (main_loop_ok addrs (cost_cap edges) choices (cost_cap_inf edges) Hq
              (Network_init addrs edges) (Network_init_session_ok _ _ Hend Hpos))
    as (f & net' & Hrun & _).
  exists f, net'. exact Hrun.
Qed.

Lemma session_never_raises_witness :
  main 4 ["A"; "B"; "C"]%string Line.edges [OneStep; Reset; RunUntilConverged; ViewTables]
  = Ok (match main 4 ["A"; "B"; "C"]%string Line.edges
                [OneStep; Reset; RunUntilConverged; ViewTables] with
        | Ok net => net
        | _ => Line.net0
        end)
  /\ exists fuel net',
       forall fuel', (fuel <= fuel')%nat ->
         main fuel' ["A"; "B"; "C"]%string Line.edges
              [OneStep; Reset; RunUntilConverged; ViewTables] = Ok net'.
Proof.
  split; [vm_compute; reflexivity|].
  apply session_never_raises.
  - apply endpoints_b. vm_compute. reflexivity.
  - apply edges_nonneg_b. vm_compute. reflexivity.
  - reflexivity.
Defined.

(* ================================================================= *)
(** ** The addresses of a session *)

Lemma existsb_eqb_In (U : list address) a : existsb (String.eqb a) U = true <-> In a U.
Proof.
  rewrite existsb_exists. split.
  - intros (x & Hx & E). apply String.eqb_eq in E. now subst.
  - intros H. exists a. split; [assumption|apply String.eqb_refl].
Qed.

Lemma queues_set_keys (U : list address) q (v : list Packet)
  (qs : dict address (list Packet)) :
  In q U -> (forall k, dict_mem k qs = existsb (String.eqb k) U) ->
  forall k, dict_mem k (dict_set q v qs) = existsb (String.eqb k) U.
Proof.
  intros Hq H k. rewrite dict_mem_set, H. simpl.
  destruct (String.eqb_spec k q) as [->|Hne]; [|reflexivity].
  cbn [orb]. symmetry. now apply existsb_eqb_In.
Qed.

Lemma dict_mem_keys_eq {V W : Type} (d : dict address V) (d' : dict address W) :
  dict_keys d' = dict_keys d -> forall k, dict_mem k d' = dict_mem k d.
Proof.
  intros E k. destruct (dict_mem k d) eqn:H.
  - apply dict_mem_keys. rewrite E. now apply dict_mem_keys.
  - destruct (dict_mem k d') eqn:H'; [|reflexivity].
    apply dict_mem_keys in H'. rewrite E in H'. apply dict_mem_keys in H'. congruence.
Qed.

Lemma send_fold_keys (U : list address) a l outs : forall st,
  (forall k q, In (k, q) outs -> In q U) ->
  (forall k, dict_mem k (queues st) = existsb (String.eqb k) U) ->
  forall k,
    dict_mem k (queues (fold_left (fun st' (dq : address * address) =>
                                     queue_put (snd dq) (DVPacket a (fst dq) l) st')
                                  outs st))
    = existsb (String.eqb k) U.
Proof.
  induction outs as [|[d q] outs IH]; intros st Hout Hq; cbn [fold_left fst snd].
  - exact Hq.
  - apply IH; [intros k' q' H; apply (Hout k' q'); now right|].
    unfold queue_put. cbn [queues]. apply queues_set_keys; [|exact Hq].
    apply (Hout d q). now left.
Qed.

Lemma route_packet_keys (U : list address) self p st self' st' :
  (forall k q, In (k, q) (out_queues self) -> In q U) ->
  route_packet self p st = Ok (self', st') ->
  (forall k, dict_mem k (queues st) = existsb (String.eqb k) U) ->
  forall k, dict_mem k (queues st') = existsb (String.eqb k) U.
Proof.
  intros Hout Hr Hq. unfold route_packet in Hr.
  destruct (String.eqb (pkt_dst p) (addr self)).
  - destruct p as [s d t|s d m]; cbn [read_packet] in Hr.
    + destruct (update_dv self s t _) as [[r1 h1]| |]; cbn [bind] in Hr; try discriminate.
      injection Hr as _ <-. exact Hq.
    + injection Hr as _ <-. exact Hq.
  - destruct (dict_get (pkt_dst p) _) as [e|].
    + destruct (dict_get (next_hop_of e) (out_queues self)) as [q|] eqn:Eq; [|discriminate].
      injection Hr as _ <-. cbn [emit queue_put queues].
      apply queues_set_keys; [|exact Hq].
      apply (Hout (next_hop_of e) q). now apply dict_get_In.
    + injection Hr as _ <-. exact Hq.
Qed.

Lemma replaced_wires (U : list address) (pre post : dict address Router) a r c :
  (forall b rb, In (b, rb) (pre ++ (a, r) :: post) ->
     In (in_queue rb) U /\ forall k q, In (k, q) (out_queues rb) -> In q U) ->
  forall b rb, In (b, rb) (pre ++ (a, set_converged c r) :: post) ->
    In (in_queue rb) U /\ forall k q, In (k, q) (out_queues rb) -> In q U.
Proof.
  intros H b rb Hin. apply in_app_iff in Hin as [Hin|[[= <- <-]|Hin]].
  - apply (H b). apply in_app_iff. now left.
  - apply (H a r). apply in_app_iff. right. now left.
  - apply (H b). apply in_app_iff. right. now right.
Qed.

Lemma addresses_move (U : list address) net net' :
  addresses_kept U net -> move net net' -> addresses_kept U net'.
Proof.
  intros (Hw & Hr & Hq) Hm.
  destruct Hm as [pre a r post st|pre a r post st p rest r' st' Hp Hroute
                  |src dst msg net net' Hsend]; cbn [routers store] in *.
  - destruct (Router_send_dv_spec r st) as (E & _). rewrite E.
    destruct (after_send_wiring r) as [c Ec]. rewrite Ec.
    assert (Hr0 : In (in_queue r) U /\ forall k q, In (k, q) (out_queues r) -> In q U).
    { apply (Hw a). apply in_app_iff. right. now left. }
    split; [now apply replaced_wires|]. split.
    + intros b. rewrite <- Hr. apply dict_mem_keys_eq, replaced_keys.
    + unfold Router_send_dv. destruct (converged r =? 0); cbn [snd]; [exact Hq|].
      apply send_fold_keys; [apply Hr0|exact Hq].
  - destruct (route_packet_counter _ _ _ _ _ Hroute) as (c & -> & _).
    assert (Hr0 : In (in_queue r) U /\ forall k q, In (k, q) (out_queues r) -> In q U).
    { apply (Hw a). apply in_app_iff. right. now left. }
    split; [now apply replaced_wires|]. split.
    + intros b. rewrite <- Hr. apply dict_mem_keys_eq, replaced_keys.
    + apply (route_packet_keys U _ _ _ _ _ (proj2 Hr0) Hroute).
      unfold set_queue. cbn [queues]. apply queues_set_keys; [apply Hr0|exact Hq].
  - unfold send_message in Hsend.
    destruct (dict_mem src (queues (store net))) eqn:Es; [|discriminate].
    injection Hsend as <-. cbn [routers store queue_put queues].
    split; [exact Hw|]. split; [exact Hr|].
    apply queues_set_keys; [|exact Hq]. apply existsb_eqb_In. now rewrite <- Hq.
Qed.

Lemma reset_sweep_keys (U : list address) : forall rs st,
  (forall a r, In (a, r) rs -> In (in_queue r) U) ->
  (forall k, dict_mem k (queues st) = existsb (String.eqb k) U) ->
  forall k, dict_mem k (queues (snd (each_router Router_reset rs st)))
            = existsb (String.eqb k) U.
Proof.
  induction rs as [|[a r] rs IH]; intros st Hin Hq; cbn [each_router].
  - exact Hq.
  - unfold Router_reset at 1. cbn zeta.
    specialize (IH (set_queue (in_queue r) []
                      (set_heap (heap_store (heap_fresh (heap st))
                         (dict_of_list (map (fun dc : address * Z =>
                                               (fst dc, (fst dc, snd dc))) (costs r)))
                         (heap st)) st))).
    destruct (each_router Router_reset rs _) as [rs2 st2]. cbn [snd] in *.
    apply IH; [intros b rb H; apply (Hin b); now right|].
    cbn [set_queue set_heap queues]. apply queues_set_keys; [|exact Hq].
    apply (Hin a). now left.
Qed.

Lemma addresses_reset (U : list address) net :
  addresses_kept U net -> addresses_kept U (Network_reset net).
Proof.
  intros (Hw & Hr & Hq).
  destruct (Network_reset_spec net) as (HF & _). cbn zeta in HF.
  pose proof (reset_sweep_keys U (routers net) (store net)
                (fun a r H => proj1 (Hw a r H)) Hq) as Hk.
  unfold Network_reset in *.
  destruct (each_router Router_reset (routers net) (store net)) as [rs' st'].
  cbn [fst snd routers store] in *.
  split; [|split; [|exact Hk]].
  - intros a r' Hin.
    apply (Forall2_In_r _ _ _ HF) in Hin as ([a0 r] & Hin & _ & E & _).
    cbn [fst snd] in *. rewrite E. apply (Hw a0 r Hin).
  - intros a. rewrite <- Hr. apply dict_mem_keys_eq.
    apply (Forall2_keys _ _ _ (fun x y H => proj1 H) HF).
Qed.

Lemma addresses_change_cost (U : list address) net src dst cost net' :
  addresses_kept U net -> change_link_cost src dst cost net = Ok net' ->
  addresses_kept U net'.
Proof.
  intros (Hw & Hr & Hq) Hc. unfold change_link_cost in Hc.
  destruct (dict_get src (routers net)) as [r|] eqn:Er; [|discriminate].
  destruct (Router_change_cost_spec r dst cost (heap (store net)))
    as (r' & h' & Hrc & -> & _).
  rewrite Hrc in Hc. cbn [bind] in Hc. injection Hc as <-.
  unfold addresses_kept. cbn [routers store set_heap queues].
  split; [|split; [|exact Hq]].
  - intros a r0 Hin. apply In_dict_set in Hin as [[= -> ->]|Hin]; [|now apply (Hw a)].
    apply (Hw src r). now apply dict_get_In.
  - intros a. rewrite dict_mem_set, Hr. simpl.
    destruct (String.eqb_spec a src) as [->|Hne]; [|reflexivity].
    cbn [orb]. rewrite <- Hr. symmetry. apply dict_mem_true. eauto.
Qed.

Lemma make_routers_keys_of (U : list address) cs : forall addrs rs st,
  (forall a, In a addrs -> In a U) ->
  (forall k, dict_mem k (queues st) = existsb (String.eqb k) U) ->
  forall k, dict_mem k (queues (snd (make_routers cs addrs rs st)))
            = existsb (String.eqb k) U.
Proof.
  induction addrs as [|a addrs IH]; intros rs st Hin Hq; cbn [make_routers].
  - exact Hq.
  - unfold Router_init, Router_reset. cbn zeta. cbn [in_queue].
    apply IH; [intros b H; apply Hin; now right|].
    cbn [set_queue set_heap queues]. apply queues_set_keys; [|exact Hq].
    apply Hin. now left.
Qed.

Lemma empty_queues_keys (addrs : list address) k :
  dict_mem k (map (fun a : address => (a, @nil Packet)) addrs)
  = existsb (String.eqb k) addrs.
Proof.
  induction addrs as [|a addrs IH]; [reflexivity|]. cbn [map existsb].
  rewrite dict_mem_cons, IH. reflexivity.
Qed.

Lemma addresses_init addrs edges :
  (forall a, endpoint a edges -> In a addrs) ->
  addresses_kept addrs (Network_init addrs edges).
Proof.
  intros Hend.
  destruct (Network_init_as_built addrs edges) as (Hb & _ & _ & Hmem). cbn zeta in *.
  split; [|split; [exact Hmem|]].
  - intros a r Hin. destruct (Hb a r Hin) as (E & _). rewrite E. cbn [in_queue out_queues].
    assert (Ha : In a addrs).
    { apply existsb_eqb_In. rewrite <- Hmem. now apply (In_dict_mem a r). }
    split; [exact Ha|].
    intros k q Hk. apply In_links_from in Hk as (c & Hk & ->).
    apply In_link_costs in Hk. apply Hend. exists (a, k, c). split; [assumption|now right].
  - unfold Network_init.
    set (qs := dict_of_list (map (fun a => (a, @nil Packet)) addrs)).
    pose proof (make_routers_keys_of addrs (link_costs edges) addrs []
                  (mkStore [] qs []) (fun a H => H)) as Hk.
    destruct (make_routers (link_costs edges) addrs [] (mkStore [] qs [])) as [rs st].
    cbn [snd store queues] in *. apply Hk. intros k. unfold qs.
    rewrite dict_mem_of_list. apply empty_queues_keys.
Qed.

Lemma session_addresses fuel addrs edges choices net' :
  (forall a, endpoint a edges -> In a addrs) ->
  main fuel addrs edges choices = Ok net' -> addresses_kept addrs net'.
Proof.
  intros Hend. unfold main.
  apply (main_loop_keeps (addresses_kept addrs)).
  - apply addresses_reset.
  - intros net net1 Hk Hop.
    apply (moves_keep (addresses_kept addrs) (addresses_move addrs) net net1);
      [now apply operation_moves|exact Hk].
  - intros net src dst cost net1. apply addresses_change_cost.
  - now apply addresses_init.
Qed.

(** X24: at every point of every session of [main], choices 3 and 4
    accept as source exactly the addresses of the topology.  For a source
    among them neither choice raises, whatever destination, message and cost
    are typed; for any other source both raise [KeyError]. *)
Theorem driver_errors (fuel : nat) (addrs : list address) (edges : topology)
  (choices : list choice) (net' : Network) (src dst : address) (msg : string)
  (cost : Z) :
  (forall a, endpoint a edges -> In a addrs) ->
  main fuel addrs edges choices = Ok net' ->
  (In src addrs ->
     (exists net2, send_message src dst msg net' = Ok net2)
     /\ (exists net2, change_link_cost src dst cost net' = Ok net2))
  /\ (~ In src addrs ->
        send_message src dst msg net' = KeyError
        /\ change_link_cost src dst cost net' = KeyError).
Proof.
  intros Hend Hmain.
  destruct (session_addresses _ _ _ _ _ Hend Hmain) as (_ & Hr & Hq).
  unfold send_message, change_link_cost.
  specialize (Hr src). specialize (Hq src). rewrite Hq.
  destruct (existsb (String.eqb src) addrs) eqn:E.
  - apply existsb_eqb_In in E.
    split; [intros _|intros Hn; contradiction].
    split; [eauto|].
    apply dict_mem_true in Hr as [r Hr]. rewrite Hr.
    destruct (Router_change_cost_spec r dst cost (heap (store net')))
      as (r' & h' & -> & _).
    cbn [bind]. eauto.
  - assert (Hn : ~ In src addrs).
    { intros Hin. apply existsb_eqb_In in Hin. congruence. }
    split; [intros Hin; contradiction|intros _].
    split; [reflexivity|].
    apply dict_mem_false in Hr. now rewrite Hr.
Qed.

Lemma driver_errors_witness :
  main 3 ["A"; "B"; "C"]%string Line.edges [RunUntilConverged] = Ok Line.settled
  /\ send_message "Z"%string "A"%string "hi"%string Line.settled = KeyError
  /\ exists net2, change_link_cost "A"%string "C"%string 2 Line.settled = Ok net2.
Proof.
  assert (Hend : forall a, endpoint a Line.edges -> In a ["A"; "B"; "C"]%string).
  { apply endpoints_b. vm_compute. reflexivity. }
  assert (Hmain : main 3 ["A"; "B"; "C"]%string Line.edges [RunUntilConverged]
                  = Ok Line.settled) by (vm_compute; reflexivity).
  split; [exact Hmain|]. split.
  - refine (proj1 (proj2 (driver_errors 3 _ Line.edges _ _ "Z"%string "A"%string
                            "hi"%string 0 Hend Hmain) _)).
    intros H. vm_compute in H. intuition discriminate.
  - refine (proj2 (proj1 (driver_errors 3 _ Line.edges _ _ "A"%string "C"%string
                            "hi"%string 2 Hend Hmain) _)).
    now left.
Defined.
